(** * synk: synchronising a batch of resources with a cluster

    A shallow embedding of [src/go/pkg/synk/synk.go] (package [synk] of
    googlecloudrobotics/core) and the properties of its reconciliation
    engine: ResourceSet naming and versioning, owner references, the
    per-resource create/update/replace procedure, the CRD gate and the
    bounded retry loop.

    Conventions of the embedding.
    - Go [string] is [string] (a byte sequence); Go [int32] and [int] are [Z]
      with the wrap-around or range check written where the source has it.
    - A Go [(value, error)] result is a sum or a pair with [option error];
      [nil] is [None].
    - A Go [panic] is the [Panics] outcome; every stateful function runs in
      the monad [M], which threads the cluster and an observation trace.
    - [unstructured.Unstructured] pointer arguments that the source mutates in place
      are returned updated; resources are threaded by value, so two list
      entries are two objects.
    - The object store, the REST mapper, the discovery client, the clock and
      the poll timer are collaborators outside the package: they are the
      fields of [Env], and every theorem quantifies over them. *)

From Stdlib Require Import ZArith String Ascii List Decimal DecimalString DecimalZ DecimalPos Lia Sorted Permutation.
From stdpp Require Import base option list gmap strings.

Local Open Scope string_scope.
Local Open Scope list_scope.
Local Open Scope Z_scope.

(** ** Errors and outcomes *)

(** The one argument of the format strings the package uses: [%q] or [%d]. *)
Inductive FmtArg : Type :=
| ArgQ (s : string)
| ArgD (z : Z).

(** Go [error] values, kept structured.  [errors_Errorf prefix a] is
    [errors.Errorf(prefix + verb, a)]: every format string of the package
    ends with its only verb. *)
Inductive error : Type :=
| errors_New (msg : string)
| errors_Errorf (prefix : string) (arg : FmtArg)
| errors_Wrap (cause : error) (msg : string)
| errors_Wrapf (cause : error) (prefix : string) (arg : FmtArg)
| NumError (func num msg : string)
| StatusError (reason msg : string)
| RuntimeError (msg : string).

(** What a call does: return normally or panic. *)
Inductive Outcome (A : Type) : Type :=
| Returns (a : A)
| Panics (e : error).
Arguments Returns {A} a.
Arguments Panics {A} e.

Definition Outcome_bind {A B : Type} (o : Outcome A) (k : A -> Outcome B) : Outcome B :=
  match o with
  | Returns a => k a
  | Panics e => Panics e
  end.

(** [k8serrors.IsNotFound]: the error is an API status with reason NotFound. *)
Definition IsNotFound (err : option error) : bool :=
  match err with
  | Some (StatusError reason _) => String.eqb reason "NotFound"
  | _ => false
  end.

(** [wait.ErrWaitTimeout]. *)
Definition ErrWaitTimeout : error := errors_New "timed out waiting for the condition".

(** ** Integers *)

(** Conversion [int32(x)] of a Go [int]: the low 32 bits, signed. *)
Definition int32 (z : Z) : Z := (z + 2 ^ 31) mod 2 ^ 32 - 2 ^ 31.

Definition maxInt64 : Z := 2 ^ 63 - 1.
Definition minInt64 : Z := - 2 ^ 63.
Definition maxInt32 : Z := 2 ^ 31 - 1.

(** The verb [%d]. *)
Definition fmt_d (z : Z) : string := NilZero.string_of_int (Z.to_int z).

(** An unsigned run of decimal digits, [None] when empty or not all digits. *)
Definition parseDigits (s : string) : option Z :=
  match NilZero.uint_of_string s with
  | Some d => Some (Z.of_uint d)
  | None => None
  end.

(** [strconv.Atoi] on a 64-bit platform: an optional sign, then digits only;
    a value that does not fit [int] is a range error and the result is
    clamped. *)
Definition strconv_Atoi (s : string) : Z * option error :=
  let signed :=
    match s with
    | String "-" s' => option_map Z.opp (parseDigits s')
    | String "+" s' => parseDigits s'
    | _ => parseDigits s
    end in
  match signed with
  | None => (0, Some (NumError "Atoi" s "invalid syntax"))
  | Some n =>
      if maxInt64 <? n then (maxInt64, Some (NumError "Atoi" s "value out of range"))
      else if n <? minInt64 then (minInt64, Some (NumError "Atoi" s "value out of range"))
      else (n, None)
  end.

(** ** ResourceSet names *)

Definition isDigit (c : ascii) : bool :=
  let n := nat_of_ascii c in (48 <=? n)%nat && (n <=? 57)%nat.

Definition isLowerAlnum (c : ascii) : bool :=
  let n := nat_of_ascii c in
  ((97 <=? n)%nat && (n <=? 122)%nat) || isDigit c.

(** The longest prefix of [s] in the character class [p], and the rest. *)
Fixpoint spanClass (p : ascii -> bool) (s : string) : string * string :=
  match s with
  | String c s' =>
      if p c then let '(a, b) := spanClass p s' in (String c a, b)
      else (EmptyString, s)
  | EmptyString => (EmptyString, EmptyString)
  end.

(** [namePat.FindStringSubmatch] for
    [namePat = regexp.MustCompile(`^([a-z0-9]+)\.v([0-9]+)$`)]: the whole
    string and the two groups, or no match.  Neither class contains the dot,
    so the greedy run of the first group is its only possible extent. *)
Definition namePat_FindStringSubmatch (s : string) : list string :=
  let '(b, rest) := spanClass isLowerAlnum s in
  match b, rest with
  | String _ _, String "." (String "v" ds) =>
      let '(d, tl) := spanClass isDigit ds in
      match d, tl with
      | String _ _, EmptyString => [s; b; d]
      | _, _ => []
      end
  | _, _ => []
  end.

Definition resourceSetName (s : string) (v : Z) : string :=
  s +:+ ".v" +:+ fmt_d v.

Definition decodeResourceSetName (s : string) : Outcome (string * Z * bool) :=
  let res := namePat_FindStringSubmatch s in
  if (length res =? 0)%nat then Returns ("", 0, false)
  else
    let '(version, err) := strconv_Atoi (nth 2 res "") in
    match err with
    | Some e => Panics e
    | None => Returns (nth 1 res "", int32 version, true)
    end.

(** ** Data model *)

Record GroupVersionKind : Type := {
  gvkGroup : string;
  gvkVersion : string;
  gvkKind : string
}.

Record GroupVersionResource : Type := {
  gvrGroup : string;
  gvrVersion : string;
  gvrResource : string
}.

Record OwnerReference : Type := {
  orAPIVersion : string;
  orKind : string;
  orName : string;
  orUID : string;
  orController : option bool;
  orBlockOwnerDeletion : option bool
}.

(** The fields of a typed [apiextensions.CustomResourceDefinition] that the
    package reads. *)
Record CustomResourceDefinition : Type := {
  crdSpecGroup : string;
  crdSpecVersion : string;
  crdSpecNamesPlural : string
}.

(** [unstructured.Unstructured], by the accessors the package calls.
    [asCRD] is what [convert(u, &crd)] yields for this object (the JSON
    round trip into the typed CRD, or its error); [content] is the rest of
    the object. *)
Record Unstructured : Type := {
  GetAPIVersion : string;
  GetKind : string;
  GetNamespace : string;
  GetName : string;
  GetResourceVersion : string;
  GetOwnerReferences : list OwnerReference;
  asCRD : CustomResourceDefinition + error;
  content : string
}.

Definition SetResourceVersion (version : string) (u : Unstructured) : Unstructured :=
  {| GetAPIVersion := GetAPIVersion u; GetKind := GetKind u;
     GetNamespace := GetNamespace u; GetName := GetName u;
     GetResourceVersion := version;
     GetOwnerReferences := GetOwnerReferences u;
     asCRD := asCRD u; content := content u |}.

Definition SetOwnerReferences (references : list OwnerReference) (u : Unstructured) : Unstructured :=
  {| GetAPIVersion := GetAPIVersion u; GetKind := GetKind u;
     GetNamespace := GetNamespace u; GetName := GetName u;
     GetResourceVersion := GetResourceVersion u;
     GetOwnerReferences := references;
     asCRD := asCRD u; content := content u |}.

(** The zero value [unstructured.Unstructured{}]. *)
Definition isZeroUnstructured (u : Unstructured) : bool :=
  String.eqb (GetAPIVersion u) "" && String.eqb (GetKind u) "" &&
  String.eqb (GetNamespace u) "" && String.eqb (GetName u) "" &&
  String.eqb (GetResourceVersion u) "" &&
  match GetOwnerReferences u with [] => true | _ => false end &&
  String.eqb (content u) "".

Fixpoint countSlash (s : string) : nat :=
  match s with
  | String "/" s' => S (countSlash s')
  | String _ s' => countSlash s'
  | EmptyString => 0%nat
  end.

(** [gv[:i], gv[i+1:]] for the first slash at [i]. *)
Fixpoint splitSlash (s : string) : string * string :=
  match s with
  | String "/" s' => (EmptyString, s')
  | String c s' => let '(a, b) := splitSlash s' in (String c a, b)
  | EmptyString => (EmptyString, EmptyString)
  end.

(** [schema.ParseGroupVersion]; [None] is its error. *)
Definition ParseGroupVersion (gv : string) : option (string * string) :=
  if String.eqb gv "" || String.eqb gv "/" then Some ("", "")
  else
    match countSlash gv with
    | 0%nat => Some ("", gv)
    | 1%nat => Some (splitSlash gv)
    | _ => None
    end.

(** The method [GroupVersionKind] of [Unstructured]: the empty GVK when the apiVersion
    does not parse. *)
Definition GroupVersionKind_of (u : Unstructured) : GroupVersionKind :=
  match ParseGroupVersion (GetAPIVersion u) with
  | Some (g, v) => {| gvkGroup := g; gvkVersion := v; gvkKind := GetKind u |}
  | None => {| gvkGroup := ""; gvkVersion := ""; gvkKind := "" |}
  end.

Definition GroupVersionKind_eqb (a b : GroupVersionKind) : bool :=
  String.eqb (gvkGroup a) (gvkGroup b) && String.eqb (gvkVersion a) (gvkVersion b) &&
  String.eqb (gvkKind a) (gvkKind b).

Record ResourceRef : Type := {
  refNamespace : string;
  refName : string
}.

Record ResourceSetSpecGroup : Type := {
  specGroup : string;
  specVersion : string;
  specKind : string;
  specItems : list ResourceRef
}.

Inductive ResourceSetPhase : Type :=
| ResourceSetPhaseUnset
| ResourceSetPhasePending.

(** [apps.ResourceSet], by the fields the package writes or reads. *)
Record ResourceSet : Type := {
  rsKind : string;
  rsAPIVersion : string;
  rsName : string;
  rsUID : string;
  rsLabels : list (string * string);
  rsSpecResources : list ResourceSetSpecGroup;
  rsStatusPhase : ResourceSetPhase;
  rsStatusStartedAt : Z
}.

Inductive ResourceAction : Type :=
| ResourceActionNone
| ResourceActionCreate
| ResourceActionUpdate
| ResourceActionReplace.

Record ResourceStatus : Type := {
  stNamespace : string;
  stName : string;
  stAction : ResourceAction;
  stError : string
}.

Record ApplyOptions : Type := {
  optName : string;
  optVersion : Z
}.

Definition isCustomResourceDefinition (r : Unstructured) : bool :=
  String.eqb (GetAPIVersion r) "apiextensions.k8s.io/v1beta1" &&
  String.eqb (GetKind r) "CustomResourceDefinition".

Definition resourceKey (r : Unstructured) : string :=
  let gvk := GroupVersionKind_of r in
  gvkGroup gvk +:+ "/" +:+ gvkVersion gvk +:+ "/" +:+ gvkKind gvk +:+ "/" +:+
  GetNamespace r +:+ "/" +:+ GetName r.

Definition filter (in_ : list Unstructured) (f : Unstructured -> bool) : list Unstructured :=
  List.filter f in_.

(** [sort.Slice(l, less)].  The library's order among elements that compare
    equal is unspecified; here they keep their input order. *)
Fixpoint sort_insert {A : Type} (less : A -> A -> bool) (x : A) (l : list A) : list A :=
  match l with
  | [] => [x]
  | y :: l' => if less y x || negb (less x y) then y :: sort_insert less x l' else x :: l
  end.

Definition sort_Slice {A : Type} (less : A -> A -> bool) (l : list A) : list A :=
  fold_left (fun acc x => sort_insert less x acc) l [].

Definition sortResources (res : list Unstructured) : list Unstructured :=
  sort_Slice (fun a b => String.ltb (resourceKey a) (resourceKey b)) res.

Definition resourceSetGVR : GroupVersionResource :=
  {| gvrGroup := "apps.cloudrobotics.com"; gvrVersion := "v1alpha1";
     gvrResource := "resourcesets" |}.

(** ** Collaborators *)

Record meta_RESTMapping : Type := {
  mappingResource : GroupVersionResource;
  mappingScopeIsRoot : bool
}.

(** [dynamic.ResourceInterface]: [client.Resource(gvr)], namespaced or not. *)
Record ResourceInterface : Type := {
  riResource : GroupVersionResource;
  riNamespace : option string
}.

Record APIResource : Type := { apiResourceName : string }.

(** Everything outside the package.  [cluster] is the state of the outside
    world (object store, discovery cache, clocks); every call may read and
    change it and answer anything.
    - [client_CreateResourceSet] is [convert(rs, &u)], the store's Create on
      [resourceSetGVR] and [convert(res, rs)] taken together.
    - [wait_ticks interval timeout] is the number of times the poll timer
      fires before the timeout closes it.
    - [strconv_Quote] renders the [%q] verb. *)
Record Env : Type := {
  cluster : Type;
  mapper_RESTMapping :
    string -> string -> string -> cluster -> (meta_RESTMapping + error) * cluster;
  client_Get :
    ResourceInterface -> string -> cluster -> (Unstructured + error) * cluster;
  client_Create :
    ResourceInterface -> Unstructured -> cluster -> (Unstructured + error) * cluster;
  client_Update :
    ResourceInterface -> Unstructured -> cluster -> (Unstructured + error) * cluster;
  client_Delete :
    ResourceInterface -> string -> cluster -> option error * cluster;
  client_List :
    GroupVersionResource -> cluster -> (list Unstructured + error) * cluster;
  client_CreateResourceSet :
    ResourceSet -> cluster -> (ResourceSet + error) * cluster;
  discovery_Invalidate : cluster -> cluster;
  discovery_ServerResourcesForGroupVersion :
    string -> cluster -> (list APIResource + error) * cluster;
  metav1_Now : cluster -> Z * cluster;
  wait_ticks : Z -> Z -> cluster -> nat;
  strconv_Quote : string -> string
}.

(** ** Observation trace *)

(** The calls [applyOne] makes on the mapper and the object store. *)
Inductive Call : Type :=
| CallRESTMapping (group kind version : string)
| CallGet (client : ResourceInterface) (name : string)
| CallCreate (client : ResourceInterface) (obj : Unstructured)
| CallUpdate (client : ResourceInterface) (obj : Unstructured)
| CallDelete (client : ResourceInterface) (name : string).

(** The trace has no counterpart in the source and nothing reads it: it
    records each entry into [applyOne] and each call made on behalf of the
    resource that [applyOne] was entered with. *)
Inductive Event : Type :=
| EvApply (resource : Unstructured) (replace : bool)
| EvCall (owner : Unstructured) (c : Call).

Record World (K : Env) : Type := {
  σ : cluster K;
  events : list Event
}.
Arguments σ {K} w.
Arguments events {K} w.

Definition time_Second : Z := 1000000000.
Definition time_Minute : Z := 60 * time_Second.

(** ** The package's functions *)

#[global] Instance Outcome_mbind : MBind Outcome := fun A B k o => Outcome_bind o k.
#[global] Instance Outcome_mret : MRet Outcome := fun A a => Returns a.

(** [err.Error()]. *)
Fixpoint Error (quote : string -> string) (e : error) : string :=
  let arg a := match a with ArgQ s => quote s | ArgD z => fmt_d z end in
  match e with
  | errors_New msg => msg
  | errors_Errorf prefix a => prefix +:+ arg a
  | errors_Wrap cause msg => msg +:+ ": " +:+ Error quote cause
  | errors_Wrapf cause prefix a => prefix +:+ arg a +:+ ": " +:+ Error quote cause
  | NumError func num msg => "strconv." +:+ func +:+ ": parsing " +:+ quote num +:+ ": " +:+ msg
  | StatusError _ msg => msg
  | RuntimeError msg => "runtime error: " +:+ msg
  end.

(** The body of the loop of [setOwnerRef]: [range] is the slice the [for]
    ranges over, fixed when the loop starts, and [ownerRefs] the variable the
    body appends to.  The result is the final [ownerRefs] or the error
    returned from inside the loop. *)
Fixpoint scanOwnerRefs (name : string) (version : Z)
    (range : list OwnerReference) (ownerRefs : list OwnerReference)
  : Outcome (list OwnerReference + error) :=
  match range with
  | [] => Returns (inl ownerRefs)
  | or :: rest =>
      if negb (String.eqb (orAPIVersion or) "apps.cloudrobotics.com/v1alpha1") ||
         negb (String.eqb (orKind or) "Resources")
      then scanOwnerRefs name version rest (ownerRefs ++ [or])
      else
        '(n, v, ok) ← decodeResourceSetName (orName or);
        if negb ok then
          Returns (inr (errors_Errorf "Resources owner reference with invalid name " (ArgQ (orName or))))
        else if negb (String.eqb n name) then
          Returns (inr (errors_Errorf "owned by conflicting Resources object " (ArgQ (orName or))))
        else if version <? v then
          Returns (inr (errors_Errorf "conflicting Resources version " (ArgD version)))
        else scanOwnerRefs name version rest ownerRefs
  end.

(** [setOwnerRef]: the resource as the call leaves it, and the error. *)
Definition setOwnerRef (rs : ResourceSet) (resource : Unstructured)
  : Outcome (Unstructured * option error) :=
  '(name, version, ok) ← decodeResourceSetName (rsName rs);
  if negb ok then
    Returns (resource, Some (errors_Errorf "invalid ResourceSet name " (ArgQ (rsName rs))))
  else
    let ownerRefs : list OwnerReference := [] in
    scanned ← scanOwnerRefs name version ownerRefs ownerRefs;
    match scanned with
    | inr err => Returns (resource, Some err)
    | inl ownerRefs =>
        let _true := true in
        let ownerRefs := ownerRefs ++ [
          {| orAPIVersion := "apps.cloudrobotics.com/v1alpha1";
             orKind := "Resources";
             orName := rsName rs;
             orUID := rsUID rs;
             orController := None;
             orBlockOwnerDeletion := Some _true |} ] in
        Returns (SetOwnerReferences ownerRefs resource, None)
    end.

(** The loop of [next] over [list.Items], from the current [curVersion]. *)
Fixpoint scanVersions (name : string) (items : list Unstructured) (curVersion : Z)
  : Outcome Z :=
  match items with
  | [] => Returns curVersion
  | r :: rest =>
      '(n, v, ok) ← decodeResourceSetName (GetName r);
      if negb ok || negb (String.eqb n name) then scanVersions name rest curVersion
      else if curVersion <? v then scanVersions name rest v
      else scanVersions name rest curVersion
  end.

(** [next] once the listing has succeeded: [curVersion + 1] in [int32]. *)
Definition nextVersion (name : string) (items : list Unstructured) : Outcome Z :=
  curVersion ← scanVersions name items 0;
  Returns (int32 (curVersion + 1)).

(** The groups of [initialize]: the map from GVK to references, in the order
    the keys first appear. *)
Fixpoint appendGrouped (gvk : GroupVersionKind) (ref : ResourceRef)
    (m : list (GroupVersionKind * list ResourceRef))
  : list (GroupVersionKind * list ResourceRef) :=
  match m with
  | [] => [(gvk, [ref])]
  | (k, refs) :: m' =>
      if GroupVersionKind_eqb k gvk then (k, refs ++ [ref]) :: m'
      else (k, refs) :: appendGrouped gvk ref m'
  end.

Definition groupResources (resources : list Unstructured)
  : list (GroupVersionKind * list ResourceRef) :=
  fold_left
    (fun m r => appendGrouped (GroupVersionKind_of r)
                  {| refNamespace := GetNamespace r; refName := GetName r |} m)
    resources [].

Definition specGroupKey (a : ResourceSetSpecGroup) : string :=
  specGroup a +:+ "/" +:+ specVersion a +:+ "/" +:+ specKind a.

(** The last loop of [initialize]: attach the ResourceSet as owner of every
    resource that is not a CRD, stopping at the first error. *)
Fixpoint attachOwners (rs : ResourceSet) (resources : list Unstructured)
  : Outcome (list Unstructured * option error) :=
  match resources with
  | [] => Returns ([], None)
  | r :: rest =>
      if negb (isCustomResourceDefinition r) then
        '(r', err) ← setOwnerRef rs r;
        match err with
        | Some e =>
            Returns (r' :: rest,
                     Some (errors_Wrapf e "set owner reference for " (ArgQ (resourceKey r))))
        | None =>
            '(rest', err') ← attachOwners rs rest;
            Returns (r' :: rest', err')
        end
      else
        '(rest', err') ← attachOwners rs rest;
        Returns (r :: rest', err')
  end.

Definition initStatus (resources : list Unstructured) : gmap string ResourceStatus :=
  fold_left
    (fun status r =>
       <[resourceKey r :=
           {| stNamespace := GetNamespace r; stName := GetName r;
              stAction := ResourceActionNone; stError := "" |}]> status)
    resources ∅.

Definition setResult (st : ResourceStatus) (action : ResourceAction) (err : string)
  : ResourceStatus :=
  {| stNamespace := stNamespace st; stName := stName st;
     stAction := action; stError := err |}.

(** What [applyAll] leaves behind besides its error: its local status map
    and the resources as mutated in place. *)
Record Applied : Type := {
  appliedStatus : gmap string ResourceStatus;
  appliedCRDs : list Unstructured;
  appliedRegulars : list Unstructured
}.

Section Synk.
Context {K : Env}.

(** State and panics: a computation runs from a world to an outcome and
    the world it leaves. *)
Definition M (A : Type) : Type := World K -> Outcome A * World K.

#[global] Instance M_mret : MRet M := fun A a w => (Returns a, w).
#[global] Instance M_mbind : MBind M := fun A B k m w =>
  match m w with
  | (Returns a, w') => k a w'
  | (Panics e, w') => (Panics e, w')
  end.

Definition panic {A : Type} (e : error) : M A := fun w => (Panics e, w).

Definition lift {A : Type} (o : Outcome A) : M A := fun w => (o, w).

Definition trace (ev : Event) : M unit := fun w =>
  (Returns tt, {| σ := σ w; events := events w ++ [ev] |}).

(** A collaborator call that the trace does not record. *)
Definition call {A : Type} (f : cluster K -> A * cluster K) : M A := fun w =>
  let '(a, c) := f (σ w) in (Returns a, {| σ := c; events := events w |}).

(** A collaborator call made on behalf of [owner]. *)
Definition callFor {A : Type} (owner : Unstructured) (c : Call)
    (f : cluster K -> A * cluster K) : M A :=
  trace (EvCall owner c);; call f.

(** Reading through a [*ResourceStatus] taken from the status map. *)
Definition deref (st : option ResourceStatus) : M ResourceStatus :=
  match st with
  | Some s => mret s
  | None => panic (RuntimeError "invalid memory address or nil pointer dereference")
  end.

Definition errorString (err : option error) : string :=
  match err with
  | Some e => Error (strconv_Quote K) e
  | None => ""
  end.

(** [applyOne].  [rs] is a pointer the function never follows.  The first
    component of the result is [resource] as the call leaves it. *)
Definition applyOne (rs : option ResourceSet) (resource : Unstructured) (replace : bool)
  : M (Unstructured * ResourceAction * option error) :=
  let owner := resource in
  trace (EvApply owner replace);;
  if String.eqb (GetName resource) "" then
    mret (resource, ResourceActionNone, Some (errors_New "missing resource name"))
  else
    let gvk := GroupVersionKind_of resource in
    mapped ← callFor owner (CallRESTMapping (gvkGroup gvk) (gvkKind gvk) (gvkVersion gvk))
               (mapper_RESTMapping K (gvkGroup gvk) (gvkKind gvk) (gvkVersion gvk));
    match mapped with
    | inr err => mret (resource, ResourceActionNone, Some (errors_Wrap err "get REST mapping"))
    | inl mapping =>
        let client :=
          if mappingScopeIsRoot mapping
          then {| riResource := mappingResource mapping; riNamespace := None |}
          else {| riResource := mappingResource mapping;
                  riNamespace := Some (GetNamespace resource) |} in
        got ← callFor owner (CallGet client (GetName resource))
                (client_Get K client (GetName resource));
        match got with
        | inr err =>
            if IsNotFound (Some err) then
              created ← callFor owner (CallCreate client resource)
                          (client_Create K client resource);
              match created with
              | inr err => mret (resource, ResourceActionCreate,
                                 Some (errors_Wrap err "create resource"))
              | inl _ => mret (resource, ResourceActionCreate, None)
              end
            else mret (resource, ResourceActionNone, Some (errors_Wrap err "get resource"))
        | inl prev =>
            let resource := SetResourceVersion (GetResourceVersion prev) resource in
            updated ← callFor owner (CallUpdate client resource)
                        (client_Update K client resource);
            match updated with
            | inl _ => mret (resource, ResourceActionUpdate, None)
            | inr err =>
                if negb replace then
                  mret (resource, ResourceActionUpdate,
                        Some (errors_Wrap err "update resource"))
                else
                  deleted ← callFor owner (CallDelete client (GetName prev))
                              (client_Delete K client (GetName prev));
                  match deleted with
                  | Some err => mret (resource, ResourceActionReplace,
                                      Some (errors_Wrap err "delete resource"))
                  | None =>
                      let resource := SetResourceVersion "" resource in
                      created ← callFor owner (CallCreate client resource)
                                  (client_Create K client resource);
                      match created with
                      | inr err => mret (resource, ResourceActionReplace,
                                         Some (errors_Wrap err "create resource"))
                      | inl _ => mret (resource, ResourceActionReplace, None)
                      end
                  end
            end
        end
    end.

Definition crdAvailable (ucrd : Unstructured) : M (bool * option error) :=
  call (fun c => (tt, discovery_Invalidate K c));;
  match asCRD ucrd with
  | inr err => mret (false, Some err)
  | inl crd =>
      listed ← call (discovery_ServerResourcesForGroupVersion K
                       (crdSpecGroup crd +:+ "/" +:+ crdSpecVersion crd));
      match listed with
      | inr _ => mret (false, None)
      | inl list =>
          mret (existsb (fun r => String.eqb (apiResourceName r) (crdSpecNamesPlural crd)) list,
                None)
      end
  end.

(** The condition [applyAll] polls: every CRD available. *)
Fixpoint crdsAvailable (crds : list Unstructured) : M (bool * option error) :=
  match crds with
  | [] => mret (true, None)
  | crd :: rest =>
      '(ok, err) ← crdAvailable crd;
      if negb ok || (match err with Some _ => true | None => false end)
      then mret (false, err)
      else crdsAvailable rest
  end.

(** [wait.WaitFor] driven by the poll timer: the condition is evaluated at
    each of the [ticks] firings, then the wait times out. *)
Fixpoint wait_WaitFor (ticks : nat) (condition : M (bool * option error))
  : M (option error) :=
  match ticks with
  | O => mret (Some ErrWaitTimeout)
  | S ticks' =>
      '(ok, err) ← condition;
      match (err : option error) with
      | Some e => mret (Some e)
      | None => if (ok : bool) then mret None else wait_WaitFor ticks' condition
      end
  end.

(** How often the timer of [wait.poller(interval, timeout)] fires. *)
Definition timerTicks (interval timeout : Z) : M nat := fun w =>
  (Returns (wait_ticks K interval timeout (σ w)), w).

(** [wait.PollImmediate]: the condition once at once, then at each firing
    of the timer. *)
Definition wait_PollImmediate (interval timeout : Z) (condition : M (bool * option error))
  : M (option error) :=
  '(done, err) ← condition;
  match (err : option error) with
  | Some e => mret (Some e)
  | None =>
      if (done : bool) then mret None
      else
        ticks ← timerTicks interval timeout;
        wait_WaitFor ticks condition
  end.

(** The loop of [applyAll] over the CRDs. *)
Fixpoint installCRDs (rs : option ResourceSet) (crds : list Unstructured)
    (status : gmap string ResourceStatus)
  : M (list Unstructured * gmap string ResourceStatus) :=
  match crds with
  | [] => mret ([], status)
  | crd :: rest =>
      let key := resourceKey crd in
      let st := status !! key in
      '(crd', action, err) ← applyOne rs crd false;
      st ← deref st;
      let status := <[key := setResult st action (errorString err)]> status in
      '(rest', status) ← installCRDs rs rest status;
      mret (crd' :: rest', status)
  end.

(** The inner loop of [applyAll]: one pass [i] over the regular resources. *)
Fixpoint applyRegulars (rs : option ResourceSet) (i : nat) (regulars : list Unstructured)
    (status : gmap string ResourceStatus) (curFailures : nat)
  : M (list Unstructured * gmap string ResourceStatus * nat) :=
  match regulars with
  | [] => mret ([], status, curFailures)
  | r :: rest =>
      let key := resourceKey r in
      let st := status !! key in
      skip ← (if (0 <? i)%nat then s ← deref st; mret (String.eqb (stError s) "")
              else mret false);
      if (skip : bool) then
        '(rest', status, curFailures) ← applyRegulars rs i rest status curFailures;
        mret (r :: rest', status, curFailures)
      else
        '(r', action, err) ← applyOne rs r true;
        st ← deref st;
        let curFailures := match err with Some _ => S curFailures | None => curFailures end in
        let status := <[key := setResult st action (errorString err)]> status in
        '(rest', status, curFailures) ← applyRegulars rs i rest status curFailures;
        mret (r' :: rest', status, curFailures)
  end.

(** The outer loop [for i := 0; i < 10; i++]: [n] passes remain. *)
Fixpoint retryLoop (n : nat) (rs : option ResourceSet) (i : nat) (regulars : list Unstructured)
    (status : gmap string ResourceStatus) (prevFailures : nat)
  : M (list Unstructured * gmap string ResourceStatus) :=
  match n with
  | O => mret (regulars, status)
  | S n' =>
      '(regulars, status, curFailures) ← applyRegulars rs i regulars status 0%nat;
      if (curFailures =? 0)%nat || (curFailures =? prevFailures)%nat
      then mret (regulars, status)
      else retryLoop n' rs (S i) regulars status curFailures
  end.

Definition waitForCRDs (crds : list Unstructured) : M (option error) :=
  wait_PollImmediate (2 * time_Second) (2 * time_Minute) (crdsAvailable crds).

Definition applyAll (rs : option ResourceSet) (opts : ApplyOptions)
    (resources : list Unstructured)
  : M (Applied * option error) :=
  let status := initStatus resources in
  let regulars := filter resources (fun r => negb (isCustomResourceDefinition r)) in
  let crds := filter resources isCustomResourceDefinition in
  '(crds, status) ← installCRDs rs crds status;
  err ← waitForCRDs crds;
  match err with
  | Some e =>
      mret ({| appliedStatus := status; appliedCRDs := crds; appliedRegulars := regulars |},
            Some (errors_Wrap e "wait for CRDs"))
  | None =>
      '(regulars, status) ← retryLoop 10 rs 0 regulars status 0%nat;
      mret ({| appliedStatus := status; appliedCRDs := crds; appliedRegulars := regulars |},
            None)
  end.

Definition createResourceSet (rs : ResourceSet) : M (ResourceSet * option error) :=
  let rs :=
    {| rsKind := "ResourceSet"; rsAPIVersion := "apps.cloudrobotics.com/v1alpha1";
       rsName := rsName rs; rsUID := rsUID rs; rsLabels := rsLabels rs;
       rsSpecResources := rsSpecResources rs; rsStatusPhase := rsStatusPhase rs;
       rsStatusStartedAt := rsStatusStartedAt rs |} in
  res ← call (client_CreateResourceSet K rs);
  match res with
  | inr err => mret (rs, Some err)
  | inl rs' => mret (rs', None)
  end.

Definition next (name : string) : M (Z * option error) :=
  listed ← call (client_List K resourceSetGVR);
  match listed with
  | inr err => mret (0, Some (errors_Wrap err "list existing ResourceSets"))
  | inl items =>
      version ← lift (nextVersion name items);
      mret (version, None)
  end.

(** [initialize]: the options with the version filled in, then the three
    results of the source. *)
Definition initialize (opts : ApplyOptions) (resources : list Unstructured)
  : M (ApplyOptions * option ResourceSet * list Unstructured * option error) :=
  let resources := filter resources (fun r => negb (isZeroUnstructured r)) in
  let resources := sortResources resources in
  '(version, err) ← next (optName opts);
  let opts := {| optName := optName opts; optVersion := version |} in
  match err with
  | Some e => mret (opts, None, [], Some (errors_Wrap e "get next ResourceSet version"))
  | None =>
      let groups :=
        map (fun '(gvk, res) =>
               {| specGroup := gvkGroup gvk; specVersion := gvkVersion gvk;
                  specKind := gvkKind gvk; specItems := res |})
            (groupResources resources) in
      let groups :=
        sort_Slice (fun a b => String.ltb (specGroupKey a) (specGroupKey b)) groups in
      now ← call (metav1_Now K);
      let rs :=
        {| rsKind := ""; rsAPIVersion := "";
           rsName := resourceSetName (optName opts) (optVersion opts);
           rsUID := ""; rsLabels := [("name", optName opts)];
           rsSpecResources := groups;
           rsStatusPhase := ResourceSetPhasePending;
           rsStatusStartedAt := now |} in
      '(rs, err) ← createResourceSet rs;
      match err with
      | Some e =>
          mret (opts, None, [], Some (errors_Wrapf e "create resources object " (ArgQ (rsName rs))))
      | None =>
          '(resources, err) ← lift (attachOwners rs resources);
          match err with
          | Some e => mret (opts, None, [], Some e)
          | None => mret (opts, Some rs, resources, None)
          end
      end
  end.

(** [Apply]; the context argument is not used by the source. *)
Definition Apply (name : string) (opts : option ApplyOptions) (resources : list Unstructured)
  : M (option ResourceSet * option error) :=
  let opts := match opts with
              | None => {| optName := ""; optVersion := 0 |}
              | Some o => o
              end in
  let opts := {| optName := name; optVersion := optVersion opts |} in
  '(opts, rs, resources, err) ← initialize opts resources;
  match err with
  | Some e => mret (rs, Some e)
  | None =>
      '(_, err) ← applyAll rs opts resources;
      mret (rs, err)
  end.

End Synk.

Arguments errorString K err : clear implicits.

(** ** The specification's vocabulary *)

Fixpoint allChars (p : ascii -> bool) (s : string) : bool :=
  match s with
  | EmptyString => true
  | String c s' => p c && allChars p s'
  end.

(** A base name: a string of the class [[a-z0-9]+]. *)
Definition validBaseName (b : string) : Prop :=
  b <> "" /\ allChars isLowerAlnum b = true.

(** [s] matches [^([a-z0-9]+)\.v([0-9]+)$] with groups [b] and [d]. *)
Definition MatchesNamePat (s b d : string) : Prop :=
  s = b +:+ ".v" +:+ d /\ validBaseName b /\ d <> "" /\ allChars isDigit d = true.

(** The number a run of decimal digits denotes. *)
Fixpoint decimalValueFrom (acc : Z) (d : string) : Z :=
  match d with
  | EmptyString => acc
  | String c d' => decimalValueFrom (10 * acc + (Z.of_nat (nat_of_ascii c) - 48)) d'
  end.

Definition decimalValue (d : string) : Z := decimalValueFrom 0 d.

(** The record named [s] decodes to base name [b] and version [v]. *)
Definition DecodesTo (s b : string) (v : Z) : Prop :=
  exists d, MatchesNamePat s b d /\ v = decimalValue d.

(** A listing every name of which [decodeResourceSetName] can decode and
    whose versions for [name] leave room for one more in [int32]. *)
Definition listingInRange (name : string) (items : list Unstructured) : Prop :=
  forall r b v, In r items -> DecodesTo (GetName r) b v ->
    v <= maxInt64 /\ (b = name -> v < maxInt32).

(** [v] is [max(version) + 1] over the records of [items] that decode to
    [name], or 1 if none does. *)
Definition isNextVersionOf (name : string) (items : list Unstructured) (v : Z) : Prop :=
  ((forall r u, In r items -> ~ DecodesTo (GetName r) name u) /\ v = 1) \/
  ((exists r, In r items /\ DecodesTo (GetName r) name (v - 1)) /\
   (forall r u, In r items -> DecodesTo (GetName r) name u -> u <= v - 1)).

(** A stored ResourceSet as the listing shows it. *)
Definition listedResourceSet (name : string) : Unstructured :=
  {| GetAPIVersion := "apps.cloudrobotics.com/v1alpha1"; GetKind := "ResourceSet";
     GetNamespace := ""; GetName := name; GetResourceVersion := "";
     GetOwnerReferences := []; asCRD := inr (errors_New "not a CustomResourceDefinition");
     content := "" |}.

(** The owner reference to the batch [rs]. *)
Definition ownerReferenceTo (rs : ResourceSet) : OwnerReference :=
  {| orAPIVersion := "apps.cloudrobotics.com/v1alpha1"; orKind := "Resources";
     orName := rsName rs; orUID := rsUID rs;
     orController := None; orBlockOwnerDeletion := Some true |}.

(** The entries into [applyOne] that a trace records. *)
Fixpoint attempts (evs : list Event) : list (Unstructured * bool) :=
  match evs with
  | [] => []
  | EvApply r replace :: evs' => (r, replace) :: attempts evs'
  | EvCall _ _ :: evs' => attempts evs'
  end.

Definition isMutation (c : Call) : bool :=
  match c with
  | CallCreate _ _ | CallUpdate _ _ | CallDelete _ _ => true
  | _ => false
  end.

Definition isDelete (c : Call) : bool :=
  match c with
  | CallDelete _ _ => true
  | _ => false
  end.

(** The resource an event concerns. *)
Definition eventResource (ev : Event) : Unstructured :=
  match ev with
  | EvApply r _ => r
  | EvCall r _ => r
  end.

(** A status entry as [applyAll] initialises it. *)
Definition freshStatus (st : ResourceStatus) : Prop :=
  stAction st = ResourceActionNone /\ stError st = "".

(** The last recorded status of [r] carries a non-empty error. *)
Definition failing (status : gmap string ResourceStatus) (r : Unstructured) : bool :=
  match status !! resourceKey r with
  | Some st => negb (String.eqb (stError st) "")
  | None => false
  end.

Definition failureCount (status : gmap string ResourceStatus) (regulars : list Unstructured)
  : nat :=
  length (List.filter (failing status) regulars).

(** The resources pass [i] is to attempt. *)
Definition dueInPass (i : nat) (status : gmap string ResourceStatus)
    (regulars : list Unstructured) : list Unstructured :=
  List.filter (fun r => (i =? 0)%nat || failing status r) regulars.

Section Specification.
Context {K : Env}.

Definition storeFor (mapping : meta_RESTMapping) (resource : Unstructured)
  : ResourceInterface :=
  {| riResource := mappingResource mapping;
     riNamespace := if mappingScopeIsRoot mapping then None
                    else Some (GetNamespace resource) |}.

(** The name is set, the type resolves to [client], and the fetch of the
    existing object answers [got]; [c2] is the cluster after the two calls
    [calls]. *)
Definition Fetched (resource : Unstructured) (c0 : cluster K)
    (client : ResourceInterface) (got : Unstructured + error) (c2 : cluster K)
    (calls : list Call) : Prop :=
  exists mapping c1,
    let gvk := GroupVersionKind_of resource in
    GetName resource <> "" /\
    mapper_RESTMapping K (gvkGroup gvk) (gvkKind gvk) (gvkVersion gvk) c0
      = (inl mapping, c1) /\
    client = storeFor mapping resource /\
    client_Get K client (GetName resource) c1 = (got, c2) /\
    calls = [CallRESTMapping (gvkGroup gvk) (gvkKind gvk) (gvkVersion gvk);
             CallGet client (GetName resource)].

Definition wrapped (res : Unstructured + error) (msg : string) : option error :=
  match res with
  | inl _ => None
  | inr e => Some (errors_Wrap e msg)
  end.

(** The decision procedure for one resource, case by case: from cluster
    [c0], the resource as left, the action, the error, the cluster after
    and the calls issued. *)
Inductive applyOneSpec (resource : Unstructured) (replaceAllowed : bool) (c0 : cluster K)
  : Unstructured -> ResourceAction -> option error -> cluster K -> list Call -> Prop :=
| spec_missing_name :
    GetName resource = "" ->
    applyOneSpec resource replaceAllowed c0
      resource ResourceActionNone (Some (errors_New "missing resource name")) c0 []
| spec_mapping_fails e c1 :
    let gvk := GroupVersionKind_of resource in
    GetName resource <> "" ->
    mapper_RESTMapping K (gvkGroup gvk) (gvkKind gvk) (gvkVersion gvk) c0 = (inr e, c1) ->
    applyOneSpec resource replaceAllowed c0
      resource ResourceActionNone (Some (errors_Wrap e "get REST mapping")) c1
      [CallRESTMapping (gvkGroup gvk) (gvkKind gvk) (gvkVersion gvk)]
| spec_create client e c2 calls res c3 :
    Fetched resource c0 client (inr e) c2 calls ->
    IsNotFound (Some e) = true ->
    client_Create K client resource c2 = (res, c3) ->
    applyOneSpec resource replaceAllowed c0
      resource ResourceActionCreate (wrapped res "create resource") c3
      (calls ++ [CallCreate client resource])
| spec_get_fails client e c2 calls :
    Fetched resource c0 client (inr e) c2 calls ->
    IsNotFound (Some e) = false ->
    applyOneSpec resource replaceAllowed c0
      resource ResourceActionNone (Some (errors_Wrap e "get resource")) c2 calls
| spec_update client prev c2 calls updated c3 :
    let desired := SetResourceVersion (GetResourceVersion prev) resource in
    Fetched resource c0 client (inl prev) c2 calls ->
    client_Update K client desired c2 = (inl updated, c3) ->
    applyOneSpec resource replaceAllowed c0
      desired ResourceActionUpdate None c3 (calls ++ [CallUpdate client desired])
| spec_update_fails client prev c2 calls e c3 :
    let desired := SetResourceVersion (GetResourceVersion prev) resource in
    Fetched resource c0 client (inl prev) c2 calls ->
    client_Update K client desired c2 = (inr e, c3) ->
    replaceAllowed = false ->
    applyOneSpec resource replaceAllowed c0
      desired ResourceActionUpdate (Some (errors_Wrap e "update resource")) c3
      (calls ++ [CallUpdate client desired])
| spec_delete_fails client prev c2 calls e c3 e' c4 :
    let desired := SetResourceVersion (GetResourceVersion prev) resource in
    Fetched resource c0 client (inl prev) c2 calls ->
    client_Update K client desired c2 = (inr e, c3) ->
    replaceAllowed = true ->
    client_Delete K client (GetName prev) c3 = (Some e', c4) ->
    applyOneSpec resource replaceAllowed c0
      desired ResourceActionReplace (Some (errors_Wrap e' "delete resource")) c4
      (calls ++ [CallUpdate client desired; CallDelete client (GetName prev)])
| spec_replace client prev c2 calls e c3 c4 res c5 :
    let desired := SetResourceVersion (GetResourceVersion prev) resource in
    let fresh := SetResourceVersion "" desired in
    Fetched resource c0 client (inl prev) c2 calls ->
    client_Update K client desired c2 = (inr e, c3) ->
    replaceAllowed = true ->
    client_Delete K client (GetName prev) c3 = (None, c4) ->
    client_Create K client fresh c4 = (res, c5) ->
    applyOneSpec resource replaceAllowed c0
      fresh ResourceActionReplace (wrapped res "create resource") c5
      (calls ++ [CallUpdate client desired; CallDelete client (GetName prev);
                 CallCreate client fresh]).

(** A configuration of the retry loop: the regular resources, the status
    map and the world. *)
Definition Config : Type :=
  (list Unstructured * gmap string ResourceStatus * World K)%type.

(** One pass [i] from configuration [c] to [c']: it attempts, with replace
    allowed and in order, exactly the resources due, and leaves
    [failures] resources with a non-empty error. *)
Inductive Pass (rs : option ResourceSet) (i : nat) : Config -> Config -> nat -> Prop :=
| Pass_intro regulars status w regulars' status' w' evs :
    applyRegulars rs i regulars status 0%nat w
      = (Returns (regulars', status', failureCount status' regulars'), w') ->
    events w' = events w ++ evs ->
    attempts evs = map (fun r => (r, true)) (dueInPass i status regulars) ->
    map resourceKey regulars' = map resourceKey regulars ->
    Pass rs i (regulars, status, w) (regulars', status', w')
      (failureCount status' regulars').

(** The passes from pass [i] on, [prev] being the failure count after the
    pass before ([0] before the first): the run stops after the first pass
    that leaves no failure or as many as the pass before, and after pass 9
    at the latest.  The last index counts the passes run. *)
Inductive Converges (rs : option ResourceSet) : nat -> nat -> Config -> Config -> nat -> Prop :=
| Converges_stop i prev c c' failures :
    (i < 10)%nat ->
    Pass rs i c c' failures ->
    failures = 0%nat \/ failures = prev \/ i = 9%nat ->
    Converges rs i prev c c' 1
| Converges_retry i prev c c' failures c'' passes :
    (i < 9)%nat ->
    Pass rs i c c' failures ->
    failures <> 0%nat -> failures <> prev ->
    Converges rs (S i) failures c' c'' passes ->
    Converges rs i prev c c'' (S passes).

End Specification.

(** ** A small cluster for examples *)

Record FakeCluster : Type := {
  fakeObjects : list Unstructured;
  fakeSetNames : list string;
  fakeServed : list string;
  fakeListFails : bool;
  fakeRejectsUpdates : bool
}.

Definition fakeWith (objects : list Unstructured) (sets : list string) (c : FakeCluster)
  : FakeCluster :=
  {| fakeObjects := objects; fakeSetNames := sets; fakeServed := fakeServed c;
     fakeListFails := fakeListFails c; fakeRejectsUpdates := fakeRejectsUpdates c |}.

Definition hasName (name : string) (o : Unstructured) : bool := String.eqb (GetName o) name.

Definition fakeNotFound : error := StatusError "NotFound" "not found".

Definition fakeQuote (s : string) : string :=
  String (ascii_of_nat 34) (s +:+ String (ascii_of_nat 34) EmptyString).

(** Objects live in one flat name space; the mapper knows every kind but
    [Unknown]; updates are accepted unless the cluster rejects them all;
    discovery lists the plurals in [fakeServed]; the poll timer fires
    timeout/interval times. *)
Definition fakeEnv : Env :=
  {| cluster := FakeCluster;
     mapper_RESTMapping := fun group kind version c =>
       if String.eqb kind "Unknown" then (inr (errors_New "no matches for kind"), c)
       else (inl {| mappingResource :=
                      {| gvrGroup := group; gvrVersion := version; gvrResource := kind |};
                    mappingScopeIsRoot := false |}, c);
     client_Get := fun _ name c =>
       match find (hasName name) (fakeObjects c) with
       | Some o => (inl o, c)
       | None => (inr fakeNotFound, c)
       end;
     client_Create := fun _ obj c =>
       match find (hasName (GetName obj)) (fakeObjects c) with
       | Some _ => (inr (StatusError "AlreadyExists" "already exists"), c)
       | None =>
           let stored := SetResourceVersion "1" obj in
           (inl stored, fakeWith (stored :: fakeObjects c) (fakeSetNames c) c)
       end;
     client_Update := fun _ obj c =>
       if fakeRejectsUpdates c then (inr (StatusError "Invalid" "field is immutable"), c)
       else
         let stored := SetResourceVersion (GetResourceVersion obj +:+ "1") obj in
         (inl stored,
          fakeWith (stored :: List.filter (fun o => negb (hasName (GetName obj) o)) (fakeObjects c))
                   (fakeSetNames c) c);
     client_Delete := fun _ name c =>
       match find (hasName name) (fakeObjects c) with
       | Some _ =>
           (None, fakeWith (List.filter (fun o => negb (hasName name o)) (fakeObjects c))
                           (fakeSetNames c) c)
       | None => (Some fakeNotFound, c)
       end;
     client_List := fun _ c =>
       if fakeListFails c then (inr (StatusError "ServiceUnavailable" "unavailable"), c)
       else (inl (map listedResourceSet (fakeSetNames c)), c);
     client_CreateResourceSet := fun rs c =>
       (inl {| rsKind := rsKind rs; rsAPIVersion := rsAPIVersion rs; rsName := rsName rs;
               rsUID := "uid-" +:+ rsName rs; rsLabels := rsLabels rs;
               rsSpecResources := rsSpecResources rs; rsStatusPhase := rsStatusPhase rs;
               rsStatusStartedAt := rsStatusStartedAt rs |},
        fakeWith (fakeObjects c) (fakeSetNames c ++ [rsName rs]) c);
     discovery_Invalidate := fun c => c;
     discovery_ServerResourcesForGroupVersion := fun _ c =>
       (inl (map (fun p => {| apiResourceName := p |}) (fakeServed c)), c);
     metav1_Now := fun c => (0, c);
     wait_ticks := fun interval timeout _ => Z.to_nat (timeout / interval);
     strconv_Quote := fakeQuote |}.

Definition emptyCluster : FakeCluster :=
  {| fakeObjects := []; fakeSetNames := []; fakeServed := [];
     fakeListFails := false; fakeRejectsUpdates := false |}.

Definition fakeWorld (c : FakeCluster) : World fakeEnv := Build_World fakeEnv c [].

Definition configMap (name : string) (owners : list OwnerReference) : Unstructured :=
  {| GetAPIVersion := "v1"; GetKind := "ConfigMap"; GetNamespace := "default";
     GetName := name; GetResourceVersion := ""; GetOwnerReferences := owners;
     asCRD := inr (errors_New "not a CustomResourceDefinition"); content := "data" |}.

Definition robotCRD : Unstructured :=
  {| GetAPIVersion := "apiextensions.k8s.io/v1beta1"; GetKind := "CustomResourceDefinition";
     GetNamespace := ""; GetName := "robots.example.com"; GetResourceVersion := "";
     GetOwnerReferences := [];
     asCRD := inl {| crdSpecGroup := "example.com"; crdSpecVersion := "v1";
                     crdSpecNamesPlural := "robots" |};
     content := "spec" |}.

Definition resourcesOwner (name : string) : OwnerReference :=
  {| orAPIVersion := "apps.cloudrobotics.com/v1alpha1"; orKind := "Resources";
     orName := name; orUID := "uid-" +:+ name;
     orController := None; orBlockOwnerDeletion := Some true |}.

Definition noOptions : ApplyOptions := {| optName := ""; optVersion := 0 |}.

(** A cluster that serves the robots type and rejects every update. *)
Definition strictCluster (objects : list Unstructured) : FakeCluster :=
  {| fakeObjects := objects; fakeSetNames := []; fakeServed := ["robots"];
     fakeListFails := false; fakeRejectsUpdates := true |}.

(** A cluster with the given ResourceSets on record. *)
Definition clusterWithSets (sets : list string) : FakeCluster :=
  {| fakeObjects := []; fakeSetNames := sets; fakeServed := [];
     fakeListFails := false; fakeRejectsUpdates := false |}.

Definition failingListCluster : FakeCluster :=
  {| fakeObjects := []; fakeSetNames := []; fakeServed := [];
     fakeListFails := true; fakeRejectsUpdates := false |}.

(** The discovery of the world never lists a plural. *)
Definition servesNothing (w : World fakeEnv) : Prop := fakeServed (σ w) = [].

Definition batchRecord (name : string) : ResourceSet :=
  {| rsKind := "ResourceSet"; rsAPIVersion := "apps.cloudrobotics.com/v1alpha1";
     rsName := name; rsUID := "uid-" +:+ name; rsLabels := [];
     rsSpecResources := []; rsStatusPhase := ResourceSetPhasePending;
     rsStatusStartedAt := 0 |}.

(** ** Vocabulary of the further properties *)

(** [a] may stand before [b] in a slice sorted by [less]. *)
Definition ordered {A : Type} (less : A -> A -> bool) (a b : A) : Prop := less b a = false.

(** The comparison [sortResources] sorts by. *)
Definition keyLess (a b : Unstructured) : bool := String.ltb (resourceKey a) (resourceKey b).

Definition noSlash (s : string) : Prop := countSlash s = 0%nat.

(** The reference [initialize] records for a resource. *)
Definition refOf (r : Unstructured) : ResourceRef :=
  {| refNamespace := GetNamespace r; refName := GetName r |}.

(** The references grouped under [gvk], none if the key is absent. *)
Definition groupItems (gvk : GroupVersionKind)
    (m : list (GroupVersionKind * list ResourceRef)) : list ResourceRef :=
  match find (fun e => GroupVersionKind_eqb (fst e) gvk) m with
  | Some e => snd e
  | None => []
  end.

(** [r'] is [r] as [initialize] hands it on under the batch [rs]: a CRD
    untouched, any other resource owned by the batch alone. *)
Definition linkedTo (rs : ResourceSet) (r r' : Unstructured) : Prop :=
  if isCustomResourceDefinition r then r' = r
  else r' = SetOwnerReferences [ownerReferenceTo rs] r.

(** The CRD converts, and in some state of the cluster discovery answers
    for its group and version with a list that holds its plural. *)
Definition servedIn (K : Env) (crd : Unstructured) : Prop :=
  exists spec,
    asCRD crd = inl spec /\
    exists c l c',
      discovery_ServerResourcesForGroupVersion K
        (crdSpecGroup spec +:+ "/" +:+ crdSpecVersion spec) c = (inl l, c') /\
      existsb (fun r => String.eqb (apiResourceName r) (crdSpecNamesPlural spec)) l = true.

(** The status entry [st] is that of resource [r]. *)
Definition statusOf (r : Unstructured) (st : ResourceStatus) : Prop :=
  stNamespace st = GetNamespace r /\ stName st = GetName r.

(** [status'] has the keys of [status], each entry for the same namespace
    and name. *)
Definition sameSubjects (status status' : gmap string ResourceStatus) : Prop :=
  forall k st', status' !! k = Some st' ->
    exists st, status !! k = Some st /\
               stNamespace st' = stNamespace st /\ stName st' = stName st.

(** The entry records a resource that has no name. *)
Definition missingNameStatus (st : ResourceStatus) : Prop :=
  stAction st = ResourceActionNone /\ stError st = "missing resource name".

(** [r] is a record of the batch [name]: its name decodes to that base
    name. *)
Definition decodesToName (name : string) (r : Unstructured) : bool :=
  match decodeResourceSetName (GetName r) with
  | Returns (n, _, true) => String.eqb n name
  | _ => false
  end.

(** ** Resources that share a key *)

Definition configMapIn (namespace name : string) : Unstructured :=
  {| GetAPIVersion := "v1"; GetKind := "ConfigMap"; GetNamespace := namespace;
     GetName := name; GetResourceVersion := ""; GetOwnerReferences := [];
     asCRD := inr (errors_New "not a CustomResourceDefinition"); content := "data" |}.

(** A ConfigMap without a name in the namespace x/y, and the ConfigMap y/
    of the namespace x: both have the key /v1/ConfigMap/x/y/. *)
Definition namelessMap : Unstructured := configMapIn "x/y" "".
Definition slashMap : Unstructured := configMapIn "x" "y/".

(** The CRD robots/x, and the resource x of another kind in the namespace
    robots: both have the key
    apiextensions.k8s.io/v1beta1/CustomResourceDefinition//robots/x. *)
Definition slashCRD : Unstructured :=
  {| GetAPIVersion := "apiextensions.k8s.io/v1beta1"; GetKind := "CustomResourceDefinition";
     GetNamespace := ""; GetName := "robots/x"; GetResourceVersion := "";
     GetOwnerReferences := [];
     asCRD := inl {| crdSpecGroup := "example.com"; crdSpecVersion := "v1";
                     crdSpecNamesPlural := "robots" |};
     content := "spec" |}.

Definition shadowOfCRD : Unstructured :=
  {| GetAPIVersion := "apiextensions.k8s.io/v1beta1"; GetKind := "CustomResourceDefinition/";
     GetNamespace := "robots"; GetName := "x"; GetResourceVersion := "";
     GetOwnerReferences := [];
     asCRD := inr (errors_New "not a CustomResourceDefinition"); content := "data" |}.

(** ** The store of batch records *)

(** The client a call addresses, if any. *)
Definition callClient (c : Call) : option ResourceInterface :=
  match c with
  | CallRESTMapping _ _ _ => None
  | CallGet client _ | CallCreate client _ | CallUpdate client _ | CallDelete client _ =>
      Some client
  end.

(** The event is no call on the collection of the batch records. *)
Definition sparesRecords (ev : Event) : Prop :=
  match ev with
  | EvApply _ _ => True
  | EvCall _ c =>
      match callClient c with
      | Some client => riResource client <> resourceSetGVR
      | None => True
      end
  end.

(** What successive reconciliations rely on in the store, with no other
    caller at work.  [holds c names]: in the cluster state [c] the
    collection of batch records holds the records of these names.  Listing
    the collection shows them; the creation of a record adds it under the
    name asked for; and no call on the mapper, on another collection, on
    discovery or on the clock changes the collection. *)
Record RecordStore (K : Env) (holds : cluster K -> list string -> Prop) : Prop := {
  store_List : forall c names res c',
    holds c names -> client_List K resourceSetGVR c = (res, c') ->
    holds c' names /\ forall items, res = inl items -> map GetName items = names;
  store_CreateResourceSet : forall c names rs rs' c',
    holds c names -> client_CreateResourceSet K rs c = (inl rs', c') ->
    holds c' (names ++ [rsName rs]) /\ rsName rs' = rsName rs;
  store_RESTMapping : forall c names group kind version res c',
    holds c names -> mapper_RESTMapping K group kind version c = (res, c') -> holds c' names;
  store_Get : forall c names client name res c',
    riResource client <> resourceSetGVR ->
    holds c names -> client_Get K client name c = (res, c') -> holds c' names;
  store_Create : forall c names client obj res c',
    riResource client <> resourceSetGVR ->
    holds c names -> client_Create K client obj c = (res, c') -> holds c' names;
  store_Update : forall c names client obj res c',
    riResource client <> resourceSetGVR ->
    holds c names -> client_Update K client obj c = (res, c') -> holds c' names;
  store_Delete : forall c names client name res c',
    riResource client <> resourceSetGVR ->
    holds c names -> client_Delete K client name c = (res, c') -> holds c' names;
  store_Invalidate : forall c names,
    holds c names -> holds (discovery_Invalidate K c) names;
  store_ServerResources : forall c names groupVersion res c',
    holds c names ->
    discovery_ServerResourcesForGroupVersion K groupVersion c = (res, c') -> holds c' names;
  store_Now : forall c names now c',
    holds c names -> metav1_Now K c = (now, c') -> holds c' names
}.

(** The step from [w] to [w'] extends the trace, and keeps the batch
    records if no call of the trace is made on their collection. *)
Definition keepsRecords {K : Env} (holds : cluster K -> list string -> Prop)
    (names : list string) (w w' : World K) : Prop :=
  (exists evs, events w' = events w ++ evs) /\
  (Forall sparesRecords (events w') -> holds (σ w) names -> holds (σ w') names).

(** Successive reconciliations under [name], each returning its record:
    from the world [w], calls of [Apply] one after the other return the
    records [rss] and leave the world [w']. *)
Inductive Reconciled {K : Env} (name : string)
  : World K -> list ResourceSet -> World K -> Prop :=
| Reconciled_nil w : Reconciled name w [] w
| Reconciled_cons w opts resources rs err w1 rss w2 :
    Apply name opts resources w = (Returns (Some rs, err), w1) ->
    Reconciled name w1 rss w2 ->
    Reconciled name w (rs :: rss) w2.

(** The versions [first], ..., [first + n - 1] as names of records. *)
Definition versionNames (name : string) (first : Z) (n : nat) : list string :=
  map (fun j => resourceSetName name (first + Z.of_nat j)) (seq 0 n).

(** The fake cluster holds the batch records it lists. *)
Definition fakeHolds (c : cluster fakeEnv) (names : list string) : Prop :=
  fakeSetNames c = names.

(** ** The wait for the CRDs *)

(** The worlds that polls answering "not yet" lead to from [w]. *)
Inductive Polled {K : Env} (crds : list Unstructured) : World K -> World K -> Prop :=
| Polled_first w : Polled crds w w
| Polled_again w w1 w2 :
    crdsAvailable crds w = (Returns (false, None), w1) ->
    Polled crds w1 w2 ->
    Polled crds w w2.

(** The CRD converts, and in the cluster state [c], its cache invalidated,
    discovery answers for the group and version of the CRD with a list that
    holds its plural. *)
Definition listedAt (K : Env) (crd : Unstructured) (c : cluster K) : Prop :=
  exists spec l c',
    asCRD crd = inl spec /\
    discovery_ServerResourcesForGroupVersion K
      (crdSpecGroup spec +:+ "/" +:+ crdSpecVersion spec) (discovery_Invalidate K c)
    = (inl l, c') /\
    existsb (fun r => String.eqb (apiResourceName r) (crdSpecNamesPlural spec)) l = true.

(** * Properties *)

(** ** Strings, digits and the name pattern *)

Section Strings.

Lemma append_cons (c : ascii) (a b : string) : String c a +:+ b = String c (a +:+ b).
Proof. reflexivity. Qed.

Lemma append_empty_l (b : string) : "" +:+ b = b.
Proof. reflexivity. Qed.

Lemma append_nil_r (s : string) : s +:+ "" = s.
Proof. induction s as [|c s IH]; [reflexivity | rewrite append_cons; f_equal; exact IH]. Qed.

Lemma append_assoc (a b c : string) : (a +:+ b) +:+ c = a +:+ (b +:+ c).
Proof.
  induction a as [|x a IH]; [reflexivity | rewrite !append_cons; f_equal; exact IH].
Qed.

Lemma append_inv_head (a b c : string) : a +:+ b = a +:+ c -> b = c.
Proof.
  induction a as [|x a IH]; intros H; [exact H |].
  rewrite !append_cons in H. injection H. exact IH.
Qed.

Lemma spanClass_spec (p : ascii -> bool) (s a r : string) :
  spanClass p s = (a, r) ->
  s = a +:+ r /\ allChars p a = true /\
  (r = "" \/ exists c r', r = String c r' /\ p c = false).
Proof.
  revert a r. induction s as [|c s IH]; simpl; intros a r H.
  - injection H as <- <-. auto.
  - destruct (p c) eqn:Hc.
    + destruct (spanClass p s) as [a' r'] eqn:Hs. injection H as <- <-.
      destruct (IH _ _ eq_refl) as (-> & Ha & Hr).
      rewrite append_cons. simpl. rewrite Hc, Ha. auto.
    + injection H as <- <-. split; [reflexivity|]. split; [reflexivity|].
      right. eauto.
Qed.

Lemma spanClass_app (p : ascii -> bool) (a r : string) :
  allChars p a = true ->
  (r = "" \/ exists c r', r = String c r' /\ p c = false) ->
  spanClass p (a +:+ r) = (a, r).
Proof.
  intros Ha Hr. induction a as [|c a IH]; simpl in Ha.
  - rewrite append_empty_l.
    destruct Hr as [-> | (c & r' & -> & Hc)]; simpl; [reflexivity | now rewrite Hc].
  - apply andb_true_iff in Ha as [Hc Ha]. rewrite append_cons. simpl.
    rewrite Hc, (IH Ha). reflexivity.
Qed.

Lemma isDigit_cases (c : ascii) :
  isDigit c = true ->
  In c ["0"; "1"; "2"; "3"; "4"; "5"; "6"; "7"; "8"; "9"]%char.
Proof.
  destruct c as [[|] [|] [|] [|] [|] [|] [|] [|]]; vm_compute; intros H;
    try discriminate H; tauto.
Qed.

Lemma digits_uint (d : string) :
  allChars isDigit d = true ->
  exists u, NilEmpty.uint_of_string d = Some u /\ NilEmpty.string_of_uint u = d.
Proof.
  induction d as [|c d IH]; simpl; intros H.
  - exists Nil. auto.
  - apply andb_true_iff in H as [Hc Hd]. destruct (IH Hd) as (u & Hu & Hs).
    rewrite Hu. apply isDigit_cases in Hc. simpl in Hc.
    repeat (destruct Hc as [<- | Hc]; [eexists; split; [reflexivity | simpl; now rewrite Hs] |]).
    contradiction.
Qed.

Lemma string_of_uint_digits (u : uint) :
  allChars isDigit (NilEmpty.string_of_uint u) = true.
Proof. induction u; simpl; auto. Qed.

Lemma of_uint_acc_value (u : uint) (acc : positive) :
  Z.pos (Pos.of_uint_acc u acc)
  = decimalValueFrom (Z.pos acc) (NilEmpty.string_of_uint u).
Proof.
  revert acc. induction u; intros acc; simpl Pos.of_uint_acc; simpl NilEmpty.string_of_uint;
    cbn [decimalValueFrom]; try reflexivity; rewrite IHu; f_equal;
    change (Z.of_nat (nat_of_ascii _) - 48) with 0 + 0 || idtac; vm_compute nat_of_ascii; lia.
Qed.

Lemma of_uint_value (u : uint) :
  Z.of_uint u = decimalValue (NilEmpty.string_of_uint u).
Proof.
  unfold Z.of_uint, decimalValue.
  induction u; simpl Pos.of_uint; simpl NilEmpty.string_of_uint; cbn [decimalValueFrom];
    try reflexivity; try exact IHu;
    change (Z.of_N (N.pos ?p)) with (Z.pos p); rewrite of_uint_acc_value; reflexivity.
Qed.

Lemma decimalValueFrom_nonneg (d : string) (acc : Z) :
  allChars isDigit d = true -> 0 <= acc -> 0 <= decimalValueFrom acc d.
Proof.
  revert acc. induction d as [|c d IH]; simpl; intros acc H Hacc; [exact Hacc|].
  apply andb_true_iff in H as [Hc Hd]. apply IH; [exact Hd|].
  unfold isDigit in Hc. apply andb_true_iff in Hc as [Hlo _].
  apply Nat.leb_le in Hlo. lia.
Qed.

Lemma parseDigits_value (d : string) :
  d <> "" -> allChars isDigit d = true -> parseDigits d = Some (decimalValue d).
Proof.
  intros Hne Hd. destruct (digits_uint d Hd) as (u & Hu & Hs).
  unfold parseDigits, NilZero.uint_of_string.
  destruct d as [|c d]; [congruence|].
  rewrite Hu, of_uint_value, Hs. reflexivity.
Qed.

Lemma strconv_Atoi_digits (d : string) :
  d <> "" -> allChars isDigit d = true ->
  strconv_Atoi d =
    if maxInt64 <? decimalValue d
    then (maxInt64, Some (NumError "Atoi" d "value out of range"))
    else (decimalValue d, None).
Proof.
  intros Hne Hd. unfold strconv_Atoi.
  assert (Hsign : match d with
                  | String "-" s' => option_map Z.opp (parseDigits s')
                  | String "+" s' => parseDigits s'
                  | _ => parseDigits d
                  end = parseDigits d).
  { destruct d as [|c d]; [reflexivity|]. simpl in Hd.
    apply andb_true_iff in Hd as [Hc _]. apply isDigit_cases in Hc. simpl in Hc.
    repeat (destruct Hc as [<- | Hc]; [reflexivity|]). contradiction. }
  rewrite Hsign, (parseDigits_value d Hne Hd).
  destruct (maxInt64 <? decimalValue d); [reflexivity|].
  pose proof (decimalValueFrom_nonneg d 0 Hd ltac:(lia)) as Hpos.
  fold (decimalValue d) in Hpos.
  destruct (decimalValue d <? minInt64) eqn:Hlt; [|reflexivity].
  apply Z.ltb_lt in Hlt. unfold minInt64 in Hlt. lia.
Qed.

Lemma lowerAlnum_not_dot (c : ascii) : isLowerAlnum c = true -> c <> "."%char.
Proof. intros H ->. vm_compute in H. discriminate. Qed.

Lemma find_matches (s b d : string) :
  MatchesNamePat s b d -> namePat_FindStringSubmatch s = [s; b; d].
Proof.
  intros (-> & [Hb Hbc] & Hd & Hdc). unfold namePat_FindStringSubmatch.
  rewrite (spanClass_app isLowerAlnum b (".v" +:+ d) Hbc).
  2:{ right. exists "."%char, ("v" +:+ d). split; reflexivity. }
  destruct b as [|c b]; [congruence|].
  change (".v" +:+ d) with (String "." (String "v" d)). cbv iota beta.
  replace d with (d +:+ "") at 1 by apply append_nil_r.
  rewrite (spanClass_app isDigit d "" Hdc) by (left; reflexivity).
  destruct d as [|x d]; [congruence | reflexivity].
Qed.

Lemma find_sound (s : string) :
  namePat_FindStringSubmatch s = [] \/
  exists b d, namePat_FindStringSubmatch s = [s; b; d] /\ MatchesNamePat s b d.
Proof.
  unfold namePat_FindStringSubmatch.
  destruct (spanClass isLowerAlnum s) as [b rest] eqn:Hspan.
  apply spanClass_spec in Hspan as (Hs & Hb & _).
  destruct b as [|c b]; [now left|].
  destruct rest as [|x rest]; [now left|].
  destruct (ascii_dec x ".") as [-> | Hx].
  2:{ left. destruct x as [[|] [|] [|] [|] [|] [|] [|] [|]]; try reflexivity.
      now contradiction Hx. }
  destruct rest as [|y ds]; [now left|].
  destruct (ascii_dec y "v") as [-> | Hy].
  2:{ left. destruct y as [[|] [|] [|] [|] [|] [|] [|] [|]]; try reflexivity.
      now contradiction Hy. }
  cbv iota beta.
  destruct (spanClass isDigit ds) as [d tl] eqn:Hd.
  apply spanClass_spec in Hd as (Hds & Hdc & _).
  destruct d as [|z d]; [now left|].
  destruct tl as [|t tl]; [|now left].
  right. exists (String c b), (String z d). split; [reflexivity|].
  rewrite append_nil_r in Hds. subst ds.
  repeat split; try assumption; try discriminate.
Qed.

Lemma find_no_match (s : string) :
  (forall b d, ~ MatchesNamePat s b d) -> namePat_FindStringSubmatch s = [].
Proof.
  intros H. destruct (find_sound s) as [E | (b & d & _ & Hm)]; [exact E|].
  now contradiction (H b d).
Qed.

Lemma MatchesNamePat_functional (s b d b' d' : string) :
  MatchesNamePat s b d -> MatchesNamePat s b' d' -> b = b' /\ d = d'.
Proof.
  intros H H'. pose proof (find_matches _ _ _ H) as E.
  rewrite (find_matches _ _ _ H') in E. injection E; auto.
Qed.

(** What [decodeResourceSetName] does, by the three cases of its input. *)
Lemma decode_no_match (s : string) :
  (forall b d, ~ MatchesNamePat s b d) ->
  decodeResourceSetName s = Returns ("", 0, false).
Proof.
  intros H. unfold decodeResourceSetName. now rewrite (find_no_match s H).
Qed.

Lemma decode_match (s b d : string) :
  MatchesNamePat s b d -> decimalValue d <= maxInt64 ->
  decodeResourceSetName s = Returns (b, int32 (decimalValue d), true).
Proof.
  intros Hm Hle. unfold decodeResourceSetName. rewrite (find_matches _ _ _ Hm).
  destruct Hm as (_ & _ & Hd & Hdc). cbn [length Nat.eqb nth].
  rewrite (strconv_Atoi_digits d Hd Hdc).
  destruct (maxInt64 <? decimalValue d) eqn:E; [apply Z.ltb_lt in E; lia | reflexivity].
Qed.

Lemma decode_match_out_of_range (s b d : string) :
  MatchesNamePat s b d -> maxInt64 < decimalValue d ->
  decodeResourceSetName s = Panics (NumError "Atoi" d "value out of range").
Proof.
  intros Hm Hlt. unfold decodeResourceSetName. rewrite (find_matches _ _ _ Hm).
  destruct Hm as (_ & _ & Hd & Hdc). cbn [length Nat.eqb nth].
  rewrite (strconv_Atoi_digits d Hd Hdc).
  apply Z.ltb_lt in Hlt. now rewrite Hlt.
Qed.

Lemma int32_small (z : Z) : - 2 ^ 31 <= z <= maxInt32 -> int32 z = z.
Proof.
  unfold int32, maxInt32. intros H.
  rewrite Z.mod_small; lia.
Qed.

Lemma fmt_d_nonneg (v : Z) :
  0 <= v ->
  fmt_d v <> "" /\ allChars isDigit (fmt_d v) = true /\ decimalValue (fmt_d v) = v.
Proof.
  intros Hv. unfold fmt_d.
  assert (Hpos : exists u, Z.to_int v = Pos u /\ u <> Nil /\ Z.of_uint u = v).
  { pose proof (DecimalZ.of_to v) as Hof.
    destruct v as [|p|p]; [| |lia]; simpl in *.
    - exists (D0 Nil). repeat split; discriminate.
    - exists (Pos.to_uint p). split; [reflexivity|]. split; [|exact Hof].
      intros E. unfold Z.of_uint in Hof. rewrite E in Hof. discriminate. }
  destruct Hpos as (u & -> & Hne & Hval). simpl.
  assert (Hs : NilZero.string_of_uint u = NilEmpty.string_of_uint u)
    by (destruct u; [congruence | reflexivity ..]).
  rewrite Hs. split; [|split].
  - destruct u; simpl; congruence.
  - apply string_of_uint_digits.
  - now rewrite <- of_uint_value.
Qed.

Lemma resourceSetName_matches (b : string) (v : Z) :
  validBaseName b -> 0 <= v -> MatchesNamePat (resourceSetName b v) b (fmt_d v).
Proof.
  intros Hb Hv. destruct (fmt_d_nonneg v Hv) as (Hne & Hd & _).
  unfold MatchesNamePat, resourceSetName. auto.
Qed.

Lemma decode_resourceSetName (b : string) (v : Z) :
  validBaseName b -> 0 <= v <= maxInt32 ->
  decodeResourceSetName (resourceSetName b v) = Returns (b, v, true).
Proof.
  intros Hb Hv. destruct (fmt_d_nonneg v ltac:(lia)) as (_ & _ & Hval).
  rewrite (decode_match _ b (fmt_d v)).
  - rewrite Hval, int32_small; [reflexivity | lia].
  - apply resourceSetName_matches; [exact Hb | lia].
  - rewrite Hval. unfold maxInt64, maxInt32 in *. lia.
Qed.

End Strings.

(** ** Versions *)

Section Versions.

Lemma decimalValue_nonneg (d : string) : allChars isDigit d = true -> 0 <= decimalValue d.
Proof. intros H. apply decimalValueFrom_nonneg; [exact H | lia]. Qed.

Lemma DecodesTo_nonneg (s b : string) (v : Z) : DecodesTo s b v -> 0 <= v.
Proof.
  intros (d & (_ & _ & _ & Hd) & ->). now apply decimalValue_nonneg.
Qed.

Lemma DecodesTo_functional (s b b' : string) (v v' : Z) :
  DecodesTo s b v -> DecodesTo s b' v' -> b = b' /\ v = v'.
Proof.
  intros (d & Hm & ->) (d' & Hm' & ->).
  destruct (MatchesNamePat_functional _ _ _ _ _ Hm Hm') as [-> ->]. auto.
Qed.

(** One name of the listing, as the loop of [next] sees it. *)
Lemma decode_listed (name : string) (r : Unstructured) :
  (forall b v, DecodesTo (GetName r) b v -> v <= maxInt64 /\ (b = name -> v < maxInt32)) ->
  (exists n v, decodeResourceSetName (GetName r) = Returns (n, v, false)
               /\ forall b u, ~ DecodesTo (GetName r) b u) \/
  (exists b v, decodeResourceSetName (GetName r) = Returns (b, int32 v, true)
               /\ DecodesTo (GetName r) b v).
Proof.
  intros Hrange. destruct (find_sound (GetName r)) as [E | (b & d & _ & Hm)].
  - left. exists "", 0. split.
    + unfold decodeResourceSetName. now rewrite E.
    + intros b u (d & Hm & _). apply find_matches in Hm. congruence.
  - right. exists b, (decimalValue d).
    assert (Hdec : DecodesTo (GetName r) b (decimalValue d)) by (exists d; auto).
    split; [|exact Hdec].
    apply decode_match; [exact Hm | apply (Hrange _ _ Hdec)].
Qed.

Lemma listingInRange_cons (name : string) (r : Unstructured) (items : list Unstructured) :
  listingInRange name (r :: items) ->
  (forall b v, DecodesTo (GetName r) b v -> v <= maxInt64 /\ (b = name -> v < maxInt32))
  /\ listingInRange name items.
Proof.
  intros H. split.
  - intros b v. apply H. now left.
  - intros r' b v Hin. apply H. now right.
Qed.

(** The loop of [next] computes the maximum of the current version and
    the versions recorded for [name]. *)
Lemma scanVersions_max (name : string) (items : list Unstructured) (cur : Z) :
  listingInRange name items -> 0 <= cur < maxInt32 ->
  exists m,
    scanVersions name items cur = Returns m /\ cur <= m < maxInt32 /\
    (((forall r u, In r items -> ~ DecodesTo (GetName r) name u) /\ m = cur) \/
     (exists r u, In r items /\ DecodesTo (GetName r) name u /\ m = Z.max cur u /\
                  forall r' u', In r' items -> DecodesTo (GetName r') name u' -> u' <= u)).
Proof.
  revert cur. induction items as [|r items IH]; intros cur Hrange Hcur.
  - exists cur. split; [reflexivity|]. split; [lia|]. left. split; [|reflexivity].
    intros r u [].
  - apply listingInRange_cons in Hrange as [Hr Hrest].
    cbn [scanVersions].
    destruct (decode_listed name r Hr) as [(n & v & -> & Hno) | (b & v & -> & Hdec)].
    + cbn. destruct (IH cur Hrest Hcur) as (m & -> & Hm & Hcase).
      exists m. split; [reflexivity|]. split; [exact Hm|].
      destruct Hcase as [[Hnone ->] | (r0 & u & Hin & Hd & -> & Hmax)].
      * left. split; [|reflexivity]. intros r' u [<- | Hin]; [apply Hno | now apply Hnone].
      * right. exists r0, u. repeat split; auto.
        intros r' u' [<- | Hin'] Hd'; [now contradiction (Hno _ _ Hd') | eauto].
    + cbn. destruct (String.eqb_spec b name) as [-> | Hne].
      * destruct (Hr _ _ Hdec) as [_ Hlt]. specialize (Hlt eq_refl).
        pose proof (DecodesTo_nonneg _ _ _ Hdec) as Hv0.
        rewrite int32_small by (unfold maxInt32 in *; lia).
        cbn.
        assert (Hnext : exists cur', (if cur <? v then scanVersions name items v
                                      else scanVersions name items cur)
                                     = scanVersions name items cur'
                                     /\ cur' = Z.max cur v).
        { destruct (Z.ltb_spec cur v); eexists; split; try reflexivity; lia. }
        destruct Hnext as (cur' & -> & Hcur').
        destruct (IH cur' Hrest ltac:(lia)) as (m & -> & Hm & Hcase).
        exists m. split; [reflexivity|]. split; [lia|]. right.
        destruct Hcase as [[Hnone ->] | (r0 & u & Hin & Hd & -> & Hmax)].
        -- exists r, v. split; [now left|]. split; [exact Hdec|]. split; [exact Hcur'|].
           intros r' u' [<- | Hin'] Hd'.
           ++ destruct (DecodesTo_functional _ _ _ _ _ Hdec Hd'). lia.
           ++ now contradiction (Hnone _ _ Hin' Hd').
        -- destruct (Z.le_gt_cases u v) as [Hle | Hgt].
           ++ exists r, v. split; [now left|]. split; [exact Hdec|]. split; [lia|].
              intros r' u' [<- | Hin'] Hd'.
              ** destruct (DecodesTo_functional _ _ _ _ _ Hdec Hd'). lia.
              ** specialize (Hmax _ _ Hin' Hd'). lia.
           ++ exists r0, u. split; [now right|]. split; [exact Hd|]. split; [lia|].
              intros r' u' [<- | Hin'] Hd'.
              ** destruct (DecodesTo_functional _ _ _ _ _ Hdec Hd'). lia.
              ** eauto.
      * cbn. destruct (IH cur Hrest Hcur) as (m & -> & Hm & Hcase).
        exists m. split; [reflexivity|]. split; [exact Hm|].
        assert (Hnot : forall u, ~ DecodesTo (GetName r) name u).
        { intros u Hd. destruct (DecodesTo_functional _ _ _ _ _ Hdec Hd). congruence. }
        destruct Hcase as [[Hnone ->] | (r0 & u & Hin & Hd & -> & Hmax)].
        -- left. split; [|reflexivity].
           intros r' u [<- | Hin]; [apply Hnot | now apply Hnone].
        -- right. exists r0, u. repeat split; auto.
           intros r' u' [<- | Hin'] Hd'; [now contradiction (Hnot _ Hd') | eauto].
Qed.

Lemma nextVersion_spec (name : string) (items : list Unstructured) :
  listingInRange name items ->
  exists v, nextVersion name items = Returns v /\ isNextVersionOf name items v.
Proof.
  intros Hrange. unfold nextVersion.
  destruct (scanVersions_max name items 0 Hrange ltac:(unfold maxInt32; lia))
    as (m & -> & Hm & Hcase).
  exists (m + 1). split.
  - cbn. rewrite int32_small by (unfold maxInt32 in *; lia). reflexivity.
  - destruct Hcase as [[Hnone ->] | (r & u & Hin & Hd & -> & Hmax)].
    + left. auto.
    + right. pose proof (DecodesTo_nonneg _ _ _ Hd) as Hu.
      replace (Z.max 0 u + 1 - 1) with u by lia. eauto.
Qed.

Lemma scanVersions_app (name : string) (items more : list Unstructured) (cur : Z) :
  scanVersions name (items ++ more) cur
  = Outcome_bind (scanVersions name items cur) (scanVersions name more).
Proof.
  revert cur. induction items as [|r items IH]; intros cur; [reflexivity|].
  cbn [app scanVersions].
  destruct (decodeResourceSetName (GetName r)) as [[[n v] ok]|e]; cbn; [|reflexivity].
  destruct (negb ok || negb (n =? name)%string); [apply IH|].
  destruct (cur <? v); apply IH.
Qed.

End Versions.

(** ** One resource *)

Section ApplyOne.
Context {K : Env}.

Lemma run_bind {A B : Type} (m : M A) (k : A -> M B) (w w' : World K) (a : A) :
  m w = (Returns a, w') -> (m ≫= k) w = k a w'.
Proof. intros H. unfold mbind, M_mbind. now rewrite H. Qed.

Lemma run_callFor {A : Type} (owner : Unstructured) (c : Call)
    (f : cluster K -> A * cluster K) (w : World K) :
  callFor owner c f w
  = (Returns (fst (f (σ w))),
     {| σ := snd (f (σ w)); events := events w ++ [EvCall owner c] |}).
Proof.
  unfold callFor, call, trace, mbind, M_mbind. cbn. now destruct (f (σ w)).
Qed.

Lemma applyOne_meets_spec (rs : option ResourceSet) (resource : Unstructured)
    (replace : bool) (w : World K) :
  exists r' action err c' calls,
    applyOne rs resource replace w
    = (Returns (r', action, err),
       {| σ := c';
          events := events w ++ EvApply resource replace :: map (EvCall resource) calls |})
    /\ applyOneSpec resource replace (σ w) r' action err c' calls.
Proof.
  unfold applyOne.
  rewrite (run_bind _ _ w {| σ := σ w; events := events w ++ [EvApply resource replace] |} tt)
    by reflexivity.
  destruct (String.eqb_spec (GetName resource) "") as [Hname | Hname].
  { exists resource, ResourceActionNone, (Some (errors_New "missing resource name")), (σ w), [].
    split; [reflexivity | now constructor]. }
  set (gvk := GroupVersionKind_of resource).
  erewrite run_bind by apply run_callFor. cbn [σ events].
  destruct (mapper_RESTMapping K (gvkGroup gvk) (gvkKind gvk) (gvkVersion gvk) (σ w))
    as [[mapping | e] c1] eqn:Hmap; cbn [fst snd].
  2:{ do 4 eexists. exists [CallRESTMapping (gvkGroup gvk) (gvkKind gvk) (gvkVersion gvk)].
      split; [unfold mret, M_mret; rewrite <- app_assoc; reflexivity|].
      now apply spec_mapping_fails. }
  replace (if mappingScopeIsRoot mapping
           then {| riResource := mappingResource mapping; riNamespace := None |}
           else {| riResource := mappingResource mapping;
                   riNamespace := Some (GetNamespace resource) |})
    with (storeFor mapping resource)
    by (unfold storeFor; now destruct (mappingScopeIsRoot mapping)).
  set (client := storeFor mapping resource).
  erewrite run_bind by apply run_callFor. cbn [σ events].
  destruct (client_Get K client (GetName resource) c1) as [[prev | e] c2] eqn:Hget;
    cbn [fst snd].
  2:{ assert (Hfetched : Fetched resource (σ w) client (inr e) c2
                           [CallRESTMapping (gvkGroup gvk) (gvkKind gvk) (gvkVersion gvk);
                            CallGet client (GetName resource)])
        by (exists mapping, c1; repeat split; auto).
      destruct (IsNotFound (Some e)) eqn:Hnf.
      - erewrite run_bind by apply run_callFor. cbn [σ events].
        destruct (client_Create K client resource c2) as [res c3] eqn:Hcreate; cbn [fst snd].
        exists resource, ResourceActionCreate, (wrapped res "create resource"), c3.
        eexists. split; [|eapply spec_create; eauto].
        rewrite <- !app_assoc. now destruct res.
      - do 4 eexists. eexists. split; [|eapply spec_get_fails; eauto].
        unfold mret, M_mret. rewrite <- !app_assoc. reflexivity. }
  assert (Hfetched : Fetched resource (σ w) client (inl prev) c2
                       [CallRESTMapping (gvkGroup gvk) (gvkKind gvk) (gvkVersion gvk);
                        CallGet client (GetName resource)])
    by (exists mapping, c1; repeat split; auto).
  set (desired := SetResourceVersion (GetResourceVersion prev) resource).
  erewrite run_bind by apply run_callFor. cbn [σ events].
  destruct (client_Update K client desired c2) as [[updated | e] c3] eqn:Hupdate;
    cbn [fst snd].
  { do 4 eexists. eexists. split; [|eapply spec_update; eauto].
    unfold mret, M_mret. rewrite <- !app_assoc. reflexivity. }
  destruct replace; cbn [negb].
  2:{ do 4 eexists. eexists. split; [|eapply spec_update_fails; eauto].
      unfold mret, M_mret. rewrite <- !app_assoc. reflexivity. }
  erewrite run_bind by apply run_callFor. cbn [σ events].
  destruct (client_Delete K client (GetName prev) c3) as [[e' |] c4] eqn:Hdelete;
    cbn [fst snd].
  { do 4 eexists. eexists. split; [|eapply spec_delete_fails; eauto].
    unfold mret, M_mret. rewrite <- !app_assoc. reflexivity. }
  erewrite run_bind by apply run_callFor. cbn [σ events].
  destruct (client_Create K client (SetResourceVersion "" desired) c4) as [res c5] eqn:Hcreate;
    cbn [fst snd].
  exists (SetResourceVersion "" desired), ResourceActionReplace,
    (wrapped res "create resource"), c5.
  eexists. split; [|eapply spec_replace; eauto].
  rewrite <- !app_assoc. now destruct res.
Qed.

Lemma Fetched_calls (resource : Unstructured) (c0 c2 : cluster K)
    (client : ResourceInterface) (got : Unstructured + error) (calls : list Call) :
  Fetched resource c0 client got c2 calls -> Forall (fun c => isMutation c = false) calls.
Proof.
  intros (mapping & c1 & _ & _ & _ & _ & ->). repeat constructor.
Qed.

Lemma append_nonempty (a b : string) : a <> "" -> a +:+ b <> "".
Proof. destruct a; [congruence | rewrite append_cons; discriminate]. Qed.

(** The resource is left with at most its resource version changed. *)
Lemma applyOneSpec_resource resource replace (c0 : cluster K) r' action err c' calls :
  applyOneSpec resource replace c0 r' action err c' calls ->
  exists version, r' = resource \/ r' = SetResourceVersion version resource.
Proof.
  intros H. destruct H; try (exists ""; now left);
    try (eexists; right; reflexivity).
Qed.

(** An error of [applyOne] never renders as the empty string. *)
Lemma applyOneSpec_error resource replace (c0 : cluster K) r' action err c' calls quote :
  applyOneSpec resource replace c0 r' action err c' calls ->
  forall e, err = Some e -> Error quote e <> "".
Proof.
  intros H e He. destruct H; try discriminate He;
    try (injection He as <-; cbn [Error]; apply append_nonempty; discriminate);
    try (injection He as <-; discriminate);
    destruct res; try discriminate He;
    injection He as <-; cbn [Error]; apply append_nonempty; discriminate.
Qed.

(** With replace disabled the action is never Replace and nothing is
    deleted; none of the calls is a delete unless the action is Replace. *)
Lemma applyOneSpec_no_replace resource (c0 : cluster K) r' action err c' calls :
  applyOneSpec resource false c0 r' action err c' calls ->
  action <> ResourceActionReplace /\ Forall (fun c => isDelete c = false) calls.
Proof.
  intros H. inversion H; subst; try discriminate; (split; [discriminate|]);
    repeat match goal with
           | Hf : Fetched _ _ _ _ _ _ |- _ =>
               destruct Hf as (? & ? & _ & _ & _ & _ & ->)
           end;
    repeat constructor.
Qed.

Lemma resourceKey_SetResourceVersion (version : string) (r : Unstructured) :
  resourceKey (SetResourceVersion version r) = resourceKey r.
Proof. reflexivity. Qed.

Lemma isCRD_SetResourceVersion (version : string) (r : Unstructured) :
  isCustomResourceDefinition (SetResourceVersion version r) = isCustomResourceDefinition r.
Proof. reflexivity. Qed.

(** [applyOne] as the loops use it: it always returns; it leaves the
    identity of the resource alone; the trace grows by the entry and the
    calls for this resource. *)
Lemma applyOne_runs (rs : option ResourceSet) (resource : Unstructured)
    (replace : bool) (w : World K) :
  exists r' action err w' calls,
    applyOne rs resource replace w = (Returns (r', action, err), w') /\
    events w' = events w ++ EvApply resource replace :: map (EvCall resource) calls /\
    resourceKey r' = resourceKey resource /\
    isCustomResourceDefinition r' = isCustomResourceDefinition resource /\
    (err = None <-> errorString K err = "") /\
    (replace = false ->
     action <> ResourceActionReplace /\ Forall (fun c => isDelete c = false) calls).
Proof.
  destruct (applyOne_meets_spec rs resource replace w)
    as (r' & action & err & c' & calls & Hrun & Hspec).
  exists r', action, err. eexists. exists calls.
  split; [exact Hrun|]. split; [reflexivity|].
  destruct (applyOneSpec_resource _ _ _ _ _ _ _ _ Hspec) as (version & [-> | ->]).
  all: split; [reflexivity|]; split; [reflexivity|]; split.
  all: try (intros ->; now apply applyOneSpec_no_replace in Hspec).
  all: destruct err as [e|]; cbn [errorString]; split; try congruence; intros He;
    now contradiction (applyOneSpec_error _ _ _ _ _ _ _ _ (strconv_Quote K) Hspec e eq_refl).
Qed.

End ApplyOne.

(** ** The CRD phase and the gate *)

Section Loops.
Context {K : Env}.

Lemma attempts_app (a b : list Event) : attempts (a ++ b) = attempts a ++ attempts b.
Proof.
  induction a as [|[r replace | r c] a IH]; cbn; [reflexivity | now rewrite IH | exact IH].
Qed.

Lemma attempts_calls (r : Unstructured) (calls : list Call) :
  attempts (map (EvCall r) calls) = [].
Proof. induction calls; cbn; auto. Qed.

Lemma attempts_applyOne (r : Unstructured) (replace : bool) (calls : list Call) :
  attempts (EvApply r replace :: map (EvCall r) calls) = [(r, replace)].
Proof. cbn. now rewrite attempts_calls. Qed.

Lemma run_deref (st : ResourceStatus) (w : World K) :
  deref (Some st) w = (Returns st, w).
Proof. reflexivity. Qed.

Lemma installCRDs_runs (rs : option ResourceSet) (crds : list Unstructured)
    (status : gmap string ResourceStatus) (w : World K) :
  (forall r, In r crds -> is_Some (status !! resourceKey r)) ->
  exists crds' status' w' evs,
    installCRDs rs crds status w = (Returns (crds', status'), w') /\
    events w' = events w ++ evs /\
    attempts evs = map (fun r => (r, false)) crds /\
    Forall (fun ev => In (eventResource ev) crds) evs /\
    (forall r c, In (EvCall r c) evs -> isDelete c = false) /\
    (forall k, is_Some (status !! k) -> is_Some (status' !! k)) /\
    (forall k st, status' !! k = Some st ->
                  status !! k = Some st \/ stAction st <> ResourceActionReplace).
Proof.
  revert status w. induction crds as [|crd crds IH]; intros status w Hkeys.
  - exists [], status, w, []. cbn. rewrite app_nil_r.
    repeat split; auto. intros r c [].
  - cbn [installCRDs].
    destruct (applyOne_runs rs crd false w)
      as (crd' & action & err & w1 & calls & Hrun & Hev & _ & _ & _ & Hno).
    destruct (Hno eq_refl) as [Haction Hdel].
    destruct (Hkeys crd (or_introl eq_refl)) as [st Hst].
    rewrite (run_bind _ _ _ _ _ Hrun). cbn beta iota zeta. rewrite Hst.
    rewrite (run_bind _ _ _ _ _ (run_deref st w1)).
    set (status1 := <[resourceKey crd := setResult st action (errorString K err)]> status).
    destruct (IH status1 w1) as (crds' & status' & w' & evs & Hrest & Hev' & Hatt & Hown & Hnodel & Hdom & Hact).
    { intros r Hin. unfold status1. apply lookup_insert_is_Some'. right. apply Hkeys. now right. }
    rewrite (run_bind _ _ _ _ _ Hrest).
    exists (crd' :: crds'), status', w', (EvApply crd false :: map (EvCall crd) calls ++ evs).
    split; [reflexivity|]. split.
    { rewrite Hev', Hev, <- app_assoc. reflexivity. }
    split.
    { change (EvApply crd false :: map (EvCall crd) calls ++ evs)
        with ((EvApply crd false :: map (EvCall crd) calls) ++ evs).
      rewrite attempts_app, attempts_applyOne, Hatt. reflexivity. }
    split.
    { constructor; [now left|]. apply List.Forall_app. split.
      - apply List.Forall_forall. intros ev Hin. apply in_map_iff in Hin as (c & <- & _). now left.
      - eapply List.Forall_impl; [|exact Hown]. intros ev Hin. now right. }
    split.
    { intros r c [Heq | Hin]; [discriminate|].
      apply in_app_or in Hin as [Hin | Hin]; [|eauto].
      apply in_map_iff in Hin as (c0 & Heq & Hin0). injection Heq as _ <-.
      rewrite List.Forall_forall in Hdel. auto. }
    split.
    { intros k Hk. apply Hdom. unfold status1. apply lookup_insert_is_Some'. now right. }
    intros k st' Hk. destruct (Hact k st' Hk) as [Hold | Hnew]; [|now right].
    unfold status1 in Hold. rewrite lookup_insert in Hold.
    destruct (decide (resourceKey crd = k)); [|now left].
    injection Hold as <-. right. exact Haction.
Qed.

Lemma crdAvailable_events (crd : Unstructured) (w : World K) :
  events (snd (crdAvailable crd w)) = events w.
Proof.
  unfold crdAvailable, call, mbind, M_mbind, mret, M_mret. cbn.
  destruct (asCRD crd); [|reflexivity].
  destruct (discovery_ServerResourcesForGroupVersion K _ _) as [[l | e] c']; reflexivity.
Qed.

Lemma crdsAvailable_events (crds : list Unstructured) (w : World K) :
  events (snd (crdsAvailable crds w)) = events w.
Proof.
  revert w. induction crds as [|crd crds IH]; intros w; [reflexivity|].
  cbn [crdsAvailable]. unfold mbind, M_mbind.
  pose proof (crdAvailable_events crd w) as Hev.
  destruct (crdAvailable crd w) as [[[ok err] | e] w1]; cbn in Hev |- *; [|exact Hev].
  destruct (negb ok || match err with Some _ => true | None => false end);
    [exact Hev | now rewrite IH].
Qed.

Lemma wait_WaitFor_events (ticks : nat) (condition : M (bool * option error)) (w : World K) :
  (forall w0, events (snd (condition w0)) = events w0) ->
  events (snd (wait_WaitFor ticks condition w)) = events w.
Proof.
  intros Hcond. revert w. induction ticks as [|ticks IH]; intros w; [reflexivity|].
  cbn [wait_WaitFor]. unfold mbind, M_mbind.
  pose proof (Hcond w) as Hev.
  destruct (condition w) as [[[ok err] | e] w1]; cbn in Hev |- *; [|exact Hev].
  destruct err; [exact Hev|]. destruct ok; [exact Hev | now rewrite IH].
Qed.

(** The gate makes no call on the object store: the trace stays as it is. *)
Lemma waitForCRDs_events (crds : list Unstructured) (w : World K) :
  events (snd (waitForCRDs crds w)) = events w.
Proof.
  unfold waitForCRDs, wait_PollImmediate, mbind, M_mbind.
  pose proof (crdsAvailable_events crds w) as Hev.
  destruct (crdsAvailable crds w) as [[[ok err] | e] w1]; cbn in Hev |- *; [|exact Hev].
  destruct err; [exact Hev|]. destruct ok; [exact Hev|].
  unfold timerTicks.
  rewrite wait_WaitFor_events; [exact Hev | apply crdsAvailable_events].
Qed.

(** ** The retry loop *)

Lemma failing_insert_other (status : gmap string ResourceStatus) (k : string)
    (st : ResourceStatus) (r : Unstructured) :
  resourceKey r <> k -> failing (<[k := st]> status) r = failing status r.
Proof. intros Hne. unfold failing. now rewrite lookup_insert_ne. Qed.

Lemma dueInPass_insert_other (i : nat) (status : gmap string ResourceStatus) (k : string)
    (st : ResourceStatus) (l : list Unstructured) :
  ~ In k (map resourceKey l) ->
  dueInPass i (<[k := st]> status) l = dueInPass i status l.
Proof.
  intros Hk. unfold dueInPass. apply filter_ext_in. intros r Hin.
  rewrite failing_insert_other; [reflexivity|].
  intros <-. apply Hk. now apply in_map.
Qed.

Lemma failureCount_cons (status : gmap string ResourceStatus) (r : Unstructured)
    (l : list Unstructured) :
  failureCount status (r :: l)
  = ((if failing status r then 1 else 0) + failureCount status l)%nat.
Proof. unfold failureCount. cbn. now destruct (failing status r). Qed.

Lemma failing_same_key (status status' : gmap string ResourceStatus) (r r' : Unstructured) :
  resourceKey r' = resourceKey r -> status' !! resourceKey r = status !! resourceKey r ->
  failing status' r' = failing status r.
Proof. intros Hk Hs. unfold failing. now rewrite Hk, Hs. Qed.

(** One pass over the regular resources. *)
Lemma applyRegulars_runs (rs : option ResourceSet) (i : nat) (regulars : list Unstructured)
    (status : gmap string ResourceStatus) (cur : nat) (w : World K) :
  (forall r, In r regulars -> is_Some (status !! resourceKey r)) ->
  exists regulars' status' cur' w' evs,
    applyRegulars rs i regulars status cur w = (Returns (regulars', status', cur'), w') /\
    events w' = events w ++ evs /\
    Forall (fun ev => In (eventResource ev) regulars) evs /\
    map resourceKey regulars' = map resourceKey regulars /\
    map isCustomResourceDefinition regulars' = map isCustomResourceDefinition regulars /\
    (forall k, is_Some (status !! k) -> is_Some (status' !! k)) /\
    (forall k, ~ In k (map resourceKey regulars) -> status' !! k = status !! k) /\
    (List.NoDup (map resourceKey regulars) ->
     attempts evs = map (fun r => (r, true)) (dueInPass i status regulars) /\
     cur' = (cur + failureCount status' regulars')%nat).
Proof.
  revert status cur w. induction regulars as [|r rest IH]; intros status cur w Hkeys.
  - exists [], status, cur, w, []. cbn. rewrite app_nil_r.
    repeat split; auto; try (unfold failureCount; cbn; lia).
  - cbn [applyRegulars]. cbn zeta.
    destruct (Hkeys r (or_introl eq_refl)) as [st Hst]. rewrite Hst.
    assert (Hskip : exists skip,
               (if (0 <? i)%nat
                then deref (Some st) ≫= (fun s => mret (String.eqb (stError s) ""))
                else mret false) w = (Returns skip, w)
               /\ skip = negb ((i =? 0)%nat || failing status r)).
    { unfold failing. rewrite Hst. destruct i as [|i]; cbn.
      - exists false. auto.
      - exists (String.eqb (stError st) "").
        split; [reflexivity | now rewrite ?negb_involutive]. }
    destruct Hskip as (skip & Hrun_skip & Hskip).
    rewrite (run_bind _ _ _ _ _ Hrun_skip).
    destruct skip.
    + (* the resource is skipped *)
      destruct (IH status cur w) as (rest' & status' & cur' & w' & evs & Hrun & Hev & Hown & Hk & Hc & Hdom & Hframe & Hnodup).
      { intros r0 Hin. apply Hkeys. now right. }
      rewrite (run_bind _ _ _ _ _ Hrun).
      exists (r :: rest'), status', cur', w', evs.
      split; [reflexivity|]. split; [exact Hev|]. split.
      { eapply List.Forall_impl; [|exact Hown]. intros ev Hin. now right. }
      split; [cbn; now rewrite Hk|]. split; [cbn; now rewrite Hc|].
      split; [exact Hdom|]. split.
      { intros k Hk'. apply Hframe. intros Hin. apply Hk'. now right. }
      intros Hnd. cbn [map] in Hnd. apply List.NoDup_cons_iff in Hnd as [Hfresh Hnd].
      destruct (Hnodup Hnd) as [Hatt Hcount]. split.
      * unfold dueInPass in *. cbn [List.filter].
        destruct ((i =? 0)%nat || failing status r); [discriminate Hskip | exact Hatt].
      * rewrite failureCount_cons.
        rewrite (failing_same_key status status' r r eq_refl (Hframe _ Hfresh)).
        destruct ((i =? 0)%nat || failing status r) eqn:E; [discriminate Hskip|].
        apply orb_false_iff in E as [_ ->]. lia.
    + (* the resource is attempted *)
      destruct (applyOne_runs rs r true w)
        as (r' & action & err & w1 & calls & Hone & Hev1 & Hkey & Hcrd & Herr & _).
      rewrite (run_bind _ _ _ _ _ Hone). cbn beta iota.
      rewrite (run_bind _ _ _ _ _ (run_deref st w1)).
      set (cur1 := match err with Some _ => S cur | None => cur end).
      set (status1 := <[resourceKey r := setResult st action (errorString K err)]> status).
      destruct (IH status1 cur1 w1) as (rest' & status' & cur' & w' & evs & Hrun & Hev & Hown & Hk & Hc & Hdom & Hframe & Hnodup).
      { intros r0 Hin. unfold status1. apply lookup_insert_is_Some'. right.
        apply Hkeys. now right. }
      rewrite (run_bind _ _ _ _ _ Hrun).
      exists (r' :: rest'), status', cur', w',
        ((EvApply r true :: map (EvCall r) calls) ++ evs).
      split; [reflexivity|]. split.
      { rewrite Hev, Hev1, <- app_assoc. reflexivity. }
      split.
      { apply List.Forall_app. split.
        - constructor; [now left|]. apply List.Forall_forall. intros ev Hin.
          apply in_map_iff in Hin as (c & <- & _). now left.
        - eapply List.Forall_impl; [|exact Hown]. intros ev Hin. now right. }
      split; [cbn; now rewrite Hk, Hkey|]. split; [cbn; now rewrite Hc, Hcrd|].
      split.
      { intros k Hk'. apply Hdom. unfold status1. apply lookup_insert_is_Some'. now right. }
      split.
      { intros k Hk'. rewrite Hframe by (intros Hin; apply Hk'; now right).
        unfold status1. apply lookup_insert_ne. intros <-. apply Hk'. now left. }
      intros Hnd. cbn [map] in Hnd. apply List.NoDup_cons_iff in Hnd as [Hfresh Hnd].
      destruct (Hnodup Hnd) as [Hatt Hcount]. split.
      * rewrite attempts_app, attempts_applyOne, Hatt.
        unfold status1. rewrite (dueInPass_insert_other i status _ _ rest Hfresh).
        unfold dueInPass. cbn [List.filter].
        destruct ((i =? 0)%nat || failing status r); [reflexivity | discriminate Hskip].
      * rewrite failureCount_cons, Hcount.
        assert (Hfail : failing status' r' = match err with Some _ => true | None => false end).
        { unfold failing. rewrite Hkey, (Hframe _ Hfresh). unfold status1.
          rewrite lookup_insert_eq. cbn [stError setResult].
          destruct err as [e|].
          - destruct (String.eqb_spec (errorString K (Some e)) "") as [E|]; [|reflexivity].
            apply Herr in E. discriminate.
          - reflexivity. }
        rewrite Hfail. unfold cur1. destruct err; lia.
Qed.

Lemma keysPresent_after (status status' : gmap string ResourceStatus)
    (regulars regulars' : list Unstructured) :
  (forall r, In r regulars -> is_Some (status !! resourceKey r)) ->
  (forall k, is_Some (status !! k) -> is_Some (status' !! k)) ->
  map resourceKey regulars' = map resourceKey regulars ->
  forall r, In r regulars' -> is_Some (status' !! resourceKey r).
Proof.
  intros Hkeys Hdom Hmap r Hin. apply Hdom.
  apply (in_map resourceKey) in Hin. rewrite Hmap in Hin.
  apply in_map_iff in Hin as (r0 & <- & Hin0). now apply Hkeys.
Qed.

(** The retry loop meets the specification of its passes. *)
Lemma retryLoop_converges (rs : option ResourceSet) (n : nat) :
  forall (i : nat) (regulars : list Unstructured) (status : gmap string ResourceStatus)
         (prev : nat) (w : World K),
    (i + n = 10)%nat -> (1 <= n)%nat ->
    List.NoDup (map resourceKey regulars) ->
    (forall r, In r regulars -> is_Some (status !! resourceKey r)) ->
    exists regulars' status' w' passes,
      retryLoop n rs i regulars status prev w = (Returns (regulars', status'), w') /\
      Converges rs i prev (regulars, status, w) (regulars', status', w') passes /\
      (1 <= passes <= n)%nat.
Proof.
  induction n as [|n IH]; intros i regulars status prev w Hi Hn Hnd Hkeys; [lia|].
  cbn [retryLoop].
  destruct (applyRegulars_runs rs i regulars status 0 w Hkeys)
    as (regulars1 & status1 & cur & w1 & evs & Hrun & Hev & _ & Hk & _ & Hdom & _ & Hnodup).
  destruct (Hnodup Hnd) as [Hatt Hcur]. cbn in Hcur. subst cur.
  set (failures := failureCount status1 regulars1) in *.
  assert (Hpass : Pass rs i (regulars, status, w) (regulars1, status1, w1) failures)
    by (eapply Pass_intro; eauto).
  rewrite (run_bind _ _ _ _ _ Hrun). cbn beta iota.
  destruct ((failures =? 0)%nat || (failures =? prev)%nat) eqn:Hstop.
  - exists regulars1, status1, w1, 1%nat. split; [reflexivity|]. split; [|lia].
    eapply Converges_stop; [lia | exact Hpass |].
    apply orb_true_iff in Hstop as [H | H]; apply Nat.eqb_eq in H; auto.
  - apply orb_false_iff in Hstop as [H0 Hprev].
    apply Nat.eqb_neq in H0. apply Nat.eqb_neq in Hprev.
    destruct n as [|n].
    + exists regulars1, status1, w1, 1%nat. split; [reflexivity|]. split; [|lia].
      eapply Converges_stop; [lia | exact Hpass |]. right. right. lia.
    + destruct (IH (S i) regulars1 status1 failures w1)
        as (regulars' & status' & w' & passes & Hloop & Hconv & Hpasses);
        [lia | lia | now rewrite Hk | now apply (keysPresent_after status _ regulars) |].
      exists regulars', status', w', (S passes). split; [exact Hloop|]. split; [|lia].
      eapply Converges_retry; eauto. lia.
Qed.

Lemma Forall_same_map {A B : Type} (f : A -> B) (P : B -> Prop) (l l' : list A) :
  map f l' = map f l -> Forall (fun x => P (f x)) l -> Forall (fun x => P (f x)) l'.
Proof.
  intros Hmap H. rewrite <- (List.Forall_map f P) in *. now rewrite Hmap.
Qed.

(** The retry loop whatever the keys: it returns, touches only regular
    resources and leaves the status of every other key alone. *)
Lemma retryLoop_runs (rs : option ResourceSet) (n : nat) :
  forall (i : nat) (regulars : list Unstructured) (status : gmap string ResourceStatus)
         (prev : nat) (w : World K),
    (forall r, In r regulars -> is_Some (status !! resourceKey r)) ->
    Forall (fun r => isCustomResourceDefinition r = false) regulars ->
    exists regulars' status' w' evs,
      retryLoop n rs i regulars status prev w = (Returns (regulars', status'), w') /\
      events w' = events w ++ evs /\
      Forall (fun ev => isCustomResourceDefinition (eventResource ev) = false) evs /\
      (forall k, is_Some (status !! k) -> is_Some (status' !! k)) /\
      (forall k, ~ In k (map resourceKey regulars) -> status' !! k = status !! k).
Proof.
  induction n as [|n IH]; intros i regulars status prev w Hkeys Hreg.
  - exists regulars, status, w, []. cbn. rewrite app_nil_r. repeat split; auto.
  - cbn [retryLoop].
    destruct (applyRegulars_runs rs i regulars status 0 w Hkeys)
      as (regulars1 & status1 & cur & w1 & evs & Hrun & Hev & Hown & Hk & Hc & Hdom & Hframe & _).
    rewrite (run_bind _ _ _ _ _ Hrun). cbn beta iota.
    assert (Hevs : Forall (fun ev => isCustomResourceDefinition (eventResource ev) = false) evs).
    { eapply List.Forall_impl; [|exact Hown]. intros ev Hin.
      rewrite List.Forall_forall in Hreg. now apply Hreg. }
    destruct ((cur =? 0)%nat || (cur =? prev)%nat).
    + exists regulars1, status1, w1, evs. repeat split; auto.
    + destruct (IH (S i) regulars1 status1 cur w1)
        as (regulars' & status' & w' & evs' & Hloop & Hev' & Hown' & Hdom' & Hframe').
      { now apply (keysPresent_after status _ regulars). }
      { now apply (Forall_same_map isCustomResourceDefinition (fun b => b = false) regulars). }
      exists regulars', status', w', (evs ++ evs'). split; [exact Hloop|]. split.
      { rewrite Hev', Hev, <- app_assoc. reflexivity. }
      split; [apply List.Forall_app; auto|]. split; [auto|].
      intros k Hk'. rewrite Hframe' by now rewrite Hk. now apply Hframe.
Qed.

(** ** The whole of [applyAll] *)

Lemma initStatus_from (resources : list Unstructured) (m : gmap string ResourceStatus) :
  let status :=
    fold_left
      (fun status r =>
         <[resourceKey r :=
             {| stNamespace := GetNamespace r; stName := GetName r;
                stAction := ResourceActionNone; stError := "" |}]> status)
      resources m in
  (forall k, is_Some (m !! k) -> is_Some (status !! k)) /\
  (forall r, In r resources -> is_Some (status !! resourceKey r)) /\
  (forall k st, status !! k = Some st -> m !! k = Some st \/ freshStatus st).
Proof.
  revert m. induction resources as [|r resources IH]; intros m; cbn [fold_left].
  - repeat split; auto. intros r [].
  - destruct (IH (<[resourceKey r :=
                      {| stNamespace := GetNamespace r; stName := GetName r;
                         stAction := ResourceActionNone; stError := "" |}]> m))
      as (Hdom & Hin & Hfresh).
    split; [|split].
    + intros k Hk. apply Hdom. apply lookup_insert_is_Some'. now right.
    + intros r0 [<- | Hr0]; [|now apply Hin].
      apply Hdom. apply lookup_insert_is_Some'. now left.
    + intros k st Hk. destruct (Hfresh k st Hk) as [Hold | Hnew]; [|now right].
      rewrite lookup_insert in Hold. destruct (decide (resourceKey r = k)); [|now left].
      injection Hold as <-. right. split; reflexivity.
Qed.

Lemma initStatus_covers (resources : list Unstructured) :
  (forall r, In r resources -> is_Some (initStatus resources !! resourceKey r)) /\
  (forall k st, initStatus resources !! k = Some st -> freshStatus st).
Proof.
  destruct (initStatus_from resources ∅) as (_ & Hin & Hfresh).
  split; [exact Hin|]. intros k st Hk.
  destruct (Hfresh k st Hk) as [Hold | Hnew]; [|exact Hnew].
  rewrite lookup_empty in Hold. discriminate.
Qed.

Lemma crdAvailable_returns (crd : Unstructured) (w : World K) :
  exists r w', crdAvailable crd w = (Returns r, w').
Proof.
  unfold crdAvailable, call, mbind, M_mbind, mret, M_mret. cbn.
  destruct (asCRD crd); [|eauto].
  destruct (discovery_ServerResourcesForGroupVersion K _ _) as [[l | e] c']; eauto.
Qed.

Lemma crdsAvailable_returns (crds : list Unstructured) (w : World K) :
  exists r w', crdsAvailable crds w = (Returns r, w').
Proof.
  revert w. induction crds as [|crd crds IH]; intros w; [cbn; eauto|].
  cbn [crdsAvailable].
  destruct (crdAvailable_returns crd w) as ([ok err] & w1 & Hrun).
  rewrite (run_bind _ _ _ _ _ Hrun). cbn beta iota.
  destruct (negb ok || match err with Some _ => true | None => false end); [cbn; eauto|].
  apply IH.
Qed.

Lemma wait_WaitFor_returns (ticks : nat) (condition : M (bool * option error)) (w : World K) :
  (forall w0, exists r w', condition w0 = (Returns r, w')) ->
  exists err w', wait_WaitFor ticks condition w = (Returns err, w').
Proof.
  intros Hcond. revert w. induction ticks as [|ticks IH]; intros w; [cbn; eauto|].
  cbn [wait_WaitFor]. destruct (Hcond w) as ([ok err] & w1 & Hrun).
  rewrite (run_bind _ _ _ _ _ Hrun). cbn beta iota.
  destruct err; [cbn; eauto|]. destruct ok; [cbn; eauto | apply IH].
Qed.

Lemma waitForCRDs_returns (crds : list Unstructured) (w : World K) :
  exists err w', waitForCRDs crds w = (Returns err, w') /\ events w' = events w.
Proof.
  pose proof (waitForCRDs_events crds w) as Hev.
  assert (H : exists err w', waitForCRDs crds w = (Returns err, w')).
  { unfold waitForCRDs, wait_PollImmediate.
    destruct (crdsAvailable_returns crds w) as ([ok err] & w1 & Hrun).
    rewrite (run_bind _ _ _ _ _ Hrun). cbn beta iota.
    destruct err; [cbn; eauto|]. destruct ok; [cbn; eauto|].
    unfold timerTicks, mbind, M_mbind.
    apply wait_WaitFor_returns, crdsAvailable_returns. }
  destruct H as (err & w' & Hrun). rewrite Hrun in Hev. eauto.
Qed.

(** A condition that stays false, without error, in every world that
    satisfies an invariant [P]: the poll ends with the timeout error. *)
Lemma wait_WaitFor_times_out (P : World K -> Prop) (ticks : nat)
    (condition : M (bool * option error)) (w : World K) :
  (forall w0, P w0 -> exists w0', condition w0 = (Returns (false, None), w0') /\ P w0') ->
  P w ->
  exists w', wait_WaitFor ticks condition w = (Returns (Some ErrWaitTimeout), w') /\ P w'.
Proof.
  intros Hcond. revert w. induction ticks as [|ticks IH]; intros w Hw; [cbn; eauto|].
  cbn [wait_WaitFor]. destruct (Hcond w Hw) as (w1 & Hrun & Hw1).
  rewrite (run_bind _ _ _ _ _ Hrun). cbn beta iota. now apply IH.
Qed.

Lemma waitForCRDs_times_out (P : World K -> Prop) (crds : list Unstructured) (w : World K) :
  (forall w0, P w0 ->
     exists w0', crdsAvailable crds w0 = (Returns (false, None), w0') /\ P w0') ->
  P w ->
  exists w', waitForCRDs crds w = (Returns (Some ErrWaitTimeout), w').
Proof.
  intros Hcond Hw. unfold waitForCRDs, wait_PollImmediate.
  destruct (Hcond w Hw) as (w1 & Hrun & Hw1).
  rewrite (run_bind _ _ _ _ _ Hrun). cbn beta iota.
  unfold timerTicks, mbind, M_mbind.
  destruct (wait_WaitFor_times_out P (wait_ticks K (2 * time_Second) (2 * time_Minute) (σ w1))
              (crdsAvailable crds) w1 Hcond Hw1) as (w' & Hwait & _).
  eauto.
Qed.

Lemma filter_In_crd (resources : list Unstructured) (f : Unstructured -> bool) :
  forall r, In r (filter resources f) -> In r resources /\ f r = true.
Proof. intros r. unfold filter. apply filter_In. Qed.

(** The CRD phase of [applyAll], from the initial status. *)
Lemma applyAll_install (rs : option ResourceSet) (resources : list Unstructured) (w : World K) :
  exists crds status w1 evs,
    installCRDs rs (filter resources isCustomResourceDefinition) (initStatus resources) w
    = (Returns (crds, status), w1) /\
    events w1 = events w ++ evs /\
    attempts evs = map (fun r => (r, false)) (filter resources isCustomResourceDefinition) /\
    Forall (fun ev => isCustomResourceDefinition (eventResource ev) = true) evs /\
    (forall r c, In (EvCall r c) evs -> isDelete c = false) /\
    (forall r, In r resources -> is_Some (status !! resourceKey r)) /\
    (forall k st, status !! k = Some st -> stAction st <> ResourceActionReplace).
Proof.
  destruct (initStatus_covers resources) as [Hcover Hfresh].
  destruct (installCRDs_runs rs (filter resources isCustomResourceDefinition)
              (initStatus resources) w)
    as (crds & status & w1 & evs & Hrun & Hev & Hatt & Hown & Hdel & Hdom & Hact).
  { intros r Hin. apply Hcover. now apply filter_In_crd in Hin. }
  exists crds, status, w1, evs. split; [exact Hrun|]. split; [exact Hev|].
  split; [exact Hatt|]. split.
  { eapply List.Forall_impl; [|exact Hown]. intros ev Hin.
    now apply filter_In_crd in Hin. }
  split; [exact Hdel|]. split; [intros r Hin; apply Hdom, Hcover, Hin|].
  intros k st Hk. destruct (Hact k st Hk) as [Hold | Hnew]; [|exact Hnew].
  destruct (Hfresh k st Hold) as [-> _]. discriminate.
Qed.

Lemma applyAll_gate_fails (rs : option ResourceSet) (opts : ApplyOptions)
    (resources crds : list Unstructured) (status : gmap string ResourceStatus)
    (w w1 w2 : World K) (e : error) :
  installCRDs rs (filter resources isCustomResourceDefinition) (initStatus resources) w
  = (Returns (crds, status), w1) ->
  waitForCRDs crds w1 = (Returns (Some e), w2) ->
  applyAll rs opts resources w
  = (Returns ({| appliedStatus := status; appliedCRDs := crds;
                 appliedRegulars :=
                   filter resources (fun r => negb (isCustomResourceDefinition r)) |},
              Some (errors_Wrap e "wait for CRDs")), w2).
Proof.
  intros Hinstall Hwait. unfold applyAll.
  rewrite (run_bind _ _ _ _ _ Hinstall). cbn beta iota.
  rewrite (run_bind _ _ _ _ _ Hwait). reflexivity.
Qed.

Lemma applyAll_gate_passes (rs : option ResourceSet) (opts : ApplyOptions)
    (resources crds regulars : list Unstructured) (status status' : gmap string ResourceStatus)
    (w w1 w2 w3 : World K) :
  installCRDs rs (filter resources isCustomResourceDefinition) (initStatus resources) w
  = (Returns (crds, status), w1) ->
  waitForCRDs crds w1 = (Returns None, w2) ->
  retryLoop 10 rs 0 (filter resources (fun r => negb (isCustomResourceDefinition r)))
    status 0 w2 = (Returns (regulars, status'), w3) ->
  applyAll rs opts resources w
  = (Returns ({| appliedStatus := status'; appliedCRDs := crds;
                 appliedRegulars := regulars |}, None), w3).
Proof.
  intros Hinstall Hwait Hloop. unfold applyAll.
  rewrite (run_bind _ _ _ _ _ Hinstall). cbn beta iota.
  rewrite (run_bind _ _ _ _ _ Hwait). cbn beta iota.
  rewrite (run_bind _ _ _ _ _ Hloop). reflexivity.
Qed.

Lemma attempts_filter_all (P : Unstructured -> bool) (evs : list Event) :
  Forall (fun ev => P (eventResource ev) = true) evs ->
  List.filter (fun a => P (fst a)) (attempts evs) = attempts evs.
Proof.
  induction 1 as [|[r b | r c] evs Hev _ IH]; cbn in *; [reflexivity | | exact IH].
  rewrite Hev. now f_equal.
Qed.

Lemma attempts_filter_none (P : Unstructured -> bool) (evs : list Event) :
  Forall (fun ev => P (eventResource ev) = false) evs ->
  List.filter (fun a => P (fst a)) (attempts evs) = [].
Proof.
  induction 1 as [|[r b | r c] evs Hev _ IH]; cbn in *; [reflexivity | | exact IH].
  now rewrite Hev.
Qed.

Lemma filter_app_list {A : Type} (f : A -> bool) (l l' : list A) :
  List.filter f (l ++ l') = List.filter f l ++ List.filter f l'.
Proof. induction l as [|x l IH]; cbn; [reflexivity|]. destruct (f x); cbn; now rewrite IH. Qed.

(** [applyAll] always returns; its trace, by what it does to CRDs. *)
Lemma applyAll_runs (rs : option ResourceSet) (opts : ApplyOptions)
    (resources : list Unstructured) (w : World K) :
  exists applied err w' evs,
    applyAll rs opts resources w = (Returns (applied, err), w') /\
    events w' = events w ++ evs /\
    List.filter (fun a => isCustomResourceDefinition (fst a)) (attempts evs)
    = map (fun r => (r, false)) (filter resources isCustomResourceDefinition) /\
    (forall r c, In (EvCall r c) evs -> isCustomResourceDefinition r = true ->
                 isDelete c = false) /\
    (forall crd, In crd resources -> isCustomResourceDefinition crd = true ->
       (forall r, In r resources -> isCustomResourceDefinition r = false ->
                  resourceKey r <> resourceKey crd) ->
       exists st, appliedStatus applied !! resourceKey crd = Some st /\
                  stAction st <> ResourceActionReplace).
Proof.
  destruct (applyAll_install rs resources w)
    as (crds & status & w1 & evs1 & Hinstall & Hev1 & Hatt & Hown & Hdel & Hkeys & Hact).
  destruct (waitForCRDs_returns crds w1) as ([e|] & w2 & Hwait & Hev2).
  - (* the gate fails *)
    eexists _, _, w2, evs1.
    split; [exact (applyAll_gate_fails rs opts _ _ _ _ _ _ _ Hinstall Hwait)|].
    split; [now rewrite Hev2|]. split; [now rewrite attempts_filter_all|].
    split; [intros r c Hin _; eauto|].
    intros crd Hin _ _. cbn [appliedStatus].
    destruct (Hkeys crd Hin) as [st Hst]. eauto.
  - (* the gate passes *)
    set (regulars := filter resources (fun r => negb (isCustomResourceDefinition r))).
    assert (Hreg : Forall (fun r => isCustomResourceDefinition r = false) regulars).
    { apply List.Forall_forall. intros r Hin. apply filter_In_crd in Hin as [_ Hr].
      now apply negb_true_iff. }
    destruct (retryLoop_runs rs 10 0 regulars status 0 w2)
      as (regulars' & status' & w3 & evs2 & Hloop & Hev3 & Hown2 & Hdom & Hframe);
      [| exact Hreg |].
    { intros r Hin. apply Hkeys. now apply filter_In_crd in Hin. }
    eexists _, _, w3, (evs1 ++ evs2).
    split; [exact (applyAll_gate_passes rs opts _ _ _ _ _ _ _ _ _ Hinstall Hwait Hloop)|].
    split; [rewrite Hev3, Hev2, Hev1, <- app_assoc; reflexivity|].
    split.
    { rewrite attempts_app, filter_app_list, attempts_filter_all, attempts_filter_none by auto.
      now rewrite app_nil_r. }
    split.
    { intros r c Hin Hcrd. apply in_app_or in Hin as [Hin | Hin]; [eauto|].
      rewrite List.Forall_forall in Hown2. specialize (Hown2 _ Hin). cbn in Hown2.
      congruence. }
    intros crd Hin Hcrd Hfresh. cbn [appliedStatus].
    destruct (Hkeys crd Hin) as [st Hst].
    exists st. split; [|eauto].
    rewrite Hframe; [exact Hst|].
    intros Hk. apply in_map_iff in Hk as (r & Hkey & Hr).
    apply filter_In_crd in Hr as [Hr Hneg]. apply negb_true_iff in Hneg.
    now apply (Hfresh r Hr Hneg).
Qed.

End Loops.

(** ** The entry point *)

Section Entry.
Context {K : Env}.

Lemma next_listed (name : string) (w : World K) (items : list Unstructured) (c' : cluster K) :
  client_List K resourceSetGVR (σ w) = (inl items, c') ->
  next name w =
    match nextVersion name items with
    | Returns v => (Returns (v, None), {| σ := c'; events := events w |})
    | Panics e => (Panics e, {| σ := c'; events := events w |})
    end.
Proof.
  intros Hlist. unfold next, call, lift, mbind, M_mbind, mret, M_mret. rewrite Hlist.
  now destruct (nextVersion name items).
Qed.

Lemma next_list_fails (name : string) (w : World K) (e : error) (c' : cluster K) :
  client_List K resourceSetGVR (σ w) = (inr e, c') ->
  next name w
  = (Returns (0, Some (errors_Wrap e "list existing ResourceSets")),
     {| σ := c'; events := events w |}).
Proof.
  intros Hlist. unfold next, call, mbind, M_mbind, mret, M_mret. now rewrite Hlist.
Qed.

(** [initialize] returns a ResourceSet exactly when it returns no error. *)
Lemma initialize_result (opts opts' : ApplyOptions) (resources resources' : list Unstructured)
    (rs : option ResourceSet) (err : option error) (w w' : World K) :
  initialize opts resources w = (Returns (opts', rs, resources', err), w') ->
  match err with
  | Some _ => rs = None
  | None => exists r, rs = Some r
  end.
Proof.
  unfold initialize, createResourceSet, call, lift, mbind, M_mbind, mret, M_mret.
  destruct (next (optName opts) w) as [[[version [e|]] | e] w1]; cbn;
    [intros [= <- <- <- <-]; reflexivity | | discriminate].
  destruct (metav1_Now K (σ w1)) as [now c1]. cbn.
  destruct (client_CreateResourceSet K _ c1) as [[rs' | e] c2]; cbn;
    [| intros [= <- <- <- <-]; reflexivity].
  destruct (attachOwners rs' _) as [[resources1 [e|]] | e]; cbn;
    [intros [= <- <- <- <-]; reflexivity | intros [= <- <- <- <-]; eauto | discriminate].
Qed.

Lemma Apply_runs (name : string) (opts : option ApplyOptions)
    (resources : list Unstructured) (w : World K) :
  let opts0 :=
    {| optName := name;
       optVersion := optVersion (match opts with
                                 | None => {| optName := ""; optVersion := 0 |}
                                 | Some o => o
                                 end) |} in
  match initialize opts0 resources w with
  | (Panics e, w1) => Apply name opts resources w = (Panics e, w1)
  | (Returns (opts1, rs, resources1, Some e), w1) =>
      rs = None /\ Apply name opts resources w = (Returns (None, Some e), w1)
  | (Returns (opts1, rs, resources1, None), w1) =>
      (exists r, rs = Some r) /\
      exists applied err w2,
        applyAll rs opts1 resources1 w1 = (Returns (applied, err), w2) /\
        Apply name opts resources w = (Returns (rs, err), w2)
  end.
Proof.
  cbn zeta. unfold Apply.
  destruct (initialize _ resources w) as [[[[[opts1 rs] resources1] err] | e] w1] eqn:Hinit.
  - pose proof (initialize_result _ _ _ _ _ _ _ _ Hinit) as Hrs.
    rewrite (run_bind _ _ _ _ _ Hinit). cbn beta iota.
    destruct err as [e|].
    + subst rs. split; reflexivity.
    + split; [exact Hrs|].
      destruct (applyAll_runs rs opts1 resources1 w1) as (applied & err & w2 & _ & Hrun & _).
      exists applied, err, w2. split; [exact Hrun|].
      rewrite (run_bind _ _ _ _ _ Hrun). reflexivity.
  - unfold mbind, M_mbind. now rewrite Hinit.
Qed.

End Entry.

(** * Properties of the specification *)

(** ** Names and versions *)

(** C8.  Decoding the name [resourceSetName baseName v] gives back
    [(baseName, v, true)] for every base name of the class [[a-z0-9]+] and
    every non-negative [int32] version [v]; decoding a string that does not
    match the pattern gives [ok = false]. *)
Theorem name_round_trip :
  (forall (baseName : string) (v : Z),
     validBaseName baseName -> 0 <= v <= maxInt32 ->
     decodeResourceSetName (resourceSetName baseName v) = Returns (baseName, v, true)) /\
  (forall s : string,
     (forall b d, ~ MatchesNamePat s b d) ->
     decodeResourceSetName s = Returns ("", 0, false)).
Proof.
  split.
  - intros baseName v Hb Hv. now apply decode_resourceSetName.
  - intros s Hs. now apply decode_no_match.
Qed.

Lemma name_round_trip_witness :
  decodeResourceSetName (resourceSetName "app" 7) = Returns ("app", 7, true) /\
  decodeResourceSetName "App.v1" = Returns ("", 0, false).
Proof.
  split.
  - apply (proj1 name_round_trip "app" 7).
    + split; [discriminate | reflexivity].
    + unfold maxInt32. lia.
  - apply (proj2 name_round_trip "App.v1").
    intros b d Hm. apply find_matches in Hm. vm_compute in Hm. discriminate Hm.
Defined.

(** C10, as amended.  [decodeResourceSetName] returns normally on every
    string that does not match the pattern, with [ok = false], and on every
    matching string whose digits denote a number of at most [2^63 - 1], with
    the base name and that number reduced to 32 bits. *)
Theorem decode_total_in_range (s : string) :
  (forall b d, MatchesNamePat s b d -> decimalValue d <= maxInt64) ->
  ((forall b d, ~ MatchesNamePat s b d) /\
   decodeResourceSetName s = Returns ("", 0, false)) \/
  (exists b d, MatchesNamePat s b d /\
               decodeResourceSetName s = Returns (b, int32 (decimalValue d), true)).
Proof.
  intros Hrange. destruct (find_sound s) as [E | (b & d & _ & Hm)].
  - left. assert (Hno : forall b d, ~ MatchesNamePat s b d).
    { intros b d Hm. apply find_matches in Hm. congruence. }
    split; [exact Hno | now apply decode_no_match].
  - right. exists b, d. split; [exact Hm|]. apply decode_match; [exact Hm | eauto].
Qed.

Lemma decode_total_in_range_witness :
  (forall b d, MatchesNamePat "app.v4294967297" b d -> decimalValue d <= maxInt64) /\
  decodeResourceSetName "app.v4294967297" = Returns ("app", 1, true).
Proof.
  assert (Hrange : forall b d, MatchesNamePat "app.v4294967297" b d ->
                               decimalValue d <= maxInt64).
  { intros b d Hm. apply find_matches in Hm. vm_compute in Hm.
    injection Hm as <- <-. vm_compute. discriminate. }
  split; [exact Hrange|].
  destruct (decode_total_in_range "app.v4294967297" Hrange)
    as [[Hno _] | (b & d & Hm & H)].
  - exfalso. apply (Hno "app" "4294967297").
    repeat split; try discriminate; reflexivity.
  - apply find_matches in Hm. vm_compute in Hm. injection Hm as <- <-. exact H.
Defined.

(** C10, as stated, fails: a matching name whose digits denote [2^63] makes
    [strconv.Atoi] report a range error, and [decodeResourceSetName] panics
    with it. *)
Lemma decode_panics_out_of_range :
  decodeResourceSetName "a.v9223372036854775808"
  = Panics (NumError "Atoi" "9223372036854775808" "value out of range") /\
  ~ (forall s : string, exists r, decodeResourceSetName s = Returns r).
Proof.
  assert (Hpanic : decodeResourceSetName "a.v9223372036854775808"
                   = Panics (NumError "Atoi" "9223372036854775808" "value out of range"))
    by (vm_compute; reflexivity).
  split; [exact Hpanic|].
  intros H. destruct (H "a.v9223372036854775808") as [r Hr].
  rewrite Hpanic in Hr. discriminate Hr.
Qed.

(** ** Owner references *)

(** C9.  A successful [setOwnerRef] leaves the resource with exactly one
    owner reference, the one to the batch (kind Resources of
    apps.cloudrobotics.com/v1alpha1, the name and UID of the batch, block
    owner deletion set), whatever references it carried before, and changes
    no other field. *)
Theorem setOwnerRef_single_owner (rs : ResourceSet) (resource resource' : Unstructured) :
  setOwnerRef rs resource = Returns (resource', None) ->
  GetOwnerReferences resource' = [ownerReferenceTo rs] /\
  GetAPIVersion resource' = GetAPIVersion resource /\
  GetKind resource' = GetKind resource /\
  GetNamespace resource' = GetNamespace resource /\
  GetName resource' = GetName resource /\
  GetResourceVersion resource' = GetResourceVersion resource /\
  asCRD resource' = asCRD resource /\
  content resource' = content resource.
Proof.
  unfold setOwnerRef.
  destruct (decodeResourceSetName (rsName rs)) as [[[name version] ok] | e]; cbn;
    [|discriminate].
  destruct ok; cbn; [|discriminate].
  intros [= <-]. repeat split.
Qed.

Lemma setOwnerRef_single_owner_witness :
  setOwnerRef (batchRecord "app.v2")
    (configMap "a" [resourcesOwner "app.v1"; resourcesOwner "other.v7"])
  = Returns (configMap "a" [ownerReferenceTo (batchRecord "app.v2")], None) /\
  GetOwnerReferences (configMap "a" [ownerReferenceTo (batchRecord "app.v2")])
  = [ownerReferenceTo (batchRecord "app.v2")].
Proof.
  assert (Hrun : setOwnerRef (batchRecord "app.v2")
                   (configMap "a" [resourcesOwner "app.v1"; resourcesOwner "other.v7"])
                 = Returns (configMap "a" [ownerReferenceTo (batchRecord "app.v2")], None))
    by (vm_compute; reflexivity).
  split; [exact Hrun|].
  exact (proj1 (setOwnerRef_single_owner _ _ _ Hrun)).
Defined.

(** C1 (the code departs from the claim and from its own comment).  The
    loop of [setOwnerRef] ranges over its local slice, which is still empty,
    and not over the references of the resource: a resource owned by a batch
    of another base name, or by a later version of the same batch, is
    relinked without error.  The body of the loop would report both, had it
    been given the references of the resource. *)
Theorem setOwnerRef_ignores_existing_owners :
  setOwnerRef (batchRecord "app.v1") (configMap "a" [resourcesOwner "other.v1"])
  = Returns (configMap "a" [ownerReferenceTo (batchRecord "app.v1")], None) /\
  setOwnerRef (batchRecord "app.v1") (configMap "a" [resourcesOwner "app.v5"])
  = Returns (configMap "a" [ownerReferenceTo (batchRecord "app.v1")], None) /\
  scanOwnerRefs "app" 1 [resourcesOwner "other.v1"] []
  = Returns (inr (errors_Errorf "owned by conflicting Resources object " (ArgQ "other.v1"))) /\
  scanOwnerRefs "app" 1 [resourcesOwner "app.v5"] []
  = Returns (inr (errors_Errorf "conflicting Resources version " (ArgD 1))).
Proof.
  repeat split; vm_compute; reflexivity.
Qed.

(** ** One resource *)

(** C2.  [applyOne] returns, and what it returns, the cluster it leaves and
    the calls it has made are those of the decision procedure
    [applyOneSpec]: no name, no mapping, create when not found, other fetch
    failures, update with the fetched resource version, and on a rejected
    update either the update error or, replace allowed, delete and create
    afresh with the resource version cleared. *)
Theorem applyOne_decision_procedure (K : Env) (rs : option ResourceSet)
    (resource : Unstructured) (replace : bool) (w : World K) :
  exists r' action err c' calls,
    applyOne rs resource replace w
    = (Returns (r', action, err),
       {| σ := c';
          events := events w ++ EvApply resource replace :: map (EvCall resource) calls |})
    /\ applyOneSpec resource replace (σ w) r' action err c' calls.
Proof. apply applyOne_meets_spec. Qed.

(** ** CRDs and the gate *)

(** C4.  Let the CRD phase of [applyAll] leave the CRDs [crds] and the
    world [w1].  If the wait for the CRDs then fails with an error [e] (the
    timeout error when the poll runs out of time), [applyAll] returns [e]
    wrapped as "wait for CRDs", and all it has done is to apply each CRD
    once with replace disabled: every event of its trace concerns a CRD, and
    none is a delete.  And the wait does fail with the timeout error when
    the CRDs are not all available in any of the worlds it polls. *)
Theorem gate_failure_attempts_no_regular (K : Env) (rs : option ResourceSet)
    (opts : ApplyOptions) (resources crds : list Unstructured)
    (status : gmap string ResourceStatus) (w w1 : World K) :
  installCRDs rs (filter resources isCustomResourceDefinition) (initStatus resources) w
  = (Returns (crds, status), w1) ->
  (forall e w2,
     waitForCRDs crds w1 = (Returns (Some e), w2) ->
     exists applied evs,
       applyAll rs opts resources w
       = (Returns (applied, Some (errors_Wrap e "wait for CRDs")), w2) /\
       events w2 = events w ++ evs /\
       Forall (fun ev => isCustomResourceDefinition (eventResource ev) = true) evs /\
       attempts evs = map (fun r => (r, false)) (filter resources isCustomResourceDefinition) /\
       (forall r c, In (EvCall r c) evs -> isDelete c = false)) /\
  (forall P : World K -> Prop,
     P w1 ->
     (forall w0, P w0 ->
        exists w0', crdsAvailable crds w0 = (Returns (false, None), w0') /\ P w0') ->
     exists w2, waitForCRDs crds w1 = (Returns (Some ErrWaitTimeout), w2)).
Proof.
  intros Hinstall. split.
  - intros e w2 Hwait.
    destruct (applyAll_install rs resources w)
      as (crds0 & status0 & w0 & evs & Hinstall0 & Hev & Hatt & Hown & Hdel & _).
    rewrite Hinstall in Hinstall0. injection Hinstall0 as <- <- <-.
    eexists _, evs.
    split; [exact (applyAll_gate_fails rs opts _ _ _ _ _ _ _ Hinstall Hwait)|].
    pose proof (waitForCRDs_events crds w1) as Hev2. rewrite Hwait in Hev2. cbn in Hev2.
    split; [now rewrite Hev2|]. auto.
  - intros P Hw1 Hcond. now apply (waitForCRDs_times_out P).
Qed.

Lemma gate_failure_attempts_no_regular_witness :
  exists applied w2,
    applyAll None noOptions [robotCRD; configMap "a" []] (fakeWorld emptyCluster)
    = (Returns (applied, Some (errors_Wrap ErrWaitTimeout "wait for CRDs")), w2) /\
    attempts (events w2) = [(robotCRD, false)].
Proof.
  pose (resources := [robotCRD; configMap "a" []]).
  pose (installed :=
          installCRDs (K:=fakeEnv) None (filter resources isCustomResourceDefinition)
            (initStatus resources) (fakeWorld emptyCluster)).
  assert (Hinstall : exists status w1,
             installed = (Returns ([robotCRD], status), w1) /\ servesNothing w1).
  { let v := eval vm_compute in installed in
    match v with
    | (Returns (_, ?status), ?w1) => exists status, w1
    end.
    split; vm_compute; reflexivity. }
  destruct Hinstall as (status & w1 & Hinstall & Hserves).
  destruct (gate_failure_attempts_no_regular fakeEnv None noOptions resources
              [robotCRD] status (fakeWorld emptyCluster) w1 Hinstall) as [Hfails Htimeout].
  destruct (Htimeout servesNothing Hserves) as (w2 & Hwait).
  { intros w0 Hw0. unfold servesNothing in Hw0.
    unfold crdsAvailable, crdAvailable, call, mbind, M_mbind, mret, M_mret. cbn.
    rewrite Hw0. cbn. eexists. split; [reflexivity | exact Hw0]. }
  destruct (Hfails ErrWaitTimeout w2 Hwait) as (applied & evs & Hrun & Hev & _ & Hatt & _).
  exists applied, w2. split; [exact Hrun|].
  rewrite Hev. exact Hatt.
Defined.

(** ** The entry point *)

(** C7, as amended.  [Apply] returns the ResourceSet that [initialize]
    returns: none, with the error, when [initialize] fails; the created
    record when [initialize] succeeds, also when [applyAll] then returns an
    error. *)
Theorem Apply_returns_record_of_initialize (K : Env) (name : string)
    (opts : option ApplyOptions) (resources : list Unstructured) (w : World K) :
  let opts0 :=
    {| optName := name;
       optVersion := optVersion (match opts with
                                 | None => {| optName := ""; optVersion := 0 |}
                                 | Some o => o
                                 end) |} in
  match initialize opts0 resources w with
  | (Panics e, w1) => Apply name opts resources w = (Panics e, w1)
  | (Returns (opts1, rs, resources1, Some e), w1) =>
      rs = None /\ Apply name opts resources w = (Returns (None, Some e), w1)
  | (Returns (opts1, rs, resources1, None), w1) =>
      (exists r, rs = Some r) /\
      exists applied err w2,
        applyAll rs opts1 resources1 w1 = (Returns (applied, err), w2) /\
        Apply name opts resources w = (Returns (rs, err), w2)
  end.
Proof. apply Apply_runs. Qed.

(** C7, as stated, fails on the error paths of [initialize].  When the
    listing fails no record exists and [Apply] returns none.  Under the base
    name App the record App.v1 is created, its name does not decode,
    attaching it as owner fails, and [Apply] returns none although the store
    holds the record. *)
Lemma Apply_returns_nil_on_initialize_error :
  fst (Apply "app" None [configMap "a" []] (fakeWorld failingListCluster))
  = Returns (None,
             Some (errors_Wrap
                     (errors_Wrap (StatusError "ServiceUnavailable" "unavailable")
                        "list existing ResourceSets")
                     "get next ResourceSet version")) /\
  fst (Apply "App" None [configMap "a" []] (fakeWorld emptyCluster))
  = Returns (None,
             Some (errors_Wrapf
                     (errors_Errorf "invalid ResourceSet name " (ArgQ "App.v1"))
                     "set owner reference for " (ArgQ "/v1/ConfigMap/default/a"))) /\
  fakeSetNames (σ (snd (Apply "App" None [configMap "a" []] (fakeWorld emptyCluster))))
  = ["App.v1"].
Proof.
  repeat split; vm_compute; reflexivity.
Qed.

(** * Further properties of the package *)

(** ** Ordering of resources *)

Section Sorting.

Lemma ascii_compare_lt_trans (a b c : ascii) :
  Ascii.compare a b = Lt -> Ascii.compare b c = Lt -> Ascii.compare a c = Lt.
Proof.
  unfold Ascii.compare. rewrite !N.compare_lt_iff. lia.
Qed.

Lemma string_compare_lt_trans (a b c : string) :
  String.compare a b = Lt -> String.compare b c = Lt -> String.compare a c = Lt.
Proof.
  revert b c. induction a as [|x a IH]; intros [|y b] [|z c]; cbn; try congruence.
  destruct (Ascii.compare x y) eqn:Hxy; try discriminate.
  - apply Ascii.compare_eq_iff in Hxy as ->.
    destruct (Ascii.compare y z) eqn:Hyz; try discriminate; auto. apply IH.
  - intros _. destruct (Ascii.compare y z) eqn:Hyz; try discriminate.
    + apply Ascii.compare_eq_iff in Hyz as <-. now rewrite Hxy.
    + intros _. now rewrite (ascii_compare_lt_trans _ _ _ Hxy Hyz).
Qed.

Lemma ltb_trans (a b c : string) :
  String.ltb a b = true -> String.ltb b c = true -> String.ltb a c = true.
Proof.
  unfold String.ltb. intros Hab Hbc.
  destruct (String.compare a b) eqn:E1; try discriminate.
  destruct (String.compare b c) eqn:E2; try discriminate.
  now rewrite (string_compare_lt_trans _ _ _ E1 E2).
Qed.

Lemma ltb_asym (a b : string) : String.ltb a b = true -> String.ltb b a = false.
Proof.
  unfold String.ltb. rewrite (String.compare_antisym a b).
  destruct (String.compare b a); cbn; congruence.
Qed.

Lemma ltb_total (a b : string) :
  a <> b -> String.ltb b a = false -> String.ltb a b = true.
Proof.
  unfold String.ltb. intros Hne. rewrite (String.compare_antisym a b).
  destruct (String.compare b a) eqn:E; cbn; try congruence.
  apply String.compare_eq_iff in E. congruence.
Qed.

Context {A : Type} (less : A -> A -> bool).
Hypothesis less_asym : forall a b, less a b = true -> less b a = false.

Lemma sort_insert_perm (x : A) (l : list A) : Permutation (x :: l) (sort_insert less x l).
Proof.
  induction l as [|y l IH]; cbn; [reflexivity|].
  destruct (less y x || negb (less x y)); [|reflexivity].
  rewrite perm_swap. now apply perm_skip.
Qed.

Lemma sort_insert_hd (x a : A) (l : list A) :
  less x a = false -> HdRel (ordered less) a l -> HdRel (ordered less) a (sort_insert less x l).
Proof.
  intros Hxa Hhd. destruct l as [|y l]; cbn.
  - constructor. exact Hxa.
  - inversion Hhd; subst.
    destruct (less y x || negb (less x y)); constructor; assumption.
Qed.

Lemma sort_insert_sorted (x : A) (l : list A) :
  Sorted (ordered less) l -> Sorted (ordered less) (sort_insert less x l).
Proof.
  induction 1 as [|y l Hs IH Hhd]; cbn.
  - repeat constructor.
  - destruct (less y x || negb (less x y)) eqn:E.
    + constructor; [exact IH|]. apply sort_insert_hd; [|exact Hhd].
      apply orb_true_iff in E as [E | E]; [now apply less_asym | now apply negb_true_iff].
    + apply orb_false_iff in E as [E _].
      constructor; [now constructor | constructor; exact E].
Qed.

Lemma sort_Slice_from (l acc : list A) :
  Sorted (ordered less) acc ->
  Permutation (acc ++ l) (fold_left (fun acc x => sort_insert less x acc) l acc) /\
  Sorted (ordered less) (fold_left (fun acc x => sort_insert less x acc) l acc).
Proof.
  revert acc. induction l as [|x l IH]; intros acc Hacc; cbn.
  - rewrite app_nil_r. auto.
  - destruct (IH (sort_insert less x acc) (sort_insert_sorted x acc Hacc)) as [Hp Hs].
    split; [|exact Hs]. rewrite <- Hp, <- Permutation_middle.
    apply (Permutation_app_tail l (sort_insert_perm x acc)).
Qed.

Lemma sort_Slice_sorts (l : list A) :
  Permutation l (sort_Slice less l) /\ Sorted (ordered less) (sort_Slice less l).
Proof. apply (sort_Slice_from l []). constructor. Qed.

End Sorting.

Section SortResources.

Lemma keyLess_asym (a b : Unstructured) : keyLess a b = true -> keyLess b a = false.
Proof. apply ltb_asym. Qed.

Lemma sortResources_sorts (res : list Unstructured) :
  Permutation res (sortResources res) /\ Sorted (ordered keyLess) (sortResources res).
Proof. apply (sort_Slice_sorts keyLess keyLess_asym). Qed.

(** A slice in key order whose keys are distinct is in strict key order
    throughout. *)
Lemma sorted_distinct_strict (l : list Unstructured) :
  Sorted (ordered keyLess) l -> List.NoDup (map resourceKey l) ->
  StronglySorted (fun a b => keyLess a b = true) l.
Proof.
  induction 1 as [|a l Hs IH Hhd]; intros Hnd; [constructor|].
  cbn in Hnd. apply List.NoDup_cons_iff in Hnd as [Hfresh Hnd].
  specialize (IH Hnd). constructor; [exact IH|].
  destruct l as [|b l]; [constructor|].
  inversion Hhd as [|? ? Hab]; subst.
  assert (Hlt : keyLess a b = true).
  { apply ltb_total; [|exact Hab]. intros E. apply Hfresh. left. now symmetry. }
  constructor; [exact Hlt|].
  apply StronglySorted_inv in IH as [_ Hall].
  eapply List.Forall_impl; [|exact Hall]. intros c Hbc.
  exact (ltb_trans _ _ _ Hlt Hbc).
Qed.

Lemma strict_sorted_unique (l1 l2 : list Unstructured) :
  StronglySorted (fun a b => keyLess a b = true) l1 ->
  StronglySorted (fun a b => keyLess a b = true) l2 ->
  Permutation l1 l2 -> l1 = l2.
Proof.
  revert l2. induction l1 as [|a l1 IH]; intros l2 H1 H2 Hp.
  - apply Permutation_nil in Hp. now subst.
  - destruct l2 as [|b l2]; [apply Permutation_sym, Permutation_nil in Hp; discriminate|].
    apply StronglySorted_inv in H1 as [H1 Ha]. apply StronglySorted_inv in H2 as [H2 Hb].
    assert (a = b) as <-.
    { assert (Hin : In a (b :: l2)) by (apply (Permutation_in _ Hp); now left).
      assert (Hin' : In b (a :: l1))
        by (apply (Permutation_in _ (Permutation_sym Hp)); now left).
      destruct Hin as [E | Hin]; [now symmetry|].
      destruct Hin' as [E | Hin']; [exact E|].
      rewrite List.Forall_forall in Ha, Hb.
      pose proof (keyLess_asym _ _ (Ha _ Hin')) as Hno.
      rewrite (Hb _ Hin) in Hno. discriminate. }
    f_equal. apply IH; auto. now apply Permutation_cons_inv in Hp.
Qed.

End SortResources.

(** X1.  [sortResources] returns its input rearranged, no element lost or
    added, so that no element has a key smaller than that of an element
    before it. *)
Theorem sortResources_sorted_permutation (res : list Unstructured) :
  Permutation res (sortResources res) /\
  Sorted (fun a b => String.ltb (resourceKey b) (resourceKey a) = false) (sortResources res).
Proof. apply sortResources_sorts. Qed.

(** X2.  The order [sortResources] gives to resources with distinct keys does
    not depend on the order they come in. *)
Theorem sortResources_order_independent (l1 l2 : list Unstructured) :
  Permutation l1 l2 -> List.NoDup (map resourceKey l1) ->
  sortResources l1 = sortResources l2.
Proof.
  intros Hp Hnd.
  destruct (sortResources_sorts l1) as [Hp1 Hs1].
  destruct (sortResources_sorts l2) as [Hp2 Hs2].
  assert (Hp12 : Permutation (sortResources l1) (sortResources l2)).
  { now rewrite <- Hp1, <- Hp2. }
  assert (Hnd1 : List.NoDup (map resourceKey (sortResources l1))).
  { eapply Permutation_NoDup; [|exact Hnd]. now apply Permutation_map. }
  assert (Hnd2 : List.NoDup (map resourceKey (sortResources l2))).
  { eapply Permutation_NoDup; [|exact Hnd1]. now apply Permutation_map. }
  apply strict_sorted_unique; auto using sorted_distinct_strict.
Qed.

Lemma sortResources_order_independent_witness :
  sortResources [configMap "b" []; robotCRD; configMap "a" []]
  = sortResources [configMap "a" []; configMap "b" []; robotCRD].
Proof.
  apply sortResources_order_independent.
  - apply perm_trans with [configMap "b" []; configMap "a" []; robotCRD].
    + apply perm_skip, perm_swap.
    + apply perm_swap.
  - repeat constructor; vm_compute; intuition discriminate.
Defined.

(** ** Identity keys *)

Section Keys.

Lemma countSlash_cons (c : ascii) (s : string) :
  countSlash (String c s) = if Ascii.eqb c "/" then S (countSlash s) else countSlash s.
Proof.
  destruct c as [[|] [|] [|] [|] [|] [|] [|] [|]]; reflexivity.
Qed.

Lemma splitSlash_cons (c : ascii) (s : string) :
  splitSlash (String c s)
  = if Ascii.eqb c "/" then (EmptyString, s)
    else (String c (fst (splitSlash s)), snd (splitSlash s)).
Proof.
  destruct c as [[|] [|] [|] [|] [|] [|] [|] [|]]; cbn; try reflexivity;
    now destruct (splitSlash s).
Qed.

Lemma splitSlash_counts (s : string) :
  countSlash (fst (splitSlash s)) = 0%nat /\
  countSlash (snd (splitSlash s)) = Nat.pred (countSlash s).
Proof.
  induction s as [|c s [IH1 IH2]]; [split; reflexivity|].
  rewrite splitSlash_cons, countSlash_cons.
  destruct (Ascii.eqb c "/") eqn:E; cbn [fst snd].
  - split; reflexivity.
  - rewrite countSlash_cons, E. auto.
Qed.

(** Group and version of a resource never hold a slash. *)
Lemma GroupVersionKind_of_noSlash (r : Unstructured) :
  noSlash (gvkGroup (GroupVersionKind_of r)) /\ noSlash (gvkVersion (GroupVersionKind_of r)).
Proof.
  unfold GroupVersionKind_of, ParseGroupVersion, noSlash.
  destruct (String.eqb (GetAPIVersion r) "" || String.eqb (GetAPIVersion r) "/");
    [split; reflexivity|].
  destruct (countSlash (GetAPIVersion r)) as [|[|n]] eqn:E; cbn.
  - auto.
  - destruct (splitSlash_counts (GetAPIVersion r)) as [H1 H2].
    destruct (splitSlash (GetAPIVersion r)) as [g v]. cbn in *. rewrite E in H2. auto.
  - split; reflexivity.
Qed.

Lemma gvkKind_noSlash (r : Unstructured) :
  noSlash (GetKind r) -> noSlash (gvkKind (GroupVersionKind_of r)).
Proof.
  unfold GroupVersionKind_of. destruct (ParseGroupVersion (GetAPIVersion r)) as [[g v]|]; auto.
  intros _. reflexivity.
Qed.

(** A string is cut at its first slash in one way only. *)
Lemma cut_at_slash (a a' b b' : string) :
  noSlash a -> noSlash a' ->
  a +:+ "/" +:+ b = a' +:+ "/" +:+ b' -> a = a' /\ b = b'.
Proof.
  unfold noSlash. revert a'. induction a as [|c a IH]; intros [|c' a'] Ha Ha' H.
  - rewrite !append_empty_l in H. injection H. auto.
  - rewrite append_empty_l, append_cons in H. injection H as <- _.
    rewrite countSlash_cons in Ha'. discriminate.
  - rewrite append_empty_l, append_cons in H. injection H as -> _.
    rewrite countSlash_cons in Ha. discriminate.
  - rewrite !append_cons in H. injection H as <- H.
    rewrite countSlash_cons in Ha, Ha'.
    destruct (Ascii.eqb c "/"); [discriminate|].
    destruct (IH a' Ha Ha' H) as [-> ->]. auto.
Qed.

Lemma resourceKey_parts (r r' : Unstructured) :
  noSlash (GetKind r) -> noSlash (GetNamespace r) ->
  noSlash (GetKind r') -> noSlash (GetNamespace r') ->
  resourceKey r = resourceKey r' ->
  GroupVersionKind_of r = GroupVersionKind_of r' /\
  GetNamespace r = GetNamespace r' /\ GetName r = GetName r'.
Proof.
  intros Hk Hn Hk' Hn' H. unfold resourceKey in H.
  destruct (GroupVersionKind_of_noSlash r) as [Hg Hv].
  destruct (GroupVersionKind_of_noSlash r') as [Hg' Hv'].
  apply gvkKind_noSlash in Hk, Hk'.
  destruct (GroupVersionKind_of r) as [g v k], (GroupVersionKind_of r') as [g' v' k'].
  cbn [gvkGroup gvkVersion gvkKind] in *.
  apply cut_at_slash in H as [-> H]; [|assumption..].
  apply cut_at_slash in H as [-> H]; [|assumption..].
  apply cut_at_slash in H as [-> H]; [|assumption..].
  apply cut_at_slash in H as [-> ->]; [|assumption..].
  auto.
Qed.

End Keys.

(** X3.  Two resources whose kind and namespace hold no slash have the same
    key only if they have the same group, version and kind, the same
    namespace and the same name. *)
Theorem resourceKey_injective (r r' : Unstructured) :
  noSlash (GetKind r) -> noSlash (GetNamespace r) ->
  noSlash (GetKind r') -> noSlash (GetNamespace r') ->
  resourceKey r = resourceKey r' ->
  GroupVersionKind_of r = GroupVersionKind_of r' /\
  GetNamespace r = GetNamespace r' /\ GetName r = GetName r'.
Proof. apply resourceKey_parts. Qed.

Lemma resourceKey_injective_witness :
  GetName (configMap "a" []) = GetName (configMap "a" [resourcesOwner "app.v1"]).
Proof.
  apply (resourceKey_injective (configMap "a" []) (configMap "a" [resourcesOwner "app.v1"]));
    reflexivity.
Defined.

(** ** The groups of a ResourceSet *)

Section Groups.

Lemma GroupVersionKind_eqb_spec (a b : GroupVersionKind) :
  Bool.reflect (a = b) (GroupVersionKind_eqb a b).
Proof.
  unfold GroupVersionKind_eqb. destruct a as [g v k], b as [g' v' k']; cbn.
  destruct (String.eqb_spec g g'), (String.eqb_spec v v'), (String.eqb_spec k k');
    cbn; constructor; congruence.
Qed.

Lemma groupItems_appendGrouped (gvk k : GroupVersionKind) (ref : ResourceRef)
    (m : list (GroupVersionKind * list ResourceRef)) :
  groupItems gvk (appendGrouped k ref m)
  = if GroupVersionKind_eqb k gvk then groupItems gvk m ++ [ref] else groupItems gvk m.
Proof.
  unfold groupItems. induction m as [|[k0 refs] m IH]; cbn.
  - now destruct (GroupVersionKind_eqb k gvk).
  - destruct (GroupVersionKind_eqb_spec k0 k) as [-> | Hne]; cbn.
    + now destruct (GroupVersionKind_eqb k gvk).
    + destruct (GroupVersionKind_eqb_spec k0 gvk) as [-> | Hne']; cbn; [|exact IH].
      destruct (GroupVersionKind_eqb_spec k gvk); [congruence | reflexivity].
Qed.

Lemma appendGrouped_keys (k : GroupVersionKind) (ref : ResourceRef)
    (m : list (GroupVersionKind * list ResourceRef)) :
  map fst (appendGrouped k ref m)
  = if existsb (fun e => GroupVersionKind_eqb (fst e) k) m then map fst m
    else map fst m ++ [k].
Proof.
  induction m as [|[k0 refs] m IH]; cbn; [reflexivity|].
  destruct (GroupVersionKind_eqb k0 k); cbn; [reflexivity|].
  rewrite IH. now destruct (existsb _ m).
Qed.

Lemma appendGrouped_NoDup (k : GroupVersionKind) (ref : ResourceRef)
    (m : list (GroupVersionKind * list ResourceRef)) :
  List.NoDup (map fst m) -> List.NoDup (map fst (appendGrouped k ref m)).
Proof.
  intros Hnd. rewrite appendGrouped_keys.
  destruct (existsb _ m) eqn:E; [exact Hnd|].
  apply (Permutation_NoDup (Permutation_cons_append (map fst m) k)).
  apply List.NoDup_cons_iff. split; [|exact Hnd].
  intros Hin. apply in_map_iff in Hin as (e & <- & Hin).
  assert (existsb (fun e0 => GroupVersionKind_eqb (fst e0) (fst e)) m = true).
  { apply existsb_exists. exists e. split; [exact Hin|].
    now destruct (GroupVersionKind_eqb_spec (fst e) (fst e)). }
  congruence.
Qed.

Lemma appendGrouped_nonempty (k : GroupVersionKind) (ref : ResourceRef)
    (m : list (GroupVersionKind * list ResourceRef)) :
  Forall (fun e => snd e <> []) m -> Forall (fun e => snd e <> []) (appendGrouped k ref m).
Proof.
  induction 1 as [|[k0 refs] m Hne Hm IH]; cbn.
  - repeat constructor. discriminate.
  - destruct (GroupVersionKind_eqb k0 k).
    + constructor; [|assumption]. cbn. intros H. apply app_eq_nil in H as [_ H].
      discriminate H.
    + constructor; assumption.
Qed.

Lemma groupResources_from (resources : list Unstructured)
    (m : list (GroupVersionKind * list ResourceRef)) :
  let groups :=
    fold_left
      (fun m r => appendGrouped (GroupVersionKind_of r)
                    {| refNamespace := GetNamespace r; refName := GetName r |} m)
      resources m in
  (List.NoDup (map fst m) -> List.NoDup (map fst groups)) /\
  (Forall (fun e => snd e <> []) m -> Forall (fun e => snd e <> []) groups) /\
  (forall gvk,
     groupItems gvk groups
     = groupItems gvk m ++
       map refOf (List.filter (fun r => GroupVersionKind_eqb (GroupVersionKind_of r) gvk)
                    resources)).
Proof.
  revert m. induction resources as [|r resources IH]; intros m; cbn [fold_left].
  - split; [auto|]. split; [auto|]. intros gvk. cbn. now rewrite app_nil_r.
  - destruct (IH (appendGrouped (GroupVersionKind_of r)
                    {| refNamespace := GetNamespace r; refName := GetName r |} m))
      as (Hnd & Hne & Hitems).
    split; [intros H; now apply Hnd, appendGrouped_NoDup|].
    split; [intros H; now apply Hne, appendGrouped_nonempty|].
    intros gvk. cbn zeta in Hitems. rewrite Hitems, groupItems_appendGrouped. cbn [List.filter].
    destruct (GroupVersionKind_eqb (GroupVersionKind_of r) gvk); cbn [map];
      [now rewrite <- app_assoc | reflexivity].
Qed.

Lemma groupItems_In (gvk : GroupVersionKind) (refs : list ResourceRef)
    (m : list (GroupVersionKind * list ResourceRef)) :
  List.NoDup (map fst m) -> In (gvk, refs) m -> groupItems gvk m = refs.
Proof.
  unfold groupItems. induction m as [|[k0 refs0] m IH]; cbn; [intros _ []|].
  intros Hnd Hin. apply List.NoDup_cons_iff in Hnd as [Hfresh Hnd].
  destruct (GroupVersionKind_eqb_spec k0 gvk) as [-> | Hne]; cbn.
  - destruct Hin as [[= <-] | Hin]; [reflexivity|].
    contradiction Hfresh. apply in_map_iff. now exists (gvk, refs).
  - destruct Hin as [[= -> _] | Hin]; [contradiction|]. now apply IH.
Qed.

Lemma groupItems_nonempty_In (gvk : GroupVersionKind)
    (m : list (GroupVersionKind * list ResourceRef)) :
  groupItems gvk m <> [] -> In (gvk, groupItems gvk m) m.
Proof.
  unfold groupItems. induction m as [|[k0 refs0] m IH]; cbn; [congruence|].
  destruct (GroupVersionKind_eqb_spec k0 gvk) as [-> | Hne]; cbn; [now left|].
  intros H. right. now apply IH.
Qed.

End Groups.

(** X4.  The grouping of [initialize] has one group per group/version/kind
    among the resources, and the group of a kind lists the namespace and
    name of each resource of that kind, in their order among the resources:
    every resource is listed exactly once, under its own kind. *)
Theorem groupResources_partition (resources : list Unstructured) :
  List.NoDup (map fst (groupResources resources)) /\
  (forall gvk refs,
     In (gvk, refs) (groupResources resources) <->
     refs <> [] /\
     refs = map refOf (List.filter (fun r => GroupVersionKind_eqb (GroupVersionKind_of r) gvk)
                         resources)).
Proof.
  destruct (groupResources_from resources []) as (Hnd & Hne & Hitems).
  cbn zeta in Hnd, Hne, Hitems. fold (groupResources resources) in Hnd, Hne, Hitems.
  specialize (Hnd (List.NoDup_nil _)). specialize (Hne (List.Forall_nil _)).
  split; [exact Hnd|]. intros gvk refs. split.
  - intros Hin. split.
    + rewrite List.Forall_forall in Hne. exact (Hne _ Hin).
    + rewrite <- (groupItems_In gvk refs _ Hnd Hin). apply Hitems.
  - intros [Hrefs ->]. specialize (Hitems gvk). cbn in Hitems. rewrite <- Hitems in *.
    now apply groupItems_nonempty_In.
Qed.

Lemma groupResources_partition_witness :
  In ({| gvkGroup := ""; gvkVersion := "v1"; gvkKind := "ConfigMap" |},
      [refOf (configMap "b" []); refOf (configMap "a" [])])
     (groupResources [configMap "b" []; robotCRD; configMap "a" []]).
Proof.
  apply (proj2 (groupResources_partition [configMap "b" []; robotCRD; configMap "a" []])).
  split; [discriminate | reflexivity].
Defined.

(** ** Linking the resources to the batch *)

Section Linking.

Lemma setOwnerRef_decoded (rs : ResourceSet) (resource : Unstructured) (name : string)
    (version : Z) :
  decodeResourceSetName (rsName rs) = Returns (name, version, true) ->
  setOwnerRef rs resource
  = Returns (SetOwnerReferences [ownerReferenceTo rs] resource, None).
Proof. intros H. unfold setOwnerRef. rewrite H. reflexivity. Qed.

Lemma setOwnerRef_undecoded (rs : ResourceSet) (resource : Unstructured) (name : string)
    (version : Z) :
  decodeResourceSetName (rsName rs) = Returns (name, version, false) ->
  setOwnerRef rs resource
  = Returns (resource, Some (errors_Errorf "invalid ResourceSet name " (ArgQ (rsName rs)))).
Proof. intros H. unfold setOwnerRef. rewrite H. reflexivity. Qed.

Lemma attachOwners_decoded (rs : ResourceSet) (resources : list Unstructured)
    (name : string) (version : Z) :
  decodeResourceSetName (rsName rs) = Returns (name, version, true) ->
  exists resources',
    attachOwners rs resources = Returns (resources', None) /\
    Forall2 (linkedTo rs) resources resources'.
Proof.
  intros Hdec. induction resources as [|r resources (resources' & IH & Hall)].
  - exists []. split; [reflexivity | constructor].
  - cbn [attachOwners]. unfold linkedTo at 1.
    destruct (isCustomResourceDefinition r) eqn:Hcrd; cbn [negb].
    + rewrite IH. exists (r :: resources'). split; [reflexivity|].
      constructor; [|exact Hall]. unfold linkedTo. now rewrite Hcrd.
    + rewrite (setOwnerRef_decoded rs r name version Hdec), IH.
      eexists. split; [reflexivity|].
      constructor; [|exact Hall]. unfold linkedTo. now rewrite Hcrd.
Qed.

Lemma attachOwners_linked (rs : ResourceSet) (resources resources' : list Unstructured) :
  attachOwners rs resources = Returns (resources', None) ->
  Forall2 (linkedTo rs) resources resources'.
Proof.
  destruct (decodeResourceSetName (rsName rs)) as [[[name version] ok] | e] eqn:Hdec.
  - destruct ok.
    + destruct (attachOwners_decoded rs resources name version Hdec) as (l & -> & Hall).
      now intros [= <-].
    + revert resources'. induction resources as [|r resources IH]; intros resources'.
      * intros [= <-]. constructor.
      * cbn [attachOwners].
        destruct (isCustomResourceDefinition r) eqn:Hcrd; cbn [negb].
        -- destruct (attachOwners rs resources) as [[rest err] | e]; cbn; [|discriminate].
           intros [= <- ->]. constructor; [|now apply IH].
           unfold linkedTo. now rewrite Hcrd.
        -- rewrite (setOwnerRef_undecoded rs r name version Hdec). discriminate.
  - revert resources'. induction resources as [|r resources IH]; intros resources'.
    + intros [= <-]. constructor.
    + cbn [attachOwners].
      destruct (isCustomResourceDefinition r) eqn:Hcrd; cbn [negb].
      * destruct (attachOwners rs resources) as [[rest err] | e']; cbn; [|discriminate].
        intros [= <- ->]. constructor; [|now apply IH].
        unfold linkedTo. now rewrite Hcrd.
      * unfold setOwnerRef. rewrite Hdec. discriminate.
Qed.

Lemma attachOwners_undecoded (rs : ResourceSet) (resources : list Unstructured)
    (name : string) (version : Z) :
  decodeResourceSetName (rsName rs) = Returns (name, version, false) ->
  (Forall (fun r => isCustomResourceDefinition r = true) resources /\
   attachOwners rs resources = Returns (resources, None)) \/
  (exists r resources',
     In r resources /\ isCustomResourceDefinition r = false /\
     attachOwners rs resources
     = Returns (resources',
                Some (errors_Wrapf
                        (errors_Errorf "invalid ResourceSet name " (ArgQ (rsName rs)))
                        "set owner reference for " (ArgQ (resourceKey r))))).
Proof.
  intros Hdec. induction resources as [|r resources IH].
  - left. split; [constructor | reflexivity].
  - cbn [attachOwners]. destruct (isCustomResourceDefinition r) eqn:Hcrd; cbn [negb].
    + destruct IH as [[Hall ->] | (r0 & l & Hin & Hr0 & ->)].
      * left. split; [now constructor | reflexivity].
      * right. exists r0. eexists. split; [now right|]. split; [exact Hr0 | reflexivity].
    + right. exists r. eexists. split; [now left|]. split; [exact Hcrd|].
      rewrite (setOwnerRef_undecoded rs r name version Hdec). reflexivity.
Qed.

Lemma linkedTo_key (rs : ResourceSet) (l l' : list Unstructured) :
  Forall2 (linkedTo rs) l l' -> map resourceKey l' = map resourceKey l.
Proof.
  induction 1 as [|r r' l l' Hr _ IH]; [reflexivity|].
  cbn. rewrite IH. f_equal. unfold linkedTo in Hr.
  destruct (isCustomResourceDefinition r); subst; reflexivity.
Qed.

End Linking.

(** X5.  When the name of the batch record does not decode, attaching it as
    owner succeeds only if every resource is a CRD, and then changes
    nothing; otherwise it fails at the first resource that is not a CRD,
    with the invalid-name error wrapped under the key of that resource. *)
Theorem attachOwners_invalid_name (rs : ResourceSet) (resources : list Unstructured)
    (name : string) (version : Z) :
  decodeResourceSetName (rsName rs) = Returns (name, version, false) ->
  (Forall (fun r => isCustomResourceDefinition r = true) resources /\
   attachOwners rs resources = Returns (resources, None)) \/
  (exists r resources',
     In r resources /\ isCustomResourceDefinition r = false /\
     attachOwners rs resources
     = Returns (resources',
                Some (errors_Wrapf
                        (errors_Errorf "invalid ResourceSet name " (ArgQ (rsName rs)))
                        "set owner reference for " (ArgQ (resourceKey r))))).
Proof. apply attachOwners_undecoded. Qed.

Lemma attachOwners_invalid_name_witness :
  attachOwners (batchRecord "My-App.v1") [robotCRD; configMap "a" []]
  = Returns ([robotCRD; configMap "a" []],
             Some (errors_Wrapf
                     (errors_Errorf "invalid ResourceSet name " (ArgQ "My-App.v1"))
                     "set owner reference for " (ArgQ "/v1/ConfigMap/default/a"))).
Proof.
  assert (Hdec : decodeResourceSetName (rsName (batchRecord "My-App.v1"))
                 = Returns ("", 0, false)) by (vm_compute; reflexivity).
  destruct (attachOwners_invalid_name (batchRecord "My-App.v1")
              [robotCRD; configMap "a" []] "" 0 Hdec) as [[_ H] | (r & l & _ & _ & H)];
    vm_compute; reflexivity.
Defined.

(** ** What [initialize] hands on *)

Section Initialize.
Context {K : Env}.

Lemma next_events (name : string) (w : World K) :
  events (snd (next name w)) = events w.
Proof.
  unfold next, call, lift, mbind, M_mbind, mret, M_mret.
  destruct (client_List K resourceSetGVR (σ w)) as [[items | e] c]; [|reflexivity].
  now destruct (nextVersion name items).
Qed.

(** [initialize] by its steps: where it succeeds, the resources it returns
    are those it was given, cleaned, sorted and linked to the record. *)
Lemma initialize_steps (opts opts' : ApplyOptions) (resources resources' : list Unstructured)
    (rs : option ResourceSet) (err : option error) (w w' : World K) :
  initialize opts resources w = (Returns (opts', rs, resources', err), w') ->
  events w' = events w /\
  (err = None ->
   exists r, rs = Some r /\
     attachOwners r (sortResources (filter resources (fun r => negb (isZeroUnstructured r))))
     = Returns (resources', None)).
Proof.
  unfold initialize, createResourceSet, call, lift, mbind, M_mbind, mret, M_mret.
  pose proof (next_events (optName opts) w) as Hev.
  destruct (next (optName opts) w) as [[[version [e|]] | e] w1]; cbn in Hev |- *;
    [intros [= <- <- <- <- <-]; split; [exact Hev | discriminate] | | discriminate].
  destruct (metav1_Now K (σ w1)) as [now c1]. cbn.
  destruct (client_CreateResourceSet K _ c1) as [[rs' | e] c2]; cbn;
    [| intros [= <- <- <- <- <-]; split; [exact Hev | discriminate]].
  destruct (attachOwners rs' _) as [[resources1 [e|]] | e] eqn:Hattach; cbn;
    [intros [= <- <- <- <- <-]; split; [exact Hev | discriminate] | | discriminate].
  intros [= <- <- <- <- <-]. split; [exact Hev|]. intros _. eauto.
Qed.

Lemma sorted_same_keys (l l' : list Unstructured) :
  map resourceKey l' = map resourceKey l ->
  Sorted (ordered keyLess) l -> Sorted (ordered keyLess) l'.
Proof.
  intros Hmap Hs. revert l' Hmap.
  induction Hs as [|a l Hs IH Hhd]; intros [|a' l'] Hmap; try discriminate; [constructor|].
  cbn in Hmap. injection Hmap as Ha Hl. constructor; [now apply IH|].
  destruct l as [|b l], l' as [|b' l']; try discriminate; constructor.
  inversion Hhd as [|? ? Hab]; subst. cbn in Hl. injection Hl as Hb _.
  unfold ordered, keyLess in *. now rewrite Ha, Hb.
Qed.

Lemma linkedTo_owner (rs : ResourceSet) (l l' : list Unstructured) :
  Forall2 (linkedTo rs) l l' ->
  Forall (fun r' => isCustomResourceDefinition r' = false ->
                    GetOwnerReferences r' = [ownerReferenceTo rs]) l'.
Proof.
  induction 1 as [|r r' l l' Hr _ IH]; constructor; [|exact IH].
  unfold linkedTo in Hr. destruct (isCustomResourceDefinition r) eqn:Hcrd; subst.
  - congruence.
  - reflexivity.
Qed.

End Initialize.

(** X6.  When [initialize] succeeds, the resources it returns are those it
    was given without the empty ones, in key order, each under the key it
    came with; every one that is not a CRD carries exactly one owner
    reference, to the record returned; and no resource has been applied. *)
Theorem initialize_links_resources (K : Env) (opts opts' : ApplyOptions)
    (resources resources' : list Unstructured) (rs : ResourceSet) (w w' : World K) :
  initialize opts resources w = (Returns (opts', Some rs, resources', None), w') ->
  Permutation (map resourceKey (filter resources (fun r => negb (isZeroUnstructured r))))
              (map resourceKey resources') /\
  Sorted (fun a b => String.ltb (resourceKey b) (resourceKey a) = false) resources' /\
  Forall (fun r' => isCustomResourceDefinition r' = false ->
                    GetOwnerReferences r' = [ownerReferenceTo rs]) resources' /\
  events w' = events w.
Proof.
  intros Hinit. destruct (initialize_steps _ _ _ _ _ _ _ _ Hinit) as [Hev Hok].
  destruct (Hok eq_refl) as (r & [= <-] & Hattach).
  apply attachOwners_linked in Hattach.
  pose proof (linkedTo_key _ _ _ Hattach) as Hkeys.
  set (cleaned := filter resources (fun r => negb (isZeroUnstructured r))) in *.
  destruct (sortResources_sorts cleaned) as [Hperm Hsorted].
  split; [rewrite Hkeys; now apply Permutation_map|].
  split; [exact (sorted_same_keys _ _ Hkeys Hsorted)|].
  split; [exact (linkedTo_owner _ _ _ Hattach) | exact Hev].
Qed.

Lemma initialize_links_resources_witness :
  exists opts' rs resources' w',
    initialize {| optName := "app"; optVersion := 0 |}
      [configMap "b" [resourcesOwner "old.v1"]; robotCRD; configMap "a" []]
      (fakeWorld emptyCluster)
    = (Returns (opts', Some rs, resources', None), w') /\
    Forall (fun r' => isCustomResourceDefinition r' = false ->
                      GetOwnerReferences r' = [ownerReferenceTo rs]) resources'.
Proof.
  pose (run := initialize (K:=fakeEnv) {| optName := "app"; optVersion := 0 |}
                 [configMap "b" [resourcesOwner "old.v1"]; robotCRD; configMap "a" []]
                 (fakeWorld emptyCluster)).
  assert (Hrun : exists opts' rs resources' w',
             run = (Returns (opts', Some rs, resources', None), w')).
  { let v := eval vm_compute in run in
    match v with
    | (Returns (?o, Some ?rs, ?l, None), ?w') => exists o, rs, l, w'
    end.
    vm_compute. reflexivity. }
  destruct Hrun as (opts' & rs & resources' & w' & Hrun).
  exists opts', rs, resources', w'. split; [exact Hrun|].
  exact (proj1 (proj2 (proj2 (initialize_links_resources fakeEnv _ _ _ _ _ _ _ Hrun)))).
Defined.

(** X7.  When [Apply] returns no record it returns an error and has applied
    no resource: the trace is as it was. *)
Theorem Apply_without_record_applies_nothing (K : Env) (name : string)
    (opts : option ApplyOptions) (resources : list Unstructured) (err : option error)
    (w w' : World K) :
  Apply name opts resources w = (Returns (None, err), w') ->
  err <> None /\ events w' = events w.
Proof.
  intros Hrun. pose proof (Apply_runs name opts resources w) as H. cbn zeta in H.
  destruct (initialize _ resources w) as [[[[[opts1 rs] resources1] [e|]] | e] w1] eqn:Hinit.
  - destruct H as [_ H]. rewrite H in Hrun. injection Hrun as <- <-.
    split; [discriminate|]. now apply initialize_steps in Hinit as [Hev _].
  - destruct H as [[r ->] (applied & err' & w2 & _ & H)]. rewrite H in Hrun. discriminate.
  - rewrite H in Hrun. discriminate.
Qed.

Lemma Apply_without_record_applies_nothing_witness :
  events (snd (Apply "App" None [configMap "a" []] (fakeWorld emptyCluster))) = [].
Proof.
  pose (run := Apply (K:=fakeEnv) "App" None [configMap "a" []] (fakeWorld emptyCluster)).
  assert (Hrun : exists err w', run = (Returns (None, err), w')).
  { let v := eval vm_compute in run in
    match v with
    | (Returns (None, ?e), ?w') => exists e, w'
    end.
    vm_compute. reflexivity. }
  destruct Hrun as (err & w' & Hrun). fold run. rewrite Hrun.
  exact (proj2 (Apply_without_record_applies_nothing fakeEnv "App" None [configMap "a" []]
                  err (fakeWorld emptyCluster) w' Hrun)).
Defined.

(** ** More on one resource *)

Section ApplyOneMore.
Context {K : Env}.

Lemma bind_inv {A B : Type} (m : M A) (k : A -> M B) (w w' : World K) (b : B) :
  (m ≫= k) w = (Returns b, w') ->
  exists a w1, m w = (Returns a, w1) /\ k a w1 = (Returns b, w').
Proof.
  unfold mbind, M_mbind. destruct (m w) as [[a | e] w1]; [eauto | discriminate].
Qed.

Lemma SetResourceVersion_same (r : Unstructured) :
  SetResourceVersion (GetResourceVersion r) r = r.
Proof. now destruct r. Qed.

Lemma applyOne_spec_of_run (rs : option ResourceSet) (resource r' : Unstructured)
    (replace : bool) (action : ResourceAction) (err : option error) (w w' : World K) :
  applyOne rs resource replace w = (Returns (r', action, err), w') ->
  exists calls,
    events w' = events w ++ EvApply resource replace :: map (EvCall resource) calls /\
    applyOneSpec resource replace (σ w) r' action err (σ w') calls.
Proof.
  intros Hrun.
  destruct (applyOne_meets_spec rs resource replace w)
    as (r0 & action0 & err0 & c' & calls & Hrun0 & Hspec).
  rewrite Hrun in Hrun0. injection Hrun0 as -> -> -> ->.
  exists calls. auto.
Qed.

Lemma Fetched_no_mutation (resource : Unstructured) (c0 c2 : cluster K)
    (client : ResourceInterface) (got : Unstructured + error) (calls : list Call) :
  Fetched resource c0 client got c2 calls ->
  exists a b, calls = [a; b] /\ isMutation a = false /\ isMutation b = false /\
              isDelete a = false /\ isDelete b = false.
Proof.
  intros (mapping & c1 & _ & _ & _ & _ & ->). do 2 eexists. repeat split.
Qed.

End ApplyOneMore.

(** X8.  [applyOne] changes nothing of the resource but its resource
    version: it leaves the resource as it is when the action is None or
    Create, and with the resource version cleared after a replace that
    reached the final create. *)
Theorem applyOne_changes_resource_version_only (K : Env) (rs : option ResourceSet)
    (resource r' : Unstructured) (replace : bool) (action : ResourceAction)
    (err : option error) (w w' : World K) :
  applyOne rs resource replace w = (Returns (r', action, err), w') ->
  r' = SetResourceVersion (GetResourceVersion r') resource /\
  (action = ResourceActionNone \/ action = ResourceActionCreate -> r' = resource) /\
  (action = ResourceActionReplace ->
   (exists e, err = Some (errors_Wrap e "delete resource")) \/ GetResourceVersion r' = "").
Proof.
  intros Hrun. destruct (applyOne_spec_of_run _ _ _ _ _ _ _ _ Hrun) as (calls & _ & Hspec).
  destruct Hspec; cbn;
    (split; [now rewrite ?SetResourceVersion_same|]);
    (split; [intros [Hact | Hact]; try discriminate Hact; reflexivity|]);
    intros Hact; try discriminate Hact; eauto.
Qed.

Lemma applyOne_changes_resource_version_only_witness :
  exists r' err w',
    applyOne None (configMap "a" []) true (fakeWorld (strictCluster [configMap "a" []]))
    = (Returns (r', ResourceActionReplace, err), w') /\
    r' = SetResourceVersion (GetResourceVersion r') (configMap "a" []).
Proof.
  pose (run := applyOne (K:=fakeEnv) None (configMap "a" []) true
                 (fakeWorld (strictCluster [configMap "a" []]))).
  assert (Hrun : exists r' err w', run = (Returns (r', ResourceActionReplace, err), w')).
  { let v := eval vm_compute in run in
    match v with
    | (Returns (?r, _, ?e), ?w') => exists r, e, w'
    end.
    vm_compute. reflexivity. }
  destruct Hrun as (r' & err & w' & Hrun).
  exists r', err, w'. split; [exact Hrun|].
  exact (proj1 (applyOne_changes_resource_version_only fakeEnv None (configMap "a" []) r' true
                  _ err (fakeWorld (strictCluster [configMap "a" []])) w' Hrun)).
Defined.

(** X9.  [applyOne] reports the action None exactly when it has issued no
    create, update or delete, and then it returns an error; and it issues a
    delete only with replace allowed, reporting Replace. *)
Theorem applyOne_action_none_iff_no_mutation (K : Env) (rs : option ResourceSet)
    (resource r' : Unstructured) (replace : bool) (action : ResourceAction)
    (err : option error) (w w' : World K) :
  applyOne rs resource replace w = (Returns (r', action, err), w') ->
  exists calls,
    events w' = events w ++ EvApply resource replace :: map (EvCall resource) calls /\
    (action = ResourceActionNone <-> Forall (fun c => isMutation c = false) calls) /\
    (action = ResourceActionNone -> err <> None) /\
    (Exists (fun c => isDelete c = true) calls ->
     replace = true /\ action = ResourceActionReplace).
Proof.
  intros Hrun. destruct (applyOne_spec_of_run _ _ _ _ _ _ _ _ Hrun) as (calls & Hev & Hspec).
  exists calls. split; [exact Hev|]. clear Hrun Hev.
  destruct Hspec;
    repeat match goal with
           | Hf : Fetched _ _ _ _ _ _ |- _ =>
               apply Fetched_no_mutation in Hf as (? & ? & -> & ? & ? & ? & ?)
           end;
    cbn [app]; (split; [split|split]);
    try (intros _; repeat constructor; assumption);
    try (intros Hact; discriminate Hact);
    try (intros _; discriminate);
    try reflexivity;
    try (intros Hall; repeat match goal with
                             | Hx : Forall _ (_ :: _) |- _ => inversion Hx; clear Hx; subst
                             end; cbn in *; discriminate);
    try (intros Hex; repeat match goal with
                            | Hx : Exists _ (_ :: _) |- _ => inversion Hx; clear Hx; subst
                            | Hx : Exists _ [] |- _ => inversion Hx
                            end; cbn in *; try congruence; auto).
Qed.

Lemma applyOne_action_none_iff_no_mutation_witness :
  exists r' err w',
    applyOne None (configMap "" []) true (fakeWorld emptyCluster)
    = (Returns (r', ResourceActionNone, err), w') /\ err <> None.
Proof.
  pose (run := applyOne (K:=fakeEnv) None (configMap "" []) true (fakeWorld emptyCluster)).
  assert (Hrun : exists r' err w', run = (Returns (r', ResourceActionNone, err), w')).
  { let v := eval vm_compute in run in
    match v with
    | (Returns (?r, _, ?e), ?w') => exists r, e, w'
    end.
    vm_compute. reflexivity. }
  destruct Hrun as (r' & err & w' & Hrun).
  exists r', err, w'. split; [exact Hrun|].
  destruct (applyOne_action_none_iff_no_mutation fakeEnv None (configMap "" []) r' true
              _ err (fakeWorld emptyCluster) w' Hrun) as (calls & _ & _ & Herr & _).
  now apply Herr.
Defined.

(** ** More on the gate *)

Section Gate.
Context {K : Env}.

(** The CRD [crd] was served: in some state of the cluster, discovery
    answered for its group and version with a list holding its plural. *)
Lemma crdAvailable_true (crd : Unstructured) (w w' : World K) :
  crdAvailable crd w = (Returns (true, None), w') ->
  servedIn K crd.
Proof.
  unfold crdAvailable, call, mbind, M_mbind, mret, M_mret, servedIn. cbn.
  destruct (asCRD crd) as [spec | e]; [|discriminate].
  destruct (discovery_ServerResourcesForGroupVersion K _ _) as [[l | e] c'] eqn:Hd;
    [|discriminate].
  intros [= Hl <-]. exists spec. split; [reflexivity|]. eauto.
Qed.

Lemma crdAvailable_error (crd : Unstructured) (w w' : World K) (ok : bool) (e : error) :
  crdAvailable crd w = (Returns (ok, Some e), w') -> asCRD crd = inr e.
Proof.
  unfold crdAvailable, call, mbind, M_mbind, mret, M_mret. cbn.
  destruct (asCRD crd) as [spec | e0]; [|now intros [= _ <- _]].
  destruct (discovery_ServerResourcesForGroupVersion K _ _) as [[l | e1] c']; discriminate.
Qed.

Lemma crdsAvailable_true (crds : list Unstructured) (w w' : World K) :
  crdsAvailable crds w = (Returns (true, None), w') -> Forall (servedIn K) crds.
Proof.
  revert w. induction crds as [|crd crds IH]; intros w; [constructor|].
  cbn [crdsAvailable]. intros H. apply bind_inv in H as ([ok err] & w1 & Hone & H).
  cbn beta iota in H. destruct ok, err as [e|]; cbn in H; try discriminate H.
  constructor; [exact (crdAvailable_true _ _ _ Hone) | exact (IH _ H)].
Qed.

Lemma crdsAvailable_error (crds : list Unstructured) (w w' : World K) (ok : bool) (e : error) :
  crdsAvailable crds w = (Returns (ok, Some e), w') ->
  exists crd, In crd crds /\ asCRD crd = inr e.
Proof.
  revert w. induction crds as [|crd crds IH]; intros w; [discriminate|].
  cbn [crdsAvailable]. intros H. apply bind_inv in H as ([ok1 err1] & w1 & Hone & H).
  cbn beta iota in H. destruct err1 as [e1|].
  - rewrite orb_true_r in H. injection H as _ <- _.
    exists crd. split; [now left | exact (crdAvailable_error _ _ _ _ _ Hone)].
  - destruct ok1; cbn in H; [|discriminate H].
    destruct (IH _ H) as (crd0 & Hin & Hcrd). exists crd0. split; [now right | exact Hcrd].
Qed.

Lemma wait_WaitFor_outcome (crds : list Unstructured) (ticks : nat) (w w' : World K)
    (err : option error) :
  wait_WaitFor ticks (crdsAvailable crds) w = (Returns err, w') ->
  match err with
  | None => Forall (servedIn K) crds
  | Some e => e = ErrWaitTimeout \/ exists crd, In crd crds /\ asCRD crd = inr e
  end.
Proof.
  revert w. induction ticks as [|ticks IH]; intros w.
  - intros [= <- _]. now left.
  - cbn [wait_WaitFor]. intros H. apply bind_inv in H as ([ok e] & w1 & Hcond & H).
    cbn beta iota in H. destruct e as [e|].
    + injection H as <- _. right. exact (crdsAvailable_error _ _ _ _ _ Hcond).
    + destruct ok; [|exact (IH _ H)].
      injection H as <- _. exact (crdsAvailable_true _ _ _ Hcond).
Qed.

Lemma waitForCRDs_outcome (crds : list Unstructured) (w w' : World K) (err : option error) :
  waitForCRDs crds w = (Returns err, w') ->
  match err with
  | None => Forall (servedIn K) crds
  | Some e => e = ErrWaitTimeout \/ exists crd, In crd crds /\ asCRD crd = inr e
  end.
Proof.
  unfold waitForCRDs, wait_PollImmediate. intros H.
  apply bind_inv in H as ([ok e] & w1 & Hcond & H). cbn beta iota in H.
  destruct e as [e|].
  - injection H as <- _. right. exact (crdsAvailable_error _ _ _ _ _ Hcond).
  - destruct ok.
    + injection H as <- _. exact (crdsAvailable_true _ _ _ Hcond).
    + apply bind_inv in H as (ticks & w2 & _ & H). exact (wait_WaitFor_outcome _ _ _ _ _ H).
Qed.

Lemma applyOne_same_crd (rs : option ResourceSet) (resource r' : Unstructured) (replace : bool)
    (action : ResourceAction) (err : option error) (w w' : World K) :
  applyOne rs resource replace w = (Returns (r', action, err), w') ->
  asCRD r' = asCRD resource.
Proof.
  intros Hrun. destruct (applyOne_spec_of_run _ _ _ _ _ _ _ _ Hrun) as (calls & _ & Hspec).
  destruct (applyOneSpec_resource _ _ _ _ _ _ _ _ Hspec) as (version & [-> | ->]); reflexivity.
Qed.

Lemma installCRDs_same_crds (rs : option ResourceSet) (crds crds' : list Unstructured)
    (status status' : gmap string ResourceStatus) (w w' : World K) :
  installCRDs rs crds status w = (Returns (crds', status'), w') ->
  map asCRD crds' = map asCRD crds.
Proof.
  revert crds' status status' w w'.
  induction crds as [|crd crds IH]; intros crds' status status' w w'.
  - now intros [= <- _ _].
  - cbn [installCRDs]. intros H.
    apply bind_inv in H as ([[crd1 action] err] & w1 & Hone & H). cbn beta iota zeta in H.
    apply bind_inv in H as (st & w2 & _ & H).
    apply bind_inv in H as ([rest status1] & w3 & Hrest & H).
    injection H as <- _ _. cbn. f_equal; [exact (applyOne_same_crd _ _ _ _ _ _ _ _ Hone)|].
    exact (IH _ _ _ _ _ Hrest).
Qed.

Lemma applyAll_outcome (rs : option ResourceSet) (opts : ApplyOptions)
    (resources : list Unstructured) (applied : Applied) (err : option error) (w w' : World K) :
  applyAll rs opts resources w = (Returns (applied, err), w') ->
  exists gate,
    err = option_map (fun e => errors_Wrap e "wait for CRDs") gate /\
    match gate with
    | None => Forall (servedIn K) (appliedCRDs applied)
    | Some e =>
        e = ErrWaitTimeout \/
        exists crd, In crd (appliedCRDs applied) /\ asCRD crd = inr e
    end /\
    map asCRD (appliedCRDs applied)
    = map asCRD (filter resources isCustomResourceDefinition).
Proof.
  unfold applyAll. intros H.
  apply bind_inv in H as ([crds status] & w1 & Hinstall & H). cbn beta iota in H.
  apply bind_inv in H as (gate & w2 & Hwait & H).
  pose proof (waitForCRDs_outcome _ _ _ _ Hwait) as Hgate.
  pose proof (installCRDs_same_crds _ _ _ _ _ _ _ Hinstall) as Hsame.
  exists gate. destruct gate as [e|].
  - injection H as <- <- _. cbn. auto.
  - apply bind_inv in H as ([regulars status'] & w3 & _ & H).
    injection H as <- <- _. cbn. auto.
Qed.

End Gate.

Section GateMore.
Context {K : Env}.

Lemma same_crds_In (l l' : list Unstructured) (crd : Unstructured) :
  map asCRD l' = map asCRD l -> In crd l -> exists crd', In crd' l' /\ asCRD crd' = asCRD crd.
Proof.
  intros Hmap Hin. apply (in_map asCRD) in Hin. rewrite <- Hmap in Hin.
  apply in_map_iff in Hin as (crd' & Heq & Hin). eauto.
Qed.

Lemma filter_nil_crds (resources : list Unstructured) :
  Forall (fun r => isCustomResourceDefinition r = false) resources ->
  filter resources isCustomResourceDefinition = [].
Proof.
  unfold filter. induction 1 as [|r l Hr _ IH]; cbn; [reflexivity|]. now rewrite Hr.
Qed.

End GateMore.

(** X10.  The only error [applyAll] ever returns is the error of the wait for
    the CRDs, wrapped as "wait for CRDs": the timeout of the poll, or the
    error of converting one of the CRDs of the batch.  No failure of a
    resource makes it fail. *)
Theorem applyAll_fails_only_at_gate (K : Env) (rs : option ResourceSet) (opts : ApplyOptions)
    (resources : list Unstructured) (applied : Applied) (e : error) (w w' : World K) :
  applyAll rs opts resources w = (Returns (applied, Some e), w') ->
  exists cause,
    e = errors_Wrap cause "wait for CRDs" /\
    (cause = ErrWaitTimeout \/
     exists crd, In crd resources /\ isCustomResourceDefinition crd = true /\
                 asCRD crd = inr cause).
Proof.
  intros Hrun. destruct (applyAll_outcome _ _ _ _ _ _ _ Hrun) as ([cause|] & Herr & Hgate & Hsame);
    [|discriminate Herr].
  injection Herr as ->. exists cause. split; [reflexivity|].
  destruct Hgate as [-> | (crd' & Hin & Hcrd)]; [now left | right].
  destruct (same_crds_In _ _ crd' (eq_sym Hsame) Hin) as (crd & Hin0 & Heq).
  apply filter_In_crd in Hin0 as [Hin0 Hiscrd].
  exists crd. split; [exact Hin0|]. split; [exact Hiscrd | congruence].
Qed.

Lemma applyAll_fails_only_at_gate_witness :
  exists applied w',
    applyAll None noOptions [robotCRD; configMap "a" []] (fakeWorld emptyCluster)
    = (Returns (applied, Some (errors_Wrap ErrWaitTimeout "wait for CRDs")), w').
Proof.
  pose (run := applyAll (K:=fakeEnv) None noOptions [robotCRD; configMap "a" []]
                 (fakeWorld emptyCluster)).
  assert (Hrun : exists applied e w', run = (Returns (applied, Some e), w')).
  { let v := eval vm_compute in run in
    match v with
    | (Returns (?a, Some ?e), ?w') => exists a, e, w'
    end.
    vm_compute. reflexivity. }
  destruct Hrun as (applied & e & w' & Hrun).
  destruct (applyAll_fails_only_at_gate fakeEnv None noOptions [robotCRD; configMap "a" []]
              applied e (fakeWorld emptyCluster) w' Hrun) as (cause & -> & [-> | Hconv]).
  - exists applied, w'. exact Hrun.
  - exfalso. destruct Hconv as (crd & [<- | [<- | []]] & Hcrd & Hconv); discriminate.
Defined.

(** ** More on names and versions *)

Section NamesMore.

Lemma resourceSetName_decodes (b : string) (v : Z) :
  validBaseName b -> 0 <= v -> DecodesTo (resourceSetName b v) b v.
Proof.
  intros Hb Hv. exists (fmt_d v). split; [now apply resourceSetName_matches|].
  now destruct (fmt_d_nonneg v Hv) as (_ & _ & ->).
Qed.

Lemma decode_sound (s b : string) (v : Z) (ok : bool) :
  decodeResourceSetName s = Returns (b, v, ok) ->
  if ok then exists d, MatchesNamePat s b d /\ decimalValue d <= maxInt64 /\
                       v = int32 (decimalValue d)
  else b = "" /\ v = 0 /\ forall b' d, ~ MatchesNamePat s b' d.
Proof.
  destruct (find_sound s) as [E | (b0 & d & _ & Hm)].
  - assert (Hno : forall b' d, ~ MatchesNamePat s b' d).
    { intros b' d Hm. apply find_matches in Hm. congruence. }
    rewrite (decode_no_match s Hno). intros [= <- <- <-]. auto.
  - destruct (Z.le_gt_cases (decimalValue d) maxInt64) as [Hle | Hgt].
    + rewrite (decode_match s b0 d Hm Hle). intros [= <- <- <-]. eauto.
    + rewrite (decode_match_out_of_range s b0 d Hm ltac:(lia)). discriminate.
Qed.

End NamesMore.

(** X13.  What [decodeResourceSetName] returns with [ok = true] is the two
    groups of a match of the pattern: a base name of the class [[a-z0-9]+]
    and the number its digits denote, at most [2^63 - 1] and reduced to 32
    bits; with [ok = false] it returns the empty name and 0, and the string
    does not match. *)
Theorem decodeResourceSetName_sound (s b : string) (v : Z) (ok : bool) :
  decodeResourceSetName s = Returns (b, v, ok) ->
  if ok then exists d, MatchesNamePat s b d /\ decimalValue d <= maxInt64 /\
                       v = int32 (decimalValue d)
  else b = "" /\ v = 0 /\ forall b' d, ~ MatchesNamePat s b' d.
Proof. apply decode_sound. Qed.

Lemma decodeResourceSetName_sound_witness :
  exists d, MatchesNamePat "app.v007" "app" d /\ 7 = int32 (decimalValue d).
Proof.
  assert (Hrun : decodeResourceSetName "app.v007" = Returns ("app", 7, true))
    by (vm_compute; reflexivity).
  destruct (decodeResourceSetName_sound "app.v007" "app" 7 true Hrun) as (d & Hm & _ & Hv).
  exists d. auto.
Defined.

(** X14.  Names of batch records are distinct for distinct base names or
    versions: [resourceSetName] is injective on base names of the class
    [[a-z0-9]+] and non-negative versions. *)
Theorem resourceSetName_injective (b b' : string) (v v' : Z) :
  validBaseName b -> validBaseName b' -> 0 <= v -> 0 <= v' ->
  resourceSetName b v = resourceSetName b' v' -> b = b' /\ v = v'.
Proof.
  intros Hb Hb' Hv Hv' Heq.
  pose proof (resourceSetName_decodes b v Hb Hv) as Hd.
  pose proof (resourceSetName_decodes b' v' Hb' Hv') as Hd'.
  rewrite Heq in Hd. exact (DecodesTo_functional _ _ _ _ _ Hd Hd').
Qed.

Lemma resourceSetName_injective_witness :
  resourceSetName "app" 12 = "app.v12" /\ "app" = "app" /\ 12 = 12.
Proof.
  split; [reflexivity|].
  apply (resourceSetName_injective "app" "app" 12 12);
    try (split; [discriminate | reflexivity]); try lia; reflexivity.
Defined.

(** X15.  The name [initialize] gives to the next record is not the name of
    any record of the listing: for a base name of the class [[a-z0-9]+] and
    a listing in range, no listed record is named [resourceSetName name v]
    for the version [v] that [nextVersion] returns. *)
Theorem nextVersion_name_is_fresh (name : string) (items : list Unstructured) (v : Z) :
  validBaseName name -> listingInRange name items ->
  nextVersion name items = Returns v ->
  forall r, In r items -> GetName r <> resourceSetName name v.
Proof.
  intros Hname Hrange Hnext r Hin Heq.
  destruct (nextVersion_spec name items Hrange) as (v0 & Hv0 & Hspec).
  rewrite Hnext in Hv0. injection Hv0 as <-.
  assert (Hv : 1 <= v).
  { destruct Hspec as [[_ ->] | [(r0 & _ & Hd) _]]; [lia|].
    apply DecodesTo_nonneg in Hd. lia. }
  pose proof (resourceSetName_decodes name v Hname ltac:(lia)) as Hd.
  rewrite <- Heq in Hd.
  destruct Hspec as [[Hnone _] | [_ Hmax]].
  - exact (Hnone r v Hin Hd).
  - specialize (Hmax r v Hin Hd). lia.
Qed.

Lemma nextVersion_name_is_fresh_witness :
  GetName (listedResourceSet "app.v3") <> resourceSetName "app" 4.
Proof.
  assert (Hdecode : forall s b v, DecodesTo s b v ->
            match namePat_FindStringSubmatch s with
            | [_; b'; d'] => b = b' /\ v = decimalValue d'
            | _ => False
            end).
  { intros s b v (d & Hm & ->). apply find_matches in Hm. rewrite Hm. auto. }
  apply (nextVersion_name_is_fresh "app"
           [listedResourceSet "app.v3"; listedResourceSet "other.v9"] 4).
  - split; [discriminate | reflexivity].
  - intros r b v Hin Hd. apply Hdecode in Hd.
    destruct Hin as [<- | [<- | []]]; vm_compute in Hd; destruct Hd as [-> ->]; vm_compute;
      (split; [discriminate | intros _; reflexivity || discriminate]).
  - vm_compute. reflexivity.
  - now left.
Defined.

(** ** The status map *)

Section Status.
Context {K : Env}.

Lemma deref_inv (st : option ResourceStatus) (s : ResourceStatus) (w w' : World K) :
  deref st w = (Returns s, w') -> st = Some s /\ w' = w.
Proof. destruct st; cbn; [now intros [= -> ->] | discriminate]. Qed.

Lemma sameSubjects_refl (status : gmap string ResourceStatus) : sameSubjects status status.
Proof. intros k st Hk. eauto. Qed.

Lemma sameSubjects_trans (a b c : gmap string ResourceStatus) :
  sameSubjects a b -> sameSubjects b c -> sameSubjects a c.
Proof.
  intros Hab Hbc k st Hk.
  destruct (Hbc k st Hk) as (st1 & Hk1 & Hn1 & Hm1).
  destruct (Hab k st1 Hk1) as (st0 & Hk0 & Hn0 & Hm0).
  exists st0. repeat split; congruence.
Qed.

Lemma sameSubjects_setResult (status : gmap string ResourceStatus) (k : string)
    (st : ResourceStatus) (action : ResourceAction) (err : string) :
  status !! k = Some st -> sameSubjects status (<[k := setResult st action err]> status).
Proof.
  intros Hst k' st' Hk'. rewrite lookup_insert in Hk'.
  destruct (decide (k = k')) as [<- | Hne]; [|eauto].
  injection Hk' as <-. exists st. auto.
Qed.

Lemma installCRDs_subjects (rs : option ResourceSet) (crds crds' : list Unstructured)
    (status status' : gmap string ResourceStatus) (w w' : World K) :
  installCRDs rs crds status w = (Returns (crds', status'), w') ->
  sameSubjects status status'.
Proof.
  revert crds' status status' w w'.
  induction crds as [|crd crds IH]; intros crds' status status' w w'.
  - intros [= _ <- _]. apply sameSubjects_refl.
  - cbn [installCRDs]. intros H.
    apply bind_inv in H as ([[crd1 action] err] & w1 & _ & H). cbn beta iota zeta in H.
    apply bind_inv in H as (st & w2 & Hst & H). apply deref_inv in Hst as [Hst ->].
    apply bind_inv in H as ([rest status1] & w3 & Hrest & H).
    injection H as _ <- _.
    eapply sameSubjects_trans; [|exact (IH _ _ _ _ _ Hrest)].
    now apply sameSubjects_setResult.
Qed.

Lemma applyRegulars_subjects (rs : option ResourceSet) (i : nat)
    (regulars regulars' : list Unstructured) (status status' : gmap string ResourceStatus)
    (cur cur' : nat) (w w' : World K) :
  applyRegulars rs i regulars status cur w = (Returns (regulars', status', cur'), w') ->
  sameSubjects status status'.
Proof.
  revert regulars' status status' cur cur' w w'.
  induction regulars as [|r regulars IH]; intros regulars' status status' cur cur' w w'.
  - intros [= _ <- _ _]. apply sameSubjects_refl.
  - cbn [applyRegulars]. intros H. cbn zeta in H.
    apply bind_inv in H as (skip & w0 & _ & H). destruct skip.
    + apply bind_inv in H as ([[rest status1] cur1] & w3 & Hrest & H).
      injection H as _ <- _ _. exact (IH _ _ _ _ _ _ _ Hrest).
    + apply bind_inv in H as ([[r1 action] err] & w1 & _ & H). cbn beta iota in H.
      apply bind_inv in H as (st & w2 & Hst & H). apply deref_inv in Hst as [Hst ->].
      apply bind_inv in H as ([[rest status1] cur1] & w3 & Hrest & H).
      injection H as _ <- _ _.
      eapply sameSubjects_trans; [|exact (IH _ _ _ _ _ _ _ Hrest)].
      now apply sameSubjects_setResult.
Qed.

Lemma retryLoop_subjects (rs : option ResourceSet) (n : nat) :
  forall (i : nat) (regulars regulars' : list Unstructured)
         (status status' : gmap string ResourceStatus) (prev : nat) (w w' : World K),
    retryLoop n rs i regulars status prev w = (Returns (regulars', status'), w') ->
    sameSubjects status status'.
Proof.
  induction n as [|n IH]; intros i regulars regulars' status status' prev w w'.
  - intros [= _ <- _]. apply sameSubjects_refl.
  - cbn [retryLoop]. intros H.
    apply bind_inv in H as ([[regulars1 status1] cur] & w1 & Hpass & H). cbn beta iota in H.
    pose proof (applyRegulars_subjects _ _ _ _ _ _ _ _ _ _ Hpass) as Hsame.
    destruct ((cur =? 0)%nat || (cur =? prev)%nat).
    + now injection H as _ <- _.
    + eapply sameSubjects_trans; [exact Hsame | exact (IH _ _ _ _ _ _ _ _ H)].
Qed.

Lemma initStatus_subjects_from (resources : list Unstructured)
    (m : gmap string ResourceStatus) (P : string -> ResourceStatus -> Prop) :
  (forall k st, m !! k = Some st -> P k st) ->
  (forall r, In r resources ->
     P (resourceKey r) {| stNamespace := GetNamespace r; stName := GetName r;
                          stAction := ResourceActionNone; stError := "" |}) ->
  forall k st,
    fold_left
      (fun status r =>
         <[resourceKey r :=
             {| stNamespace := GetNamespace r; stName := GetName r;
                stAction := ResourceActionNone; stError := "" |}]> status)
      resources m !! k = Some st ->
    P k st.
Proof.
  revert m. induction resources as [|r resources IH]; intros m Hm Hres k st; cbn [fold_left].
  - apply Hm.
  - apply IH.
    + intros k' st' Hk'. rewrite lookup_insert in Hk'.
      destruct (decide (resourceKey r = k')) as [<- | Hne]; [|now apply Hm].
      injection Hk' as <-. apply Hres. now left.
    + intros r' Hin. apply Hres. now right.
Qed.

Lemma initStatus_subjects (resources : list Unstructured) (k : string) (st : ResourceStatus) :
  initStatus resources !! k = Some st ->
  exists r, In r resources /\ resourceKey r = k /\ statusOf r st.
Proof.
  apply (initStatus_subjects_from resources ∅
           (fun k st => exists r, In r resources /\ resourceKey r = k /\ statusOf r st)).
  - intros k' st' Hk'. rewrite lookup_empty in Hk'. discriminate.
  - intros r Hin. exists r. repeat split; auto.
Qed.

Lemma applyAll_status (rs : option ResourceSet) (opts : ApplyOptions)
    (resources : list Unstructured) (applied : Applied) (err : option error) (w w' : World K) :
  applyAll rs opts resources w = (Returns (applied, err), w') ->
  sameSubjects (initStatus resources) (appliedStatus applied) /\
  (forall k, is_Some (initStatus resources !! k) -> is_Some (appliedStatus applied !! k)).
Proof.
  intros Hrun.
  destruct (applyAll_install rs resources w)
    as (crds & status & w1 & evs1 & Hinstall & _ & _ & _ & _ & Hkeys & _).
  destruct (initStatus_covers resources) as [Hcover _].
  destruct (installCRDs_runs rs (filter resources isCustomResourceDefinition)
              (initStatus resources) w)
    as (crds0 & status0 & w0 & evs0 & Hinstall0 & _ & _ & _ & _ & Hdom0 & _).
  { intros r Hin. apply Hcover. now apply filter_In_crd in Hin. }
  rewrite Hinstall in Hinstall0. injection Hinstall0 as <- <- <-.
  pose proof (installCRDs_subjects _ _ _ _ _ _ _ Hinstall) as Hsame1.
  destruct (waitForCRDs_returns crds w1) as ([e|] & w2 & Hwait & _).
  - rewrite (applyAll_gate_fails rs opts _ _ _ _ _ _ _ Hinstall Hwait) in Hrun.
    injection Hrun as <- _ _. cbn. auto.
  - set (regulars := filter resources (fun r => negb (isCustomResourceDefinition r))).
    destruct (retryLoop_runs rs 10 0 regulars status 0 w2)
      as (regulars' & status' & w3 & evs2 & Hloop & _ & _ & Hdom & _).
    { intros r Hin. apply Hkeys. now apply filter_In_crd in Hin. }
    { apply List.Forall_forall. intros r Hin. apply filter_In_crd in Hin as [_ Hr].
      now apply negb_true_iff. }
    rewrite (applyAll_gate_passes rs opts _ _ _ _ _ _ _ _ _ Hinstall Hwait Hloop) in Hrun.
    injection Hrun as <- _ _. cbn. split.
    + eapply sameSubjects_trans; [exact Hsame1 | exact (retryLoop_subjects _ _ _ _ _ _ _ _ _ _ Hloop)].
    + intros k Hk. auto.
Qed.

End Status.

(** X16.  The status map [applyAll] leaves has an entry under the key of
    every resource of the batch, and every entry it has is under the key of
    a resource of the batch and carries the namespace and name of such a
    resource. *)
Theorem applyAll_status_covers_batch (K : Env) (rs : option ResourceSet) (opts : ApplyOptions)
    (resources : list Unstructured) (applied : Applied) (err : option error) (w w' : World K) :
  applyAll rs opts resources w = (Returns (applied, err), w') ->
  (forall r, In r resources -> is_Some (appliedStatus applied !! resourceKey r)) /\
  (forall k st, appliedStatus applied !! k = Some st ->
     exists r, In r resources /\ resourceKey r = k /\ statusOf r st).
Proof.
  intros Hrun. destruct (applyAll_status _ _ _ _ _ _ _ Hrun) as [Hsame Hdom].
  destruct (initStatus_covers resources) as [Hcover _]. split.
  - intros r Hin. apply Hdom, Hcover, Hin.
  - intros k st Hk. destruct (Hsame k st Hk) as (st0 & Hk0 & Hns & Hname).
    destruct (initStatus_subjects resources k st0 Hk0) as (r & Hin & Hkey & Hns0 & Hname0).
    exists r. unfold statusOf. repeat split; congruence.
Qed.

Lemma applyAll_status_covers_batch_witness :
  is_Some (appliedStatus
             (match fst (applyAll None noOptions [robotCRD; configMap "a" []]
                           (fakeWorld (strictCluster []))) with
              | Returns (applied, _) => applied
              | Panics _ => {| appliedStatus := ∅; appliedCRDs := []; appliedRegulars := [] |}
              end) !! resourceKey (configMap "a" [])).
Proof.
  pose (run := applyAll (K:=fakeEnv) None noOptions [robotCRD; configMap "a" []]
                 (fakeWorld (strictCluster []))).
  assert (Hrun : exists applied err w', run = (Returns (applied, err), w')).
  { let v := eval vm_compute in run in
    match v with
    | (Returns (?a, ?e), ?w') => exists a, e, w'
    end.
    vm_compute. reflexivity. }
  destruct Hrun as (applied & err & w' & Hrun). fold run. rewrite Hrun. cbn [fst].
  apply (proj1 (applyAll_status_covers_batch fakeEnv None noOptions
                  [robotCRD; configMap "a" []] applied err
                  (fakeWorld (strictCluster [])) w' Hrun)).
  right. now left.
Defined.

(** ** A resource without a name *)

Section MissingName.
Context {K : Env}.

Lemma applyOne_missing_name (rs : option ResourceSet) (r : Unstructured) (replace : bool)
    (w : World K) :
  GetName r = "" ->
  applyOne rs r replace w
  = (Returns (r, ResourceActionNone, Some (errors_New "missing resource name")),
     {| σ := σ w; events := events w ++ [EvApply r replace] |}).
Proof.
  intros Hname. unfold applyOne.
  rewrite (run_bind _ _ w {| σ := σ w; events := events w ++ [EvApply r replace] |} tt)
    by reflexivity.
  rewrite Hname. reflexivity.
Qed.

Lemma skip_inv (i : nat) (st : option ResourceStatus) (skip : bool) (w w0 : World K) :
  (if (0 <? i)%nat then deref st ≫= (fun s => mret (String.eqb (stError s) ""))
   else mret false) w = (Returns skip, w0) ->
  w0 = w /\
  ((i =? 0)%nat = true /\ skip = false \/
   (i =? 0)%nat = false /\ exists s, st = Some s /\ skip = String.eqb (stError s) "").
Proof.
  destruct i as [|i]; cbn [Nat.ltb Nat.leb Nat.eqb].
  - intros [= <- <-]. auto.
  - intros H. apply bind_inv in H as (s & w1 & Hst & H). apply deref_inv in Hst as [-> ->].
    injection H as <- <-. split; [reflexivity|]. right. eauto.
Qed.

Lemma applyOne_key_of_run (rs : option ResourceSet) (r r' : Unstructured) (replace : bool)
    (action : ResourceAction) (err : option error) (w w' : World K) :
  applyOne rs r replace w = (Returns (r', action, err), w') ->
  resourceKey r' = resourceKey r.
Proof.
  intros Hrun. destruct (applyOne_spec_of_run _ _ _ _ _ _ _ _ Hrun) as (calls & _ & Hspec).
  destruct (applyOneSpec_resource _ _ _ _ _ _ _ _ Hspec) as (version & [-> | ->]); reflexivity.
Qed.

Lemma applyRegulars_frame (rs : option ResourceSet) (i : nat)
    (regulars regulars' : list Unstructured) (status status' : gmap string ResourceStatus)
    (cur cur' : nat) (w w' : World K) :
  applyRegulars rs i regulars status cur w = (Returns (regulars', status', cur'), w') ->
  map resourceKey regulars' = map resourceKey regulars /\
  (forall k, ~ In k (map resourceKey regulars) -> status' !! k = status !! k).
Proof.
  revert regulars' status status' cur cur' w w'.
  induction regulars as [|r regulars IH]; intros regulars' status status' cur cur' w w'.
  - intros [= <- <- _ _]. auto.
  - cbn [applyRegulars]. intros H. cbn zeta in H.
    apply bind_inv in H as (skip & w0 & _ & H). destruct skip.
    + apply bind_inv in H as ([[rest status1] cur1] & w3 & Hrest & H).
      injection H as <- <- _ _. destruct (IH _ _ _ _ _ _ _ Hrest) as [Hk Hf].
      split; [cbn; now rewrite Hk|]. intros k Hk'. apply Hf. intros Hin. apply Hk'. now right.
    + apply bind_inv in H as ([[r1 action] err] & w1 & Hone & H). cbn beta iota in H.
      apply bind_inv in H as (st & w2 & _ & H).
      apply bind_inv in H as ([[rest status1] cur1] & w3 & Hrest & H).
      injection H as <- <- _ _. destruct (IH _ _ _ _ _ _ _ Hrest) as [Hk Hf].
      split; [cbn; now rewrite Hk, (applyOne_key_of_run _ _ _ _ _ _ _ _ Hone)|].
      intros k Hk'. rewrite Hf by (intros Hin; apply Hk'; now right).
      apply lookup_insert_ne. intros <-. apply Hk'. now left.
Qed.

(** One pass and a resource without a name: attempted, it is recorded as
    such; not attempted, its entry stays. *)
Lemma applyRegulars_missing_name (rs : option ResourceSet) (i : nat) (r : Unstructured)
    (regulars regulars' : list Unstructured) (status status' : gmap string ResourceStatus)
    (cur cur' : nat) (w w' : World K) :
  applyRegulars rs i regulars status cur w = (Returns (regulars', status', cur'), w') ->
  List.NoDup (map resourceKey regulars) -> In r regulars -> GetName r = "" ->
  In r regulars' /\
  if (i =? 0)%nat || failing status r
  then exists st, status' !! resourceKey r = Some st /\ missingNameStatus st
  else status' !! resourceKey r = status !! resourceKey r.
Proof.
  revert regulars' status status' cur cur' w w'.
  induction regulars as [|x regulars IH]; intros regulars' status status' cur cur' w w';
    [intros _ _ []|].
  cbn [applyRegulars]. intros H Hnd Hin Hname. cbn zeta in H.
  cbn [map] in Hnd. apply List.NoDup_cons_iff in Hnd as [Hfresh Hnd].
  apply bind_inv in H as (skip & w0 & Hskip & H).
  apply skip_inv in Hskip as [-> Hskip].
  assert (Hother : In r regulars -> resourceKey r <> resourceKey x).
  { intros Hr E. apply Hfresh. rewrite <- E. now apply in_map. }
  destruct skip.
  - apply bind_inv in H as ([[rest status1] cur1] & w3 & Hrest & H).
    injection H as <- <- _ _.
    destruct Hin as [<- | Hin].
    + split; [now left|].
      destruct Hskip as [[_ Hs] | (Hi & s & Hst & Hs)]; [discriminate Hs|].
      unfold failing. rewrite Hi, Hst, <- Hs. cbn.
      destruct (applyRegulars_frame _ _ _ _ _ _ _ _ _ _ Hrest) as [_ Hf].
      rewrite (Hf _ Hfresh). exact Hst.
    + destruct (IH _ _ _ _ _ _ _ Hrest Hnd Hin Hname) as [Hin' Hentry].
      split; [now right | exact Hentry].
  - apply bind_inv in H as ([[r1 action] err] & w1 & Hone & H). cbn beta iota in H.
    apply bind_inv in H as (st & w2 & Hst & H). apply deref_inv in Hst as [Hst ->].
    apply bind_inv in H as ([[rest status1] cur1] & w3 & Hrest & H).
    injection H as <- <- _ _.
    destruct (applyRegulars_frame _ _ _ _ _ _ _ _ _ _ Hrest) as [_ Hf].
    destruct Hin as [<- | Hin].
    + rewrite (applyOne_missing_name rs x true w Hname) in Hone.
      injection Hone as <- <- <- _. split; [now left|].
      assert (Hdue : (i =? 0)%nat || failing status x = true).
      { destruct Hskip as [[-> _] | (Hi & s & Hst' & Hs)]; [reflexivity|].
        unfold failing. rewrite Hst. rewrite Hst in Hst'. injection Hst' as <-.
        rewrite <- Hs. apply orb_true_r. }
      rewrite Hdue, (Hf _ Hfresh), lookup_insert_eq.
      eexists. split; [reflexivity|]. split; reflexivity.
    + destruct (IH _ _ _ _ _ _ _ Hrest Hnd Hin Hname) as [Hin' Hentry].
      split; [now right|].
      rewrite (failing_insert_other status _ _ r (Hother Hin)) in Hentry.
      destruct ((i =? 0)%nat || failing status r); [exact Hentry|].
      rewrite Hentry. apply lookup_insert_ne. intros E. now apply (Hother Hin).
Qed.

Lemma missingName_failing (status : gmap string ResourceStatus) (r : Unstructured)
    (st : ResourceStatus) :
  status !! resourceKey r = Some st -> missingNameStatus st -> failing status r = true.
Proof. intros Hst [_ Herr]. unfold failing. now rewrite Hst, Herr. Qed.

Lemma retryLoop_missing_name (rs : option ResourceSet) (r : Unstructured) (n : nat) :
  forall (i : nat) (regulars regulars' : list Unstructured)
         (status status' : gmap string ResourceStatus) (prev : nat) (w w' : World K),
    retryLoop n rs i regulars status prev w = (Returns (regulars', status'), w') ->
    List.NoDup (map resourceKey regulars) -> In r regulars -> GetName r = "" ->
    (i = 0%nat /\ (1 <= n)%nat) \/
    (exists st, status !! resourceKey r = Some st /\ missingNameStatus st) ->
    exists st, status' !! resourceKey r = Some st /\ missingNameStatus st.
Proof.
  induction n as [|n IH]; intros i regulars regulars' status status' prev w w'.
  - intros [= _ <- _] _ _ _ [[_ Hn] | Hinv]; [lia | exact Hinv].
  - cbn [retryLoop]. intros H Hnd Hin Hname Hstart.
    apply bind_inv in H as ([[regulars1 status1] cur] & w1 & Hpass & H). cbn beta iota in H.
    destruct (applyRegulars_missing_name _ _ _ _ _ _ _ _ _ _ _ Hpass Hnd Hin Hname)
      as [Hin1 Hentry].
    assert (Hdue : (i =? 0)%nat || failing status r = true).
    { destruct Hstart as [[-> _] | (st & Hst & Hmiss)]; [reflexivity|].
      rewrite (missingName_failing _ _ _ Hst Hmiss). apply orb_true_r. }
    rewrite Hdue in Hentry.
    destruct ((cur =? 0)%nat || (cur =? prev)%nat).
    + injection H as _ <- _. exact Hentry.
    + destruct (applyRegulars_frame _ _ _ _ _ _ _ _ _ _ Hpass) as [Hkeys _].
      apply (IH _ _ _ _ _ _ _ _ H); auto. now rewrite Hkeys.
Qed.

Lemma NoDup_filter_keys (l : list Unstructured) (f : Unstructured -> bool) :
  List.NoDup (map resourceKey l) -> List.NoDup (map resourceKey (filter l f)).
Proof.
  unfold filter. induction l as [|x l IH]; cbn; [auto|].
  intros Hnd. apply List.NoDup_cons_iff in Hnd as [Hfresh Hnd].
  destruct (f x); cbn; [|auto].
  apply List.NoDup_cons_iff. split; [|auto].
  intros Hin. apply Hfresh. apply in_map_iff in Hin as (y & <- & Hy).
  apply filter_In in Hy as [Hy _]. now apply in_map.
Qed.

End MissingName.

(** X17.  In a batch with distinct keys, a resource that is not a CRD and
    has no name ends, whenever [applyAll] gets past the gate, with the
    action None and the error "missing resource name" in its status,
    whatever the cluster does; it does not make [applyAll] fail. *)
Theorem applyAll_records_missing_name (K : Env) (rs : option ResourceSet)
    (opts : ApplyOptions) (resources : list Unstructured) (r : Unstructured)
    (applied : Applied) (w w' : World K) :
  applyAll rs opts resources w = (Returns (applied, None), w') ->
  List.NoDup (map resourceKey resources) ->
  In r resources -> isCustomResourceDefinition r = false -> GetName r = "" ->
  exists st, appliedStatus applied !! resourceKey r = Some st /\ missingNameStatus st.
Proof.
  unfold applyAll. intros H Hnd Hin Hcrd Hname.
  apply bind_inv in H as ([crds status] & w1 & _ & H). cbn beta iota in H.
  apply bind_inv in H as ([e|] & w2 & _ & H); [discriminate H|].
  apply bind_inv in H as ([regulars status'] & w3 & Hloop & H).
  injection H as <- _. cbn [appliedStatus].
  apply (retryLoop_missing_name rs r _ _ _ _ _ _ _ _ _ Hloop).
  - now apply NoDup_filter_keys.
  - apply filter_In. split; [exact Hin | now rewrite Hcrd].
  - exact Hname.
  - left. split; [reflexivity | lia].
Qed.

Lemma applyAll_records_missing_name_witness :
  exists applied w' st,
    applyAll None noOptions [configMap "a" []; configMap "" []] (fakeWorld emptyCluster)
    = (Returns (applied, None), w') /\
    appliedStatus applied !! resourceKey (configMap "" []) = Some st /\
    missingNameStatus st.
Proof.
  pose (run := applyAll (K:=fakeEnv) None noOptions [configMap "a" []; configMap "" []]
                 (fakeWorld emptyCluster)).
  assert (Hrun : exists applied w', run = (Returns (applied, None), w')).
  { let v := eval vm_compute in run in
    match v with
    | (Returns (?a, None), ?w') => exists a, w'
    end.
    vm_compute. reflexivity. }
  destruct Hrun as (applied & w' & Hrun).
  destruct (applyAll_records_missing_name fakeEnv None noOptions
              [configMap "a" []; configMap "" []] (configMap "" []) applied
              (fakeWorld emptyCluster) w' Hrun) as (st & Hst & Hmiss).
  - repeat constructor; vm_compute; intuition discriminate.
  - right. now left.
  - reflexivity.
  - reflexivity.
  - exists applied, w', st. auto.
Defined.

(** ** Records of other batches *)

Section OtherRecords.

Lemma scanVersions_filter (name : string) (items : list Unstructured) (cur : Z) :
  Forall (fun r => exists d, decodeResourceSetName (GetName r) = Returns d) items ->
  scanVersions name items cur
  = scanVersions name (List.filter (decodesToName name) items) cur.
Proof.
  intros Hall. revert cur. induction Hall as [|r items [[[n v] ok] Hd] _ IH]; intros cur;
    [reflexivity|].
  cbn [scanVersions List.filter]. unfold decodesToName. rewrite Hd.
  cbn [mbind Outcome_mbind Outcome_bind].
  destruct ok; [|cbn; apply IH].
  destruct (String.eqb n name) eqn:E; [|cbn; apply IH].
  cbn [scanVersions]. rewrite Hd. cbn [mbind Outcome_mbind Outcome_bind]. rewrite E. cbn.
  destruct (cur <? v); apply IH.
Qed.

End OtherRecords.

(** X18.  Records that do not belong to the batch do not bear on its next
    version: when every listed name decodes without panic, [nextVersion]
    gives the same result on the listing as on its records that decode to
    the base name. *)
Theorem nextVersion_ignores_other_records (name : string) (items : list Unstructured) :
  Forall (fun r => exists d, decodeResourceSetName (GetName r) = Returns d) items ->
  nextVersion name items = nextVersion name (List.filter (decodesToName name) items).
Proof.
  intros Hall. unfold nextVersion. now rewrite (scanVersions_filter name items 0 Hall).
Qed.

Lemma nextVersion_ignores_other_records_witness :
  nextVersion "app" (map listedResourceSet ["other.v9"; "app.v3"; "junk"; "app.v1"])
  = nextVersion "app" (map listedResourceSet ["app.v3"; "app.v1"]).
Proof.
  apply (nextVersion_ignores_other_records "app"
           (map listedResourceSet ["other.v9"; "app.v3"; "junk"; "app.v1"])).
  repeat constructor; eexists; vm_compute; reflexivity.
Defined.

(** * The retry loop within [applyAll] *)

Section RetryLoop.
Context {K : Env}.

Lemma applyAll_converges (rs : option ResourceSet) (opts : ApplyOptions)
    (resources crds : list Unstructured) (status : gmap string ResourceStatus)
    (w w1 w2 : World K) :
  List.NoDup (map resourceKey
                (filter resources (fun r => negb (isCustomResourceDefinition r)))) ->
  installCRDs rs (filter resources isCustomResourceDefinition) (initStatus resources) w
  = (Returns (crds, status), w1) ->
  waitForCRDs crds w1 = (Returns None, w2) ->
  exists regulars' status' w' passes,
    applyAll rs opts resources w
    = (Returns ({| appliedStatus := status'; appliedCRDs := crds;
                   appliedRegulars := regulars' |}, None), w') /\
    Converges rs 0 0
      (filter resources (fun r => negb (isCustomResourceDefinition r)), status, w2)
      (regulars', status', w') passes /\
    (1 <= passes <= 10)%nat.
Proof.
  intros Hnd Hinstall Hwait.
  destruct (applyAll_install rs resources w)
    as (crds0 & status0 & w0 & evs & Hinstall0 & _ & _ & _ & _ & Hkeys & _).
  rewrite Hinstall in Hinstall0. injection Hinstall0 as <- <- <-.
  destruct (retryLoop_converges rs 10 0
              (filter resources (fun r => negb (isCustomResourceDefinition r)))
              status 0 w2 ltac:(lia) ltac:(lia) Hnd)
    as (regulars' & status' & w' & passes & Hloop & Hconv & Hpasses).
  { intros r Hr. apply Hkeys. now apply filter_In_crd in Hr as [Hr _]. }
  exists regulars', status', w', passes. split; [|auto].
  exact (applyAll_gate_passes rs opts _ _ _ _ _ _ _ _ _ Hinstall Hwait Hloop).
Qed.

(** A pass whose count of failures is not the number of resources left
    with an error is none of [Pass]. *)
Lemma Converges_count (rs : option ResourceSet) (i prev : nat) (c c' : Config (K:=K))
    (passes : nat) :
  Converges rs i prev c c' passes ->
  match applyRegulars rs i (fst (fst c)) (snd (fst c)) 0%nat (snd c) with
  | (Returns (regulars', status', cur), _) => cur = failureCount status' regulars'
  | (Panics _, _) => False
  end.
Proof.
  intros H. destruct H as [i prev c c' failures _ Hpass _ | i prev c c' failures c'' passes _ Hpass _ _ _];
    destruct Hpass as [regulars status w regulars' status' w' evs Hrun _ _ _];
    cbn [fst snd]; rewrite Hrun; reflexivity.
Qed.

End RetryLoop.

(** C3, as amended.  Let the resources of the batch that are not CRDs have
    pairwise distinct keys, and let the CRD phase and the wait of
    [applyAll] have passed.  Then [applyAll] returns what its retry loop
    leaves, after at least one and at most ten passes over these resources;
    pass 0 attempts every one of them and a later pass exactly those whose
    last recorded error is not empty, in order; and the loop stops after the
    first pass that leaves no resource with a non-empty error, or as many as
    the pass before. *)
Theorem retry_loop_passes (K : Env) (rs : option ResourceSet) (opts : ApplyOptions)
    (resources crds : list Unstructured) (status : gmap string ResourceStatus)
    (w w1 w2 : World K) :
  List.NoDup (map resourceKey
                (filter resources (fun r => negb (isCustomResourceDefinition r)))) ->
  installCRDs rs (filter resources isCustomResourceDefinition) (initStatus resources) w
  = (Returns (crds, status), w1) ->
  waitForCRDs crds w1 = (Returns None, w2) ->
  exists regulars' status' w' passes,
    applyAll rs opts resources w
    = (Returns ({| appliedStatus := status'; appliedCRDs := crds;
                   appliedRegulars := regulars' |}, None), w') /\
    Converges rs 0 0
      (filter resources (fun r => negb (isCustomResourceDefinition r)), status, w2)
      (regulars', status', w') passes /\
    (1 <= passes <= 10)%nat.
Proof. apply applyAll_converges. Qed.

Lemma retry_loop_passes_witness :
  exists regulars' status' w' passes,
    applyAll None noOptions [configMap "a" []; configMap "" []] (fakeWorld emptyCluster)
    = (Returns ({| appliedStatus := status'; appliedCRDs := [];
                   appliedRegulars := regulars' |}, None), w') /\
    Converges None 0 0
      ([configMap "a" []; configMap "" []], initStatus [configMap "a" []; configMap "" []],
       fakeWorld emptyCluster)
      (regulars', status', w') passes /\
    (1 <= passes <= 10)%nat.
Proof.
  apply (retry_loop_passes fakeEnv None noOptions [configMap "a" []; configMap "" []] []
           (initStatus [configMap "a" []; configMap "" []])
           (fakeWorld emptyCluster) (fakeWorld emptyCluster) (fakeWorld emptyCluster)).
  - repeat constructor; vm_compute; intuition discriminate.
  - reflexivity.
  - reflexivity.
Defined.

(** C3, as stated, fails on resources that share a key, here
    /v1/ConfigMap/x/y/.  Over the nameless resource and then the other, pass
    0 counts one failure although it leaves no resource with an error, and
    the loop goes on to a second pass: the run is none that stops after the
    first pass without an error left.  Over the two in the other order, the
    resource applied with success in pass 0 is applied again in pass 1, and
    the one that failed in pass 0 is not. *)
Lemma retry_loop_shared_key :
  resourceKey namelessMap = resourceKey slashMap /\
  (exists regulars' status' w',
     applyRegulars None 0 [namelessMap; slashMap] (initStatus [namelessMap; slashMap]) 0
       (fakeWorld emptyCluster)
     = (Returns (regulars', status', 1%nat), w') /\
     failureCount status' regulars' = 0%nat) /\
  ~ (exists c' passes,
       Converges None 0 0
         ([namelessMap; slashMap], initStatus [namelessMap; slashMap], fakeWorld emptyCluster)
         c' passes) /\
  (exists r' w',
     applyOne None slashMap true (fakeWorld emptyCluster)
     = (Returns (r', ResourceActionCreate, None), w')) /\
  attempts (events (snd (applyAll None noOptions [slashMap; namelessMap]
                           (fakeWorld emptyCluster))))
  = [(slashMap, true); (namelessMap, true); (slashMap, true)].
Proof.
  pose (pass0 := applyRegulars (K:=fakeEnv) None 0 [namelessMap; slashMap]
                   (initStatus [namelessMap; slashMap]) 0 (fakeWorld emptyCluster)).
  assert (Hpass : exists regulars' status' w',
             pass0 = (Returns (regulars', status', 1%nat), w') /\
             failureCount status' regulars' = 0%nat).
  { let v := eval vm_compute in pass0 in
    match v with
    | (Returns (?r, ?s, _), ?w') => exists r, s, w'
    end.
    split; vm_compute; reflexivity. }
  split; [vm_compute; reflexivity|].
  split; [exact Hpass|].
  split.
  - intros (c' & passes & Hconv). apply Converges_count in Hconv. cbn [fst snd] in Hconv.
    destruct Hpass as (regulars' & status' & w' & Hrun & Hcount).
    fold pass0 in Hconv. rewrite Hrun in Hconv. rewrite Hcount in Hconv. discriminate Hconv.
  - split; [|vm_compute; reflexivity].
    pose (one := applyOne (K:=fakeEnv) None slashMap true (fakeWorld emptyCluster)).
    let v := eval vm_compute in one in
    match v with
    | (Returns (?r, _, _), ?w') => exists r, w'
    end.
    vm_compute. reflexivity.
Qed.

(** * What the CRD phase records *)

Section CRDStatus.
Context {K : Env}.

Lemma installCRDs_app_inv (rs : option ResourceSet) (l1 l2 : list Unstructured) :
  forall (status status' : gmap string ResourceStatus) (crds' : list Unstructured)
         (w w' : World K),
    installCRDs rs (l1 ++ l2) status w = (Returns (crds', status'), w') ->
    exists crds1 status1 w1 crds2,
      installCRDs rs l1 status w = (Returns (crds1, status1), w1) /\
      installCRDs rs l2 status1 w1 = (Returns (crds2, status'), w') /\
      crds' = crds1 ++ crds2.
Proof.
  induction l1 as [|crd l1 IH]; intros status status' crds' w w' H.
  - exists [], status, w, crds'. auto.
  - cbn [app installCRDs] in H. cbn zeta in H.
    apply bind_inv in H as ([[crd' action] err] & wa & Hone & H). cbn beta iota in H.
    apply bind_inv in H as (st & wb & Hst & H).
    apply bind_inv in H as ([rest status2] & wc & Hrest & H).
    injection H as <- <- <-.
    destruct (IH _ _ _ _ _ Hrest) as (crds1 & status1 & w1 & crds2 & H1 & H2 & ->).
    exists (crd' :: crds1), status1, w1, crds2. split; [|auto].
    cbn [installCRDs]. cbn zeta.
    unfold mbind, M_mbind in *. rewrite Hone. cbn beta iota. rewrite Hst. cbn beta iota.
    rewrite H1. reflexivity.
Qed.

Lemma installCRDs_frame (rs : option ResourceSet) (crds : list Unstructured) :
  forall (status status' : gmap string ResourceStatus) (crds' : list Unstructured)
         (w w' : World K),
    installCRDs rs crds status w = (Returns (crds', status'), w') ->
    forall k, ~ In k (map resourceKey crds) -> status' !! k = status !! k.
Proof.
  induction crds as [|crd crds IH]; intros status status' crds' w w' H k Hk.
  - injection H as _ <- _. reflexivity.
  - cbn [installCRDs] in H. cbn zeta in H.
    apply bind_inv in H as ([[crd' action] err] & wa & Hone & H). cbn beta iota in H.
    apply bind_inv in H as (st & wb & Hst & H).
    apply bind_inv in H as ([rest status2] & wc & Hrest & H).
    injection H as _ <- _.
    rewrite (IH _ _ _ _ _ Hrest k) by (intros Hin; apply Hk; now right).
    apply lookup_insert_ne. intros <-. apply Hk. now left.
Qed.

Lemma retryLoop_frame (rs : option ResourceSet) (n : nat) :
  forall (i : nat) (regulars regulars' : list Unstructured)
         (status status' : gmap string ResourceStatus) (prev : nat) (w w' : World K),
    retryLoop n rs i regulars status prev w = (Returns (regulars', status'), w') ->
    forall k, ~ In k (map resourceKey regulars) -> status' !! k = status !! k.
Proof.
  induction n as [|n IH]; intros i regulars regulars' status status' prev w w' H k Hk.
  - injection H as _ <- _. reflexivity.
  - cbn [retryLoop] in H.
    apply bind_inv in H as ([[regulars1 status1] cur] & w1 & Hpass & H). cbn beta iota in H.
    destruct (applyRegulars_frame _ _ _ _ _ _ _ _ _ _ Hpass) as [Hkeys Hframe].
    destruct ((cur =? 0)%nat || (cur =? prev)%nat).
    + injection H as _ <- _. now apply Hframe.
    + rewrite (IH _ _ _ _ _ _ _ _ H k) by now rewrite Hkeys. now apply Hframe.
Qed.

Lemma Fetched_functional (resource : Unstructured) (c0 : cluster K)
    (client client' : ResourceInterface) (got got' : Unstructured + error)
    (c2 c2' : cluster K) (calls calls' : list Call) :
  Fetched resource c0 client got c2 calls -> Fetched resource c0 client' got' c2' calls' ->
  client' = client /\ got' = got /\ c2' = c2 /\ calls' = calls.
Proof.
  intros (mapping & c1 & _ & Hmap & -> & Hget & ->) (mapping' & c1' & _ & Hmap' & -> & Hget' & ->).
  rewrite Hmap in Hmap'. injection Hmap' as <- <-.
  rewrite Hget in Hget'. injection Hget' as <- <-. auto.
Qed.

(** An update that the store rejects, replace disabled: the action is
    Update, the error that of the update, and the calls end with it. *)
Lemma applyOneSpec_update_rejected (resource r' : Unstructured) (c0 c' : cluster K)
    (action : ResourceAction) (err : option error) (calls : list Call)
    (client : ResourceInterface) (prev : Unstructured) (c2 c3 : cluster K)
    (calls0 : list Call) (e0 : error) :
  applyOneSpec resource false c0 r' action err c' calls ->
  Fetched resource c0 client (inl prev) c2 calls0 ->
  client_Update K client (SetResourceVersion (GetResourceVersion prev) resource) c2
  = (inr e0, c3) ->
  action = ResourceActionUpdate /\ err = Some (errors_Wrap e0 "update resource") /\
  calls = calls0 ++ [CallUpdate client (SetResourceVersion (GetResourceVersion prev) resource)]
  /\ c' = c3.
Proof.
  intros Hspec Hfetch Hupdate.
  destruct Hspec as
    [Hname | e c1 gvk Hname Hmap | cl e ca cs res cb Hf _ _ | cl e ca cs Hf _
     | cl pv ca cs updated cb desired Hf Hup | cl pv ca cs e cb desired Hf Hup _
     | cl pv ca cs e cb e' cd desired Hf _ Hfalse _
     | cl pv ca cs e cb cd res ce desired fresh Hf _ Hfalse _ _].
  - destruct Hfetch as (? & ? & Hne & _). contradiction.
  - destruct Hfetch as (mapping & c1' & _ & Hmap' & _). subst gvk.
    rewrite Hmap in Hmap'. discriminate Hmap'.
  - destruct (Fetched_functional _ _ _ _ _ _ _ _ _ _ Hfetch Hf) as (_ & Hgot & _). discriminate Hgot.
  - destruct (Fetched_functional _ _ _ _ _ _ _ _ _ _ Hfetch Hf) as (_ & Hgot & _). discriminate Hgot.
  - destruct (Fetched_functional _ _ _ _ _ _ _ _ _ _ Hfetch Hf) as (-> & [= ->] & -> & ->).
    subst desired. rewrite Hupdate in Hup. discriminate Hup.
  - destruct (Fetched_functional _ _ _ _ _ _ _ _ _ _ Hfetch Hf) as (-> & [= ->] & -> & ->).
    subst desired. rewrite Hupdate in Hup. injection Hup as <- <-. auto.
  - discriminate Hfalse.
  - discriminate Hfalse.
Qed.

Lemma filter_split_crd (before after : list Unstructured) (crd : Unstructured) :
  isCustomResourceDefinition crd = true ->
  filter (before ++ crd :: after) isCustomResourceDefinition
  = filter before isCustomResourceDefinition ++ crd :: filter after isCustomResourceDefinition.
Proof.
  intros Hcrd. unfold filter. rewrite filter_app_list. cbn. now rewrite Hcrd.
Qed.

Lemma key_not_in_filter (l : list Unstructured) (f : Unstructured -> bool) (k : string) :
  ~ In k (map resourceKey l) -> ~ In k (map resourceKey (filter l f)).
Proof.
  intros Hk Hin. apply Hk. apply in_map_iff in Hin as (r & <- & Hr).
  apply in_map. unfold filter in Hr. now apply filter_In in Hr as [Hr _].
Qed.

Lemma key_not_in_app (l1 l2 : list Unstructured) (k : string) :
  ~ In k (map resourceKey (l1 ++ l2)) ->
  ~ In k (map resourceKey l1) /\ ~ In k (map resourceKey l2).
Proof.
  rewrite map_app. intros Hk. split; intros Hin; apply Hk; apply in_app_iff; auto.
Qed.

Lemma key_not_in_regulars (before after : list Unstructured) (crd : Unstructured) :
  isCustomResourceDefinition crd = true ->
  ~ In (resourceKey crd) (map resourceKey (before ++ after)) ->
  ~ In (resourceKey crd)
      (map resourceKey (filter (before ++ crd :: after)
                          (fun r => negb (isCustomResourceDefinition r)))).
Proof.
  intros Hcrd Hfresh Hin. apply in_map_iff in Hin as (r & Hkey & Hr).
  apply filter_In_crd in Hr as [Hr Hreg].
  apply Hfresh. rewrite <- Hkey. apply in_map.
  apply in_app_iff in Hr as [Hr | [<- | Hr]]; apply in_app_iff; auto.
  rewrite Hcrd in Hreg. discriminate Hreg.
Qed.

Lemma unique_key_resource (before after : list Unstructured) (crd r : Unstructured) :
  ~ In (resourceKey crd) (map resourceKey (before ++ after)) ->
  In r (before ++ crd :: after) -> resourceKey r = resourceKey crd -> r = crd.
Proof.
  intros Hfresh Hr Hkey.
  apply in_app_iff in Hr as [Hr | [<- | Hr]]; [|reflexivity|];
    exfalso; apply Hfresh; rewrite <- Hkey; apply in_map, in_app_iff; auto.
Qed.

(** The entry of a CRD whose key no other resource of the batch has: the
    result of its one application, from the world the CRDs before it have
    left. *)
Lemma applyAll_crd_status (rs : option ResourceSet) (opts : ApplyOptions)
    (before after : list Unstructured) (crd : Unstructured) (applied : Applied)
    (err : option error) (w w' : World K) :
  applyAll rs opts (before ++ crd :: after) w = (Returns (applied, err), w') ->
  isCustomResourceDefinition crd = true ->
  ~ In (resourceKey crd) (map resourceKey (before ++ after)) ->
  exists crds0 status0 w0 crd' action e w0' st,
    installCRDs rs (filter before isCustomResourceDefinition)
      (initStatus (before ++ crd :: after)) w
    = (Returns (crds0, status0), w0) /\
    applyOne rs crd false w0 = (Returns (crd', action, e), w0') /\
    appliedStatus applied !! resourceKey crd = Some st /\
    statusOf crd st /\ stAction st = action /\ stError st = errorString K e.
Proof.
  intros Hrun Hcrd Hfresh.
  destruct (key_not_in_app _ _ _ Hfresh) as [Hbefore Hafter].
  unfold applyAll in Hrun.
  apply bind_inv in Hrun as ([crds status1] & w1 & Hinstall & Hrun). cbn beta iota in Hrun.
  rewrite (filter_split_crd before after crd Hcrd) in Hinstall.
  apply installCRDs_app_inv in Hinstall
    as (crds0 & status0 & w0 & crds2 & Hfirst & Hsecond & ->).
  cbn [installCRDs] in Hsecond. cbn zeta in Hsecond.
  apply bind_inv in Hsecond as ([[crd' action] e] & w0' & Hone & Hsecond).
  cbn beta iota in Hsecond.
  apply bind_inv in Hsecond as (st0 & wb & Hst0 & Hsecond).
  apply deref_inv in Hst0 as [Hst0 ->].
  apply bind_inv in Hsecond as ([rest status2] & wc & Hrest & Hsecond).
  injection Hsecond as _ Hstatus _.
  assert (Hentry : status1 !! resourceKey crd
                   = Some (setResult st0 action (errorString K e))).
  { rewrite <- Hstatus.
    rewrite (installCRDs_frame _ _ _ _ _ _ _ Hrest (resourceKey crd))
      by now apply key_not_in_filter.
    apply lookup_insert_eq. }
  assert (Hfinal : appliedStatus applied !! resourceKey crd
                   = Some (setResult st0 action (errorString K e))).
  { apply bind_inv in Hrun as ([e1|] & w2 & _ & Hrun).
    - injection Hrun as <- _ _. exact Hentry.
    - apply bind_inv in Hrun as ([regulars' status'] & w3 & Hloop & Hrun).
      injection Hrun as <- _ _. cbn [appliedStatus].
      rewrite (retryLoop_frame _ _ _ _ _ _ _ _ _ _ Hloop (resourceKey crd)); [exact Hentry|].
      now apply key_not_in_regulars. }
  exists crds0, status0, w0, crd', action, e, w0', (setResult st0 action (errorString K e)).
  split; [exact Hfirst|]. split; [exact Hone|]. split; [exact Hfinal|].
  split; [|split; reflexivity].
  destruct (installCRDs_subjects _ _ _ _ _ _ _ Hfirst _ _ Hst0) as (st1 & Hst1 & Hns & Hname).
  destruct (initStatus_subjects _ _ _ Hst1) as (r & Hr & Hkey & Hrns & Hrname).
  rewrite (unique_key_resource _ _ _ _ Hfresh Hr Hkey) in Hrns, Hrname.
  split; cbn; congruence.
Qed.

End CRDStatus.

(** C5, as amended.  Whatever the cluster does, [applyAll] returns, and:
    every CRD of the batch goes through [applyOne] exactly once, with
    replace disabled; no delete is issued on behalf of a CRD; the status
    recorded under the key of a CRD that shares its key with no regular
    resource has an action other than Replace; and the status of a CRD that
    shares its key with no other resource of the batch records the result
    of its one application, made in the world that the CRDs before it have
    left.  In particular, when the object exists and the store rejects the
    update, the status records the action Update and the error of the
    update, and the calls made for the CRD are the fetch and the update
    alone. *)
Theorem crds_never_replaced (K : Env) (rs : option ResourceSet) (opts : ApplyOptions)
    (resources : list Unstructured) (w : World K) :
  exists applied err w' evs,
    applyAll rs opts resources w = (Returns (applied, err), w') /\
    events w' = events w ++ evs /\
    List.filter (fun a => isCustomResourceDefinition (fst a)) (attempts evs)
    = map (fun r => (r, false)) (filter resources isCustomResourceDefinition) /\
    (forall r c, In (EvCall r c) evs -> isCustomResourceDefinition r = true ->
                 isDelete c = false) /\
    (forall crd, In crd resources -> isCustomResourceDefinition crd = true ->
       (forall r, In r resources -> isCustomResourceDefinition r = false ->
                  resourceKey r <> resourceKey crd) ->
       exists st, appliedStatus applied !! resourceKey crd = Some st /\
                  stAction st <> ResourceActionReplace) /\
    (forall before crd after,
       resources = before ++ crd :: after -> isCustomResourceDefinition crd = true ->
       ~ In (resourceKey crd) (map resourceKey (before ++ after)) ->
       exists crds0 status0 w0 crd' action e w0' calls st,
         installCRDs rs (filter before isCustomResourceDefinition) (initStatus resources) w
         = (Returns (crds0, status0), w0) /\
         applyOne rs crd false w0 = (Returns (crd', action, e), w0') /\
         applyOneSpec crd false (σ w0) crd' action e (σ w0') calls /\
         appliedStatus applied !! resourceKey crd = Some st /\
         statusOf crd st /\ stAction st = action /\ stError st = errorString K e /\
         (forall client prev c2 calls0 e0 c3,
            Fetched crd (σ w0) client (inl prev) c2 calls0 ->
            client_Update K client (SetResourceVersion (GetResourceVersion prev) crd) c2
            = (inr e0, c3) ->
            stAction st = ResourceActionUpdate /\
            stError st = errorString K (Some (errors_Wrap e0 "update resource")) /\
            calls = calls0 ++
                    [CallUpdate client (SetResourceVersion (GetResourceVersion prev) crd)])).
Proof.
  destruct (applyAll_runs rs opts resources w)
    as (applied & err & w' & evs & Hrun & Hev & Hatt & Hdel & Haction).
  exists applied, err, w', evs. repeat (split; [assumption|]).
  intros before crd after -> Hcrd Hfresh.
  destruct (applyAll_crd_status rs opts before after crd applied err w w' Hrun Hcrd Hfresh)
    as (crds0 & status0 & w0 & crd' & action & e & w0' & st
        & Hfirst & Hone & Hst & Hsubject & Hact & Herr).
  destruct (applyOne_spec_of_run _ _ _ _ _ _ _ _ Hone) as (calls & _ & Hspec).
  exists crds0, status0, w0, crd', action, e, w0', calls, st.
  repeat (split; [assumption|]).
  intros client prev c2 calls0 e0 c3 Hfetch Hupdate.
  destruct (applyOneSpec_update_rejected _ _ _ _ _ _ _ _ _ _ _ _ _ Hspec Hfetch Hupdate)
    as (Ha & He & Hcalls & _).
  rewrite Hact, Herr, Ha, He. auto.
Qed.

Lemma crds_never_replaced_witness :
  exists applied err w' st,
    applyAll None noOptions [robotCRD; configMap "a" []]
      (fakeWorld (strictCluster [robotCRD; configMap "a" []]))
    = (Returns (applied, err), w') /\
    appliedStatus applied !! resourceKey robotCRD = Some st /\
    stAction st = ResourceActionUpdate /\
    stError st = "update resource: field is immutable".
Proof.
  pose (w := fakeWorld (strictCluster [robotCRD; configMap "a" []])).
  destruct (crds_never_replaced fakeEnv None noOptions [robotCRD; configMap "a" []] w)
    as (applied & err & w' & evs & Hrun & _ & _ & _ & _ & Hstatus).
  destruct (Hstatus [] robotCRD [configMap "a" []] eq_refl eq_refl)
    as (crds0 & status0 & w0 & crd' & action & e & w0' & calls & st
        & Hfirst & _ & _ & Hst & _ & _ & _ & Hrejected).
  { vm_compute. intuition discriminate. }
  cbn in Hfirst. injection Hfirst as _ _ <-.
  pose (client := {| riResource :=
                       {| gvrGroup := "apiextensions.k8s.io"; gvrVersion := "v1beta1";
                          gvrResource := "CustomResourceDefinition" |};
                     riNamespace := Some "" |}).
  destruct (Hrejected client robotCRD (σ w)
              [CallRESTMapping "apiextensions.k8s.io" "CustomResourceDefinition" "v1beta1";
               CallGet client "robots.example.com"]
              (StatusError "Invalid" "field is immutable") (σ w))
    as (Haction & Herror & _).
  - exists {| mappingResource := riResource client; mappingScopeIsRoot := false |}, (σ w).
    repeat split; vm_compute; congruence.
  - vm_compute. reflexivity.
  - exists applied, err, w', st. split; [exact Hrun|]. split; [exact Hst|].
    split; [exact Haction|]. rewrite Herror. vm_compute. reflexivity.
Defined.

(** C5, as stated, fails for a CRD that shares its key with a resource of
    another kind: the CRD robots/x is created, and the resource x of the
    namespace robots, applied with replace allowed on a cluster that rejects
    updates, is deleted and created afresh; the action recorded under the
    key of the CRD is Replace. *)
Lemma crd_key_shared_with_regular :
  isCustomResourceDefinition slashCRD = true /\
  isCustomResourceDefinition shadowOfCRD = false /\
  resourceKey shadowOfCRD = resourceKey slashCRD /\
  exists applied w' st,
    applyAll None noOptions [slashCRD; shadowOfCRD] (fakeWorld (strictCluster [shadowOfCRD]))
    = (Returns (applied, None), w') /\
    appliedStatus applied !! resourceKey slashCRD = Some st /\
    stAction st = ResourceActionReplace.
Proof.
  split; [reflexivity|]. split; [reflexivity|]. split; [vm_compute; reflexivity|].
  pose (run := applyAll (K:=fakeEnv) None noOptions [slashCRD; shadowOfCRD]
                 (fakeWorld (strictCluster [shadowOfCRD]))).
  pose (entry := match fst run with
                 | Returns (applied, _) => appliedStatus applied !! resourceKey slashCRD
                 | Panics _ => None
                 end).
  let v := eval vm_compute in run in
  match v with
  | (Returns (?a, None), ?w') =>
      let s := eval vm_compute in entry in
      match s with
      | Some ?st => exists a, w', st
      end
  end.
  repeat split; vm_compute; reflexivity.
Qed.

(** * Successive versions *)

Section Records.
Context {K : Env} (holds : cluster K -> list string -> Prop).
Hypothesis store : RecordStore K holds.

Lemma keepsRecords_refl (names : list string) (w : World K) : keepsRecords holds names w w.
Proof. split; [exists []; now rewrite app_nil_r | auto]. Qed.

Lemma keepsRecords_trans (names : list string) (w w1 w2 : World K) :
  keepsRecords holds names w w1 -> keepsRecords holds names w1 w2 ->
  keepsRecords holds names w w2.
Proof.
  intros [[evs1 Hev1] Hk1] [[evs2 Hev2] Hk2]. split.
  - exists (evs1 ++ evs2). now rewrite Hev2, Hev1, app_assoc.
  - intros Hall Hholds. apply Hk2; [exact Hall|]. apply Hk1; [|exact Hholds].
    rewrite Hev2 in Hall. now apply List.Forall_app in Hall as [Hall _].
Qed.

Lemma call_inv {A : Type} (f : cluster K -> A * cluster K) (a : A) (w w' : World K) :
  call f w = (Returns a, w') -> f (σ w) = (a, σ w') /\ events w' = events w.
Proof.
  unfold call. destruct (f (σ w)) as [a' c]. intros [= <- <-]. auto.
Qed.

(** A step that leaves the trace as it is. *)
Lemma keepsRecords_silent (names : list string) (w w' : World K) :
  events w' = events w -> (holds (σ w) names -> holds (σ w') names) ->
  keepsRecords holds names w w'.
Proof.
  intros Hev Hk. split; [exists []; now rewrite app_nil_r | auto].
Qed.

Lemma Fetched_keeps (names : list string) (resource : Unstructured) (c0 c2 : cluster K)
    (client : ResourceInterface) (got : Unstructured + error) (calls : list Call) :
  Fetched resource c0 client got c2 calls ->
  Forall sparesRecords (map (EvCall resource) calls) ->
  holds c0 names -> holds c2 names /\ riResource client <> resourceSetGVR.
Proof.
  intros (mapping & c1 & _ & Hmap & -> & Hget & ->) Hall Hholds.
  cbn [map] in Hall.
  apply List.Forall_cons_iff in Hall as [_ Hall].
  apply List.Forall_cons_iff in Hall as [Hclient _]. cbn in Hclient.
  split; [|exact Hclient].
  exact (store_Get K holds store c1 names (storeFor mapping resource) _ _ _ Hclient
           (store_RESTMapping K holds store _ _ _ _ _ _ _ Hholds Hmap) Hget).
Qed.

Lemma applyOneSpec_keeps (names : list string) (resource r' : Unstructured) (replace : bool)
    (c0 c' : cluster K) (action : ResourceAction) (err : option error) (calls : list Call) :
  applyOneSpec resource replace c0 r' action err c' calls ->
  Forall sparesRecords (map (EvCall resource) calls) ->
  holds c0 names -> holds c' names.
Proof.
  intros Hspec Hall Hholds.
  destruct Hspec as
    [Hname | e c1 gvk Hname Hmap | cl e ca cs res cb Hf _ Hcreate | cl e ca cs Hf _
     | cl pv ca cs updated cb desired Hf Hup | cl pv ca cs e cb desired Hf Hup _
     | cl pv ca cs e cb e' cd desired Hf Hup _ Hdel
     | cl pv ca cs e cb cd res ce desired fresh Hf Hup _ Hdel Hcreate];
    try rewrite map_app in Hall; try apply List.Forall_app in Hall as [Hcalls Hmore].
  - exact Hholds.
  - exact (store_RESTMapping K holds store _ _ _ _ _ _ _ Hholds Hmap).
  - destruct (Fetched_keeps names _ _ _ _ _ _ Hf Hcalls Hholds) as [H2 Hcl].
    exact (store_Create K holds store _ _ _ _ _ _ Hcl H2 Hcreate).
  - now destruct (Fetched_keeps names _ _ _ _ _ _ Hf Hall Hholds).
  - destruct (Fetched_keeps names _ _ _ _ _ _ Hf Hcalls Hholds) as [H2 Hcl].
    exact (store_Update K holds store _ _ _ _ _ _ Hcl H2 Hup).
  - destruct (Fetched_keeps names _ _ _ _ _ _ Hf Hcalls Hholds) as [H2 Hcl].
    exact (store_Update K holds store _ _ _ _ _ _ Hcl H2 Hup).
  - destruct (Fetched_keeps names _ _ _ _ _ _ Hf Hcalls Hholds) as [H2 Hcl].
    exact (store_Delete K holds store _ _ _ _ _ _ Hcl
             (store_Update K holds store _ _ _ _ _ _ Hcl H2 Hup) Hdel).
  - destruct (Fetched_keeps names _ _ _ _ _ _ Hf Hcalls Hholds) as [H2 Hcl].
    exact (store_Create K holds store _ _ _ _ _ _ Hcl
             (store_Delete K holds store _ _ _ _ _ _ Hcl
                (store_Update K holds store _ _ _ _ _ _ Hcl H2 Hup) Hdel) Hcreate).
Qed.

Lemma applyOne_keeps (names : list string) (rs : option ResourceSet) (resource r' : Unstructured)
    (replace : bool) (action : ResourceAction) (err : option error) (w w' : World K) :
  applyOne rs resource replace w = (Returns (r', action, err), w') ->
  keepsRecords holds names w w'.
Proof.
  intros Hrun. destruct (applyOne_spec_of_run _ _ _ _ _ _ _ _ Hrun) as (calls & Hev & Hspec).
  split; [eauto|]. intros Hall Hholds.
  apply (applyOneSpec_keeps names _ _ _ _ _ _ _ _ Hspec); [|exact Hholds].
  rewrite Hev in Hall. apply List.Forall_app in Hall as [_ Hall].
  now apply List.Forall_cons_iff in Hall as [_ Hall].
Qed.

Lemma installCRDs_keeps (names : list string) (rs : option ResourceSet)
    (crds : list Unstructured) :
  forall (status status' : gmap string ResourceStatus) (crds' : list Unstructured)
         (w w' : World K),
    installCRDs rs crds status w = (Returns (crds', status'), w') ->
    keepsRecords holds names w w'.
Proof.
  induction crds as [|crd crds IH]; intros status status' crds' w w' H.
  - injection H as _ _ <-. apply keepsRecords_refl.
  - cbn [installCRDs] in H. cbn zeta in H.
    apply bind_inv in H as ([[crd' action] err] & wa & Hone & H). cbn beta iota in H.
    apply bind_inv in H as (st & wb & Hst & H). apply deref_inv in Hst as [_ ->].
    apply bind_inv in H as ([rest status2] & wc & Hrest & H).
    injection H as _ _ <-.
    exact (keepsRecords_trans names _ _ _ (applyOne_keeps names _ _ _ _ _ _ _ _ Hone)
             (IH _ _ _ _ _ Hrest)).
Qed.

Lemma applyRegulars_keeps (names : list string) (rs : option ResourceSet) (i : nat)
    (regulars : list Unstructured) :
  forall (status status' : gmap string ResourceStatus) (regulars' : list Unstructured)
         (cur cur' : nat) (w w' : World K),
    applyRegulars rs i regulars status cur w = (Returns (regulars', status', cur'), w') ->
    keepsRecords holds names w w'.
Proof.
  induction regulars as [|r regulars IH]; intros status status' regulars' cur cur' w w' H.
  - injection H as _ _ _ <-. apply keepsRecords_refl.
  - cbn [applyRegulars] in H. cbn zeta in H.
    apply bind_inv in H as (skip & w0 & Hskip & H).
    apply skip_inv in Hskip as [-> _]. destruct skip.
    + apply bind_inv in H as ([[rest status1] cur1] & w3 & Hrest & H).
      injection H as _ _ _ <-. exact (IH _ _ _ _ _ _ _ Hrest).
    + apply bind_inv in H as ([[r1 action] err] & w1 & Hone & H). cbn beta iota in H.
      apply bind_inv in H as (st & w2 & Hst & H). apply deref_inv in Hst as [_ ->].
      apply bind_inv in H as ([[rest status1] cur1] & w3 & Hrest & H).
      injection H as _ _ _ <-.
      exact (keepsRecords_trans names _ _ _ (applyOne_keeps names _ _ _ _ _ _ _ _ Hone)
               (IH _ _ _ _ _ _ _ Hrest)).
Qed.

Lemma retryLoop_keeps (names : list string) (rs : option ResourceSet) (n : nat) :
  forall (i : nat) (regulars regulars' : list Unstructured)
         (status status' : gmap string ResourceStatus) (prev : nat) (w w' : World K),
    retryLoop n rs i regulars status prev w = (Returns (regulars', status'), w') ->
    keepsRecords holds names w w'.
Proof.
  induction n as [|n IH]; intros i regulars regulars' status status' prev w w' H.
  - injection H as _ _ <-. apply keepsRecords_refl.
  - cbn [retryLoop] in H.
    apply bind_inv in H as ([[regulars1 status1] cur] & w1 & Hpass & H). cbn beta iota in H.
    pose proof (applyRegulars_keeps names _ _ _ _ _ _ _ _ _ _ Hpass) as Hk.
    destruct ((cur =? 0)%nat || (cur =? prev)%nat).
    + injection H as _ _ <-. exact Hk.
    + exact (keepsRecords_trans names _ _ _ Hk (IH _ _ _ _ _ _ _ _ H)).
Qed.

Lemma crdAvailable_keeps (names : list string) (crd : Unstructured) (r : bool * option error)
    (w w' : World K) :
  crdAvailable crd w = (Returns r, w') -> keepsRecords holds names w w'.
Proof.
  unfold crdAvailable. intros H.
  apply bind_inv in H as ([] & w1 & Hinv & H). apply call_inv in Hinv as [Hinv Hev1].
  injection Hinv as Hinv.
  assert (Hk1 : keepsRecords holds names w w1).
  { apply keepsRecords_silent; [exact Hev1|]. rewrite <- Hinv.
    apply (store_Invalidate K holds store). }
  destruct (asCRD crd) as [spec|e].
  - apply bind_inv in H as (listed & w2 & Hlist & H). apply call_inv in Hlist as [Hlist Hev2].
    assert (Hk2 : keepsRecords holds names w1 w2).
    { apply keepsRecords_silent; [exact Hev2|]. intros Hh.
      exact (store_ServerResources K holds store _ _ _ _ _ Hh Hlist). }
    assert (w' = w2) as -> by (destruct listed; now injection H as _ <-).
    exact (keepsRecords_trans names _ _ _ Hk1 Hk2).
  - injection H as _ <-. exact Hk1.
Qed.

Lemma crdsAvailable_keeps (names : list string) (crds : list Unstructured) :
  forall (r : bool * option error) (w w' : World K),
    crdsAvailable crds w = (Returns r, w') -> keepsRecords holds names w w'.
Proof.
  induction crds as [|crd crds IH]; intros r w w' H.
  - injection H as _ <-. apply keepsRecords_refl.
  - cbn [crdsAvailable] in H.
    apply bind_inv in H as ([ok err] & w1 & Hone & H). cbn beta iota in H.
    pose proof (crdAvailable_keeps names _ _ _ _ Hone) as Hk.
    destruct (negb ok || match err with Some _ => true | None => false end).
    + injection H as _ <-. exact Hk.
    + exact (keepsRecords_trans names _ _ _ Hk (IH _ _ _ H)).
Qed.

Lemma wait_WaitFor_keeps (names : list string) (crds : list Unstructured) (ticks : nat) :
  forall (err : option error) (w w' : World K),
    wait_WaitFor ticks (crdsAvailable crds) w = (Returns err, w') ->
    keepsRecords holds names w w'.
Proof.
  induction ticks as [|ticks IH]; intros err w w' H.
  - injection H as _ <-. apply keepsRecords_refl.
  - cbn [wait_WaitFor] in H.
    apply bind_inv in H as ([ok e] & w1 & Hcond & H). cbn beta iota in H.
    pose proof (crdsAvailable_keeps names _ _ _ _ Hcond) as Hk.
    destruct e as [e|]; [injection H as _ <-; exact Hk|].
    destruct ok; [injection H as _ <-; exact Hk|].
    exact (keepsRecords_trans names _ _ _ Hk (IH _ _ _ H)).
Qed.

Lemma waitForCRDs_keeps (names : list string) (crds : list Unstructured)
    (err : option error) (w w' : World K) :
  waitForCRDs crds w = (Returns err, w') -> keepsRecords holds names w w'.
Proof.
  unfold waitForCRDs, wait_PollImmediate. intros H.
  apply bind_inv in H as ([ok e] & w1 & Hcond & H). cbn beta iota in H.
  pose proof (crdsAvailable_keeps names _ _ _ _ Hcond) as Hk.
  destruct e as [e|]; [injection H as _ <-; exact Hk|].
  destruct ok; [injection H as _ <-; exact Hk|].
  apply bind_inv in H as (ticks & w2 & Hticks & H).
  unfold timerTicks in Hticks. injection Hticks as _ <-.
  exact (keepsRecords_trans names _ _ _ Hk (wait_WaitFor_keeps names _ _ _ _ _ H)).
Qed.

Lemma applyAll_keeps (names : list string) (rs : option ResourceSet) (opts : ApplyOptions)
    (resources : list Unstructured) (r : Applied * option error) (w w' : World K) :
  applyAll rs opts resources w = (Returns r, w') -> keepsRecords holds names w w'.
Proof.
  unfold applyAll. intros H.
  apply bind_inv in H as ([crds status] & w1 & Hinstall & H). cbn beta iota in H.
  apply bind_inv in H as (err & w2 & Hwait & H).
  pose proof (keepsRecords_trans names _ _ _ (installCRDs_keeps names _ _ _ _ _ _ _ Hinstall)
                (waitForCRDs_keeps names _ _ _ _ Hwait)) as Hk.
  destruct err as [e|].
  - injection H as _ <-. exact Hk.
  - apply bind_inv in H as ([regulars status'] & w3 & Hloop & H).
    injection H as _ <-.
    exact (keepsRecords_trans names _ _ _ Hk (retryLoop_keeps names _ _ _ _ _ _ _ _ _ _ Hloop)).
Qed.

End Records.

Section Chain.
Context {K : Env} (holds : cluster K -> list string -> Prop).
Hypothesis store : RecordStore K holds.

Lemma lift_inv {A : Type} (o : Outcome A) (a : A) (w w' : World K) :
  lift o w = (Returns a, w') -> o = Returns a /\ w' = w.
Proof. unfold lift. intros [= -> <-]. auto. Qed.

(** A successful [initialize] has listed the records, taken the version
    [nextVersion] gives on the listing, and created its record under the
    name of that version. *)
Lemma initialize_record (opts opts' : ApplyOptions) (resources resources' : list Unstructured)
    (rs : ResourceSet) (w w' : World K) :
  initialize opts resources w = (Returns (opts', Some rs, resources', None), w') ->
  exists items c1 v now c2 asked,
    client_List K resourceSetGVR (σ w) = (inl items, c1) /\
    nextVersion (optName opts) items = Returns v /\
    optVersion opts' = v /\
    metav1_Now K c1 = (now, c2) /\
    rsName asked = resourceSetName (optName opts) v /\
    client_CreateResourceSet K asked c2 = (inl rs, σ w') /\
    events w' = events w.
Proof.
  unfold initialize. intros H.
  apply bind_inv in H as ([v err] & w1 & Hnext & H). cbn beta iota in H.
  unfold next in Hnext.
  apply bind_inv in Hnext as (listed & wl & Hlist & Hnext).
  apply call_inv in Hlist as [Hlist Hevl].
  destruct listed as [items|e]; [|injection Hnext as _ <- _; discriminate H].
  apply bind_inv in Hnext as (v' & wv & Hv & Hnext). apply lift_inv in Hv as [Hv ->].
  injection Hnext as <- <- <-.
  apply bind_inv in H as (now & w2 & Hnow & H). apply call_inv in Hnow as [Hnow Hev2].
  apply bind_inv in H as ([rs1 err] & w3 & Hcreate & H). cbn beta iota in H.
  unfold createResourceSet in Hcreate.
  apply bind_inv in Hcreate as (res & wc & Hcall & Hcreate).
  apply call_inv in Hcall as [Hcall Hevc].
  destruct res as [rs'|e]; injection Hcreate as <- <- <-; [|discriminate H].
  apply bind_inv in H as ([resources1 err] & w4 & Hattach & H). cbn beta iota in H.
  apply lift_inv in Hattach as [_ ->].
  destruct err as [e|]; [discriminate H|]. injection H as <- <- _ <-.
  eexists items, (σ wl), v', now, (σ w2), _.
  split; [exact Hlist|]. split; [exact Hv|]. split; [reflexivity|].
  split; [exact Hnow|]. split; [|split; [exact Hcall | congruence]].
  reflexivity.
Qed.

Lemma scanVersions_names (name : string) (items : list Unstructured) (cur : Z) :
  scanVersions name items cur
  = scanVersions name (map listedResourceSet (map GetName items)) cur.
Proof.
  revert cur. induction items as [|r items IH]; intros cur; [reflexivity|].
  cbn [map scanVersions]. cbn [listedResourceSet GetName].
  destruct (decodeResourceSetName (GetName r)) as [[[n v] ok]|e]; cbn; [|reflexivity].
  destruct (negb ok || negb (n =? name)%string); [apply IH|].
  destruct (cur <? v); apply IH.
Qed.

Lemma Apply_events (name : string) (opts : option ApplyOptions)
    (resources : list Unstructured) (r : option ResourceSet * option error) (w w' : World K) :
  Apply name opts resources w = (Returns r, w') -> exists evs, events w' = events w ++ evs.
Proof.
  unfold Apply. intros H.
  apply bind_inv in H as ([[[opts1 rs0] resources1] err0] & wi & Hinit & H).
  cbn beta iota in H.
  destruct (initialize_steps _ _ _ _ _ _ _ _ Hinit) as [Hev _].
  destruct err0 as [e|].
  - injection H as _ <-. exists []. now rewrite app_nil_r.
  - apply bind_inv in H as ([applied err] & wa & Hall & H). injection H as _ <-.
    destruct (applyAll_runs rs0 opts1 resources1 wi) as (a & e & w2 & evs & Hrun & Hevs & _).
    rewrite Hall in Hrun. injection Hrun as _ _ <-. exists evs. now rewrite Hevs, Hev.
Qed.

Lemma Reconciled_events (name : string) (w w' : World K) (rss : list ResourceSet) :
  Reconciled name w rss w' -> exists evs, events w' = events w ++ evs.
Proof.
  induction 1 as [w | w opts resources rs err w1 rss w2 Hrun _ [evs2 IH]].
  - exists []. now rewrite app_nil_r.
  - destruct (Apply_events _ _ _ _ _ _ Hrun) as [evs1 Hev1].
    exists (evs1 ++ evs2). now rewrite IH, Hev1, app_assoc.
Qed.

(** One reconciliation that returns its record: the record bears the
    version [nextVersion] gives on the records held, and is held after. *)
Lemma Apply_step (names : list string) (name : string) (opts : option ApplyOptions)
    (resources : list Unstructured) (rs : ResourceSet) (err : option error) (w w1 : World K) :
  holds (σ w) names ->
  Apply name opts resources w = (Returns (Some rs, err), w1) ->
  Forall sparesRecords (events w1) ->
  exists v, nextVersion name (map listedResourceSet names) = Returns v /\
            rsName rs = resourceSetName name v /\
            holds (σ w1) (names ++ [rsName rs]).
Proof.
  intros Hholds H Hall. unfold Apply in H.
  apply bind_inv in H as ([[[opts1 rs0] resources1] err0] & wi & Hinit & H).
  cbn beta iota in H.
  pose proof (initialize_result _ _ _ _ _ _ _ _ Hinit) as Hres.
  destruct err0 as [e|].
  - injection H as -> _ _. discriminate Hres.
  - apply bind_inv in H as ([applied err'] & wa & Hrun & H).
    injection H as -> <- <-.
    destruct (initialize_record _ _ _ _ _ _ _ Hinit)
      as (items & c1 & v & now & c2 & asked & Hlist & Hv & _ & Hnow & Hname & Hcreate & _).
    cbn [optName] in Hv, Hname.
    destruct (store_List K holds store _ _ _ _ Hholds Hlist) as [H1 Hitems].
    specialize (Hitems items eq_refl).
    pose proof (store_Now K holds store _ _ _ _ H1 Hnow) as H2.
    destruct (store_CreateResourceSet K holds store _ _ _ _ _ H2 Hcreate) as [H3 Hsame].
    exists v. split; [|split].
    + unfold nextVersion in *. now rewrite <- Hitems, <- scanVersions_names.
    + congruence.
    + rewrite Hsame.
      apply (applyAll_keeps holds store (names ++ [rsName asked]) _ _ _ _ _ _ Hrun);
        assumption.
Qed.

Lemma versionNames_S (name : string) (first : Z) (n : nat) :
  versionNames name first (S n)
  = resourceSetName name first :: versionNames name (first + 1) n.
Proof.
  unfold versionNames. cbn [seq map]. rewrite Z.add_0_r. f_equal.
  rewrite <- (seq_shift n 0), map_map. apply map_ext. intros j. f_equal. lia.
Qed.

Lemma scanVersions_next (name : string) (names : list string) (k : Z) :
  validBaseName name -> 0 <= k -> k + 1 <= maxInt32 ->
  scanVersions name (map listedResourceSet names) 0 = Returns k ->
  scanVersions name (map listedResourceSet (names ++ [resourceSetName name (k + 1)])) 0
  = Returns (k + 1).
Proof.
  intros Hname Hk Hmax Hscan.
  rewrite map_app, scanVersions_app, Hscan. cbn.
  rewrite decode_resourceSetName by (auto; lia). cbn.
  rewrite String.eqb_refl. cbn.
  destruct (Z.ltb_spec k (k + 1)); [reflexivity | lia].
Qed.

Lemma Reconciled_versions (name : string) (w w' : World K) (rss : list ResourceSet) :
  validBaseName name ->
  Reconciled name w rss w' ->
  Forall sparesRecords (events w') ->
  forall (names : list string) (k : Z),
    holds (σ w) names ->
    scanVersions name (map listedResourceSet names) 0 = Returns k ->
    0 <= k -> k + Z.of_nat (length rss) <= maxInt32 ->
    map rsName rss = versionNames name (k + 1) (length rss) /\
    holds (σ w') (names ++ versionNames name (k + 1) (length rss)).
Proof.
  intros Hname Hchain. induction Hchain as [w | w opts resources rs err w1 rss w2 Hrun Hrest IH];
    intros Hall names k Hholds Hscan Hk Hmax.
  - cbn. rewrite app_nil_r. auto.
  - cbn [length] in Hmax |- *.
    destruct (Reconciled_events _ _ _ _ Hrest) as [evs Hev].
    assert (Hall1 : Forall sparesRecords (events w1)).
    { rewrite Hev in Hall. now apply List.Forall_app in Hall as [Hall _]. }
    destruct (Apply_step names name _ _ _ _ _ _ Hholds Hrun Hall1) as (v & Hv & Hrs & Hheld).
    unfold nextVersion in Hv. rewrite Hscan in Hv. cbn in Hv.
    rewrite int32_small in Hv by (unfold maxInt32 in *; lia). injection Hv as <-.
    rewrite Hrs in Hheld.
    destruct (IH Hall (names ++ [resourceSetName name (k + 1)]) (k + 1) Hheld)
      as [Hnames Hfinal];
      [apply scanVersions_next; [assumption | lia | lia | assumption] | lia | lia |].
    rewrite versionNames_S. cbn [map]. rewrite Hrs, Hnames. split; [reflexivity|].
    now rewrite <- app_assoc in Hfinal.
Qed.

(** Records of other batches only: the scan for [name] finds no version. *)
Lemma scanVersions_none (name : string) (names : list string) :
  (forall s b v, In s names -> DecodesTo s b v -> v <= maxInt64) ->
  (forall s u, In s names -> ~ DecodesTo s name u) ->
  scanVersions name (map listedResourceSet names) 0 = Returns 0.
Proof.
  intros Hrange Hfresh.
  assert (Hin : forall r, In r (map listedResourceSet names) -> In (GetName r) names).
  { intros r Hr. apply in_map_iff in Hr as (s & <- & Hs). exact Hs. }
  destruct (scanVersions_max name (map listedResourceSet names) 0) as (m & Hscan & _ & Hcase).
  - intros r b v Hr Hd. split; [exact (Hrange _ _ _ (Hin r Hr) Hd)|].
    intros ->. now contradiction (Hfresh _ _ (Hin r Hr) Hd).
  - unfold maxInt32. lia.
  - destruct Hcase as [[_ ->] | (r & u & Hr & Hd & _)]; [exact Hscan|].
    now contradiction (Hfresh _ _ (Hin r Hr) Hd).
Qed.

End Chain.

Section FakeStore.

Lemma listed_names (names : list string) : map GetName (map listedResourceSet names) = names.
Proof. induction names as [|s names IH]; cbn; [reflexivity | now rewrite IH]. Qed.

Lemma fakeEnv_store : RecordStore fakeEnv fakeHolds.
Proof.
  unfold fakeHolds. constructor; cbn.
  - intros c names res c' <-. destruct (fakeListFails c); intros [= <- <-];
      (split; [reflexivity|]); intros items [=]. subst items. apply listed_names.
  - intros c names rs rs' c' <- [= <- <-]. cbn. auto.
  - intros c names group kind version res c' <-.
    destruct (String.eqb kind "Unknown"); intros [= _ <-]; reflexivity.
  - intros c names client name res c' _ <-.
    destruct (find (hasName name) (fakeObjects c)); intros [= _ <-]; reflexivity.
  - intros c names client obj res c' _ <-.
    destruct (find (hasName (GetName obj)) (fakeObjects c)); intros [= _ <-]; reflexivity.
  - intros c names client obj res c' _ <-.
    destruct (fakeRejectsUpdates c); intros [= _ <-]; reflexivity.
  - intros c names client name res c' _ <-.
    destruct (find (hasName name) (fakeObjects c)); intros [= _ <-]; reflexivity.
  - auto.
  - intros c names groupVersion res c' <- [= _ <-]. reflexivity.
  - intros c names now c' <- [= _ <-]. reflexivity.
Qed.

End FakeStore.




(** * The poll that lets [applyAll] pass *)

Section PassedGate.
Context {K : Env}.

Lemma wait_WaitFor_passed (crds : list Unstructured) (ticks : nat) :
  forall (w w2 : World K),
    wait_WaitFor ticks (crdsAvailable crds) w = (Returns None, w2) ->
    exists w0, Polled crds w w0 /\ crdsAvailable crds w0 = (Returns (true, None), w2).
Proof.
  induction ticks as [|ticks IH]; intros w w2 H; [discriminate H|].
  cbn [wait_WaitFor] in H.
  apply bind_inv in H as ([ok e] & w1 & Hcond & H). cbn beta iota in H.
  destruct e as [e|]; [discriminate H|].
  destruct ok.
  - injection H as <-. exists w. split; [constructor | exact Hcond].
  - destruct (IH _ _ H) as (w0 & Hpolled & Hlast).
    exists w0. split; [|exact Hlast]. exact (Polled_again crds w w1 w0 Hcond Hpolled).
Qed.

Lemma waitForCRDs_passed (crds : list Unstructured) (w w2 : World K) :
  waitForCRDs crds w = (Returns None, w2) ->
  exists w0, Polled crds w w0 /\ crdsAvailable crds w0 = (Returns (true, None), w2).
Proof.
  unfold waitForCRDs, wait_PollImmediate. intros H.
  apply bind_inv in H as ([ok e] & w1 & Hcond & H). cbn beta iota in H.
  destruct e as [e|]; [discriminate H|].
  destruct ok.
  - injection H as <-. exists w. split; [constructor | exact Hcond].
  - apply bind_inv in H as (ticks & wt & Hticks & H).
    unfold timerTicks in Hticks. injection Hticks as _ <-.
    destruct (wait_WaitFor_passed _ _ _ _ H) as (w0 & Hpolled & Hlast).
    exists w0. split; [|exact Hlast]. exact (Polled_again crds w w1 w0 Hcond Hpolled).
Qed.

Lemma crdAvailable_listed (crd : Unstructured) (w w' : World K) :
  crdAvailable crd w = (Returns (true, None), w') -> listedAt K crd (σ w).
Proof.
  unfold crdAvailable. intros H.
  apply bind_inv in H as ([] & w1 & Hinv & H). apply call_inv in Hinv as [Hinv _].
  injection Hinv as Hinv.
  destruct (asCRD crd) as [spec|e] eqn:Hspec; [|discriminate H].
  apply bind_inv in H as (listed & w2 & Hlist & H). apply call_inv in Hlist as [Hlist _].
  destruct listed as [l|e]; [|discriminate H]. injection H as Hfound _.
  exists spec, l, (σ w2). rewrite Hinv. auto.
Qed.

Lemma crdsAvailable_split (before after : list Unstructured) (crd : Unstructured) :
  forall (w w2 : World K),
    crdsAvailable (before ++ crd :: after) w = (Returns (true, None), w2) ->
    exists wa wb,
      crdsAvailable before w = (Returns (true, None), wa) /\
      crdAvailable crd wa = (Returns (true, None), wb) /\
      crdsAvailable after wb = (Returns (true, None), w2).
Proof.
  induction before as [|c before IH]; intros w w2 H.
  - cbn [app crdsAvailable] in H.
    apply bind_inv in H as ([ok e] & wb & Hone & H). cbn beta iota in H.
    destruct ok, e as [e|]; cbn in H; try discriminate H.
    exists w, wb. auto.
  - cbn [app crdsAvailable] in H.
    apply bind_inv in H as ([ok e] & w1 & Hone & H). cbn beta iota in H.
    destruct ok, e as [e|]; cbn in H; try discriminate H.
    destruct (IH _ _ H) as (wa & wb & Hbefore & Hcrd & Hafter).
    exists wa, wb. split; [|auto].
    cbn [crdsAvailable]. unfold mbind, M_mbind. rewrite Hone. cbn. exact Hbefore.
Qed.

Lemma same_map_split {A B : Type} (f : A -> B) (l l' : list A) (x : A) :
  map f l' = map f l -> In x l ->
  exists before x' after, l' = before ++ x' :: after /\ f x' = f x.
Proof.
  intros Hmap Hin. apply in_split in Hin as (l1 & l2 & ->).
  rewrite map_app in Hmap. cbn [map] in Hmap.
  apply List.map_eq_app in Hmap as (before & rest & -> & _ & Hrest).
  apply List.map_eq_cons in Hrest as (x' & after & -> & Hx & _).
  exists before, x', after. auto.
Qed.

Lemma listedAt_same_crd (a b : Unstructured) (c : cluster K) :
  asCRD a = asCRD b -> listedAt K a c -> listedAt K b c.
Proof.
  intros Hsame (spec & l & c' & Hspec & Hlist & Hfound).
  exists spec, l, c'. rewrite <- Hsame. auto.
Qed.

Lemma applyAll_passed (rs : option ResourceSet) (opts : ApplyOptions)
    (resources : list Unstructured) (applied : Applied) (w w' : World K) :
  applyAll rs opts resources w = (Returns (applied, None), w') ->
  exists status w1 w0 w2,
    installCRDs rs (filter resources isCustomResourceDefinition) (initStatus resources) w
    = (Returns (appliedCRDs applied, status), w1) /\
    Polled (appliedCRDs applied) w1 w0 /\
    crdsAvailable (appliedCRDs applied) w0 = (Returns (true, None), w2) /\
    retryLoop 10 rs 0 (filter resources (fun r => negb (isCustomResourceDefinition r)))
      status 0 w2
    = (Returns (appliedRegulars applied, appliedStatus applied), w') /\
    forall crd, In crd resources -> isCustomResourceDefinition crd = true ->
      exists before crd' after wa,
        appliedCRDs applied = before ++ crd' :: after /\
        asCRD crd' = asCRD crd /\
        crdsAvailable before w0 = (Returns (true, None), wa) /\
        listedAt K crd (σ wa).
Proof.
  unfold applyAll. intros H.
  apply bind_inv in H as ([crds status] & w1 & Hinstall & H). cbn beta iota in H.
  apply bind_inv in H as ([e|] & w2 & Hwait & H); [discriminate H|].
  apply bind_inv in H as ([regulars status'] & w3 & Hloop & H).
  injection H as <- <-. cbn [appliedCRDs appliedRegulars appliedStatus].
  destruct (waitForCRDs_passed _ _ _ Hwait) as (w0 & Hpolled & Hlast).
  exists status, w1, w0, w2. repeat (split; [assumption|]).
  intros crd Hin Hcrd.
  assert (Hin' : In crd (filter resources isCustomResourceDefinition)).
  { unfold filter. apply filter_In. auto. }
  destruct (same_map_split asCRD _ _ crd (installCRDs_same_crds _ _ _ _ _ _ _ Hinstall) Hin')
    as (before & crd' & after & -> & Hsame).
  destruct (crdsAvailable_split _ _ _ _ _ Hlast) as (wa & wb & Hbefore & Hone & _).
  exists before, crd', after, wa. repeat (split; [auto|]).
  apply (listedAt_same_crd crd'); [exact Hsame|].
  exact (crdAvailable_listed _ _ _ Hone).
Qed.

Lemma applyAll_no_crds (rs : option ResourceSet) (opts : ApplyOptions)
    (resources : list Unstructured) (w : World K) :
  Forall (fun r => isCustomResourceDefinition r = false) resources ->
  filter resources isCustomResourceDefinition = [] /\
  filter resources (fun r => negb (isCustomResourceDefinition r)) = resources /\
  exists regulars' status' w',
    retryLoop 10 rs 0 resources (initStatus resources) 0 w = (Returns (regulars', status'), w') /\
    applyAll rs opts resources w
    = (Returns ({| appliedStatus := status'; appliedCRDs := [];
                   appliedRegulars := regulars' |}, None), w').
Proof.
  intros Hnone.
  assert (Hregs : filter resources (fun r => negb (isCustomResourceDefinition r)) = resources).
  { unfold filter. clear w. induction Hnone as [|r l Hr _ IH]; cbn; [reflexivity|].
    rewrite Hr. cbn. now rewrite IH. }
  assert (Hcrds : filter resources isCustomResourceDefinition = [])
    by now apply filter_nil_crds.
  split; [exact Hcrds|]. split; [exact Hregs|].
  destruct (retryLoop_runs rs 10 0 resources (initStatus resources) 0 w)
    as (regulars' & status' & w' & evs & Hloop & _).
  { apply initStatus_covers. }
  { exact Hnone. }
  exists regulars', status', w'. split; [exact Hloop|].
  apply (applyAll_gate_passes rs opts resources [] regulars' (initStatus resources) status'
           w w w w').
  - now rewrite Hcrds.
  - reflexivity.
  - now rewrite Hregs.
Qed.

End PassedGate.

(** X11.  When [applyAll] returns without error, the wait has ended with a
    poll in which every CRD was found: from the world the CRD phase left,
    polls answering "not yet" led to a world from which the last poll went
    through all the CRDs with success, and the retry loop started from the
    world that poll left.  Every CRD of the batch converts, and at its turn
    in that last poll discovery, its cache invalidated, listed the plural
    of the CRD under its group and version. *)
Theorem applyAll_succeeds_only_when_served (K : Env) (rs : option ResourceSet)
    (opts : ApplyOptions) (resources : list Unstructured) (applied : Applied)
    (w w' : World K) :
  applyAll rs opts resources w = (Returns (applied, None), w') ->
  exists status w1 w0 w2,
    installCRDs rs (filter resources isCustomResourceDefinition) (initStatus resources) w
    = (Returns (appliedCRDs applied, status), w1) /\
    Polled (appliedCRDs applied) w1 w0 /\
    crdsAvailable (appliedCRDs applied) w0 = (Returns (true, None), w2) /\
    retryLoop 10 rs 0 (filter resources (fun r => negb (isCustomResourceDefinition r)))
      status 0 w2
    = (Returns (appliedRegulars applied, appliedStatus applied), w') /\
    forall crd, In crd resources -> isCustomResourceDefinition crd = true ->
      exists before crd' after wa,
        appliedCRDs applied = before ++ crd' :: after /\
        asCRD crd' = asCRD crd /\
        crdsAvailable before w0 = (Returns (true, None), wa) /\
        listedAt K crd (σ wa).
Proof. apply applyAll_passed. Qed.

Lemma applyAll_succeeds_only_when_served_witness :
  exists applied w' (w0 w2 wa : World fakeEnv),
    applyAll None noOptions [robotCRD; configMap "a" []] (fakeWorld (strictCluster []))
    = (Returns (applied, None), w') /\
    crdsAvailable (appliedCRDs applied) w0 = (Returns (true, None), w2) /\
    listedAt fakeEnv robotCRD (σ wa).
Proof.
  pose (run := applyAll (K:=fakeEnv) None noOptions [robotCRD; configMap "a" []]
                 (fakeWorld (strictCluster []))).
  assert (Hrun : exists applied w', run = (Returns (applied, None), w')).
  { let v := eval vm_compute in run in
    match v with
    | (Returns (?a, None), ?w') => exists a, w'
    end.
    vm_compute. reflexivity. }
  destruct Hrun as (applied & w' & Hrun).
  destruct (applyAll_succeeds_only_when_served fakeEnv None noOptions
              [robotCRD; configMap "a" []] applied (fakeWorld (strictCluster [])) w' Hrun)
    as (status & w1 & w0 & w2 & _ & _ & Hlast & _ & Hserved).
  destruct (Hserved robotCRD) as (before & crd' & after & wa & _ & _ & _ & Hlisted).
  - now left.
  - reflexivity.
  - exists applied, w', w0, w2, wa. auto.
Defined.

(** X12.  A batch without CRDs cannot fail in [applyAll], which comes down
    to its retry loop: the CRD phase and the wait return at once and leave
    the world as it is, and [applyAll] returns, with no error, what the
    retry loop over all the resources returns from the initial status map,
    whatever the cluster does. *)
Theorem applyAll_without_crds_succeeds (K : Env) (rs : option ResourceSet)
    (opts : ApplyOptions) (resources : list Unstructured) (w : World K) :
  Forall (fun r => isCustomResourceDefinition r = false) resources ->
  installCRDs rs (filter resources isCustomResourceDefinition) (initStatus resources) w
  = (Returns ([], initStatus resources), w) /\
  waitForCRDs [] w = (Returns None, w) /\
  exists regulars' status' w',
    retryLoop 10 rs 0 resources (initStatus resources) 0 w
    = (Returns (regulars', status'), w') /\
    applyAll rs opts resources w
    = (Returns ({| appliedStatus := status'; appliedCRDs := [];
                   appliedRegulars := regulars' |}, None), w').
Proof.
  intros Hnone.
  destruct (applyAll_no_crds rs opts resources w Hnone) as (Hcrds & _ & Hrun).
  split; [now rewrite Hcrds|]. split; [reflexivity | exact Hrun].
Qed.

Lemma applyAll_without_crds_succeeds_witness :
  exists regulars' status' w',
    retryLoop 10 None 0 [configMap "a" []; configMap "" []]
      (initStatus [configMap "a" []; configMap "" []]) 0 (fakeWorld emptyCluster)
    = (Returns (regulars', status'), w') /\
    applyAll None noOptions [configMap "a" []; configMap "" []] (fakeWorld emptyCluster)
    = (Returns ({| appliedStatus := status'; appliedCRDs := [];
                   appliedRegulars := regulars' |}, None), w').
Proof.
  apply (applyAll_without_crds_succeeds fakeEnv None noOptions
           [configMap "a" []; configMap "" []] (fakeWorld emptyCluster)).
  repeat constructor.
Defined.
